(** * MARKET.js: collateral formula, fillable quantities, trade preconditions

    A shallow embedding of the off-chain order pipeline of MARKET.js.

    Definitions, in the order of the sources they follow:
    - [JS]: the string and dictionary operations used;
    - [BN]: the values and operations of bignumber.js that the sources call
      ([minus], [times], [dividedBy], [absoluteValue], the comparisons,
      [BigNumber.min], [toString] and the constructor from a string), with
      NaN, the infinities and the signed zero;
    - [Utils]: [calculateNeededCollateral] and the standardized contract
      names of src/lib/Utils.ts;
    - [Chain]: orders, errors, the world outside the wrappers, and the
      asynchronous code as a small monad that reads the world, threads the
      wrapper's dictionaries, records every call and may reject;
    - [Assert], [ContractWrapper], [MarketProtocolContractWrapper], [Market],
      [RemainingFillableCalculator]: the sources of the same names;
    - [Ledgers]: chains that answer every call, and what is said of a fill.

    The facts follow, module by module. *)

From Stdlib Require Import ZArith NArith QArith Qround Qabs Qminmax Qpower.
From Stdlib Require Import Lia Lqa Bool List String Ascii.
Import ListNotations.

(* ===================================================================== *)
(** * JavaScript strings and dictionaries *)
(* ===================================================================== *)

Module JS.

(** Strings are sequences of character codes; the case conversions are those
    of the ASCII letters (contract names, token symbols and hexadecimal
    addresses are ASCII), other codes are left as they are. *)
Definition isUpper (c : ascii) : bool :=
  let n := nat_of_ascii c in (65 <=? n)%nat && (n <=? 90)%nat.
Definition isLower (c : ascii) : bool :=
  let n := nat_of_ascii c in (97 <=? n)%nat && (n <=? 122)%nat.

Definition upperChar (c : ascii) : ascii :=
  if isLower c then ascii_of_nat (nat_of_ascii c - 32) else c.
Definition lowerChar (c : ascii) : ascii :=
  if isUpper c then ascii_of_nat (nat_of_ascii c + 32) else c.

Fixpoint mapString (f : ascii -> ascii) (s : string) : string :=
  match s with
  | EmptyString => EmptyString
  | String c rest => String (f c) (mapString f rest)
  end.

Definition toUpperCase : string -> string := mapString upperChar.
Definition toLowerCase : string -> string := mapString lowerChar.

(** [s.split(sep)] for a one-character separator: the pieces between the
    separators, always at least one. *)
Fixpoint split (sep : ascii) (s : string) : list string :=
  match s with
  | EmptyString => [EmptyString]
  | String c rest =>
      if Ascii.eqb c sep then EmptyString :: split sep rest
      else match split sep rest with
           | piece :: pieces => String c piece :: pieces
           | [] => [String c EmptyString]
           end
  end.

(** [s.slice(0, k)] and [s.slice(k)] for a [k] that is not negative. *)
Fixpoint sliceTo (k : nat) (s : string) : string :=
  match k, s with
  | S k', String c rest => String c (sliceTo k' rest)
  | _, _ => EmptyString
  end.
Fixpoint sliceFrom (k : nat) (s : string) : string :=
  match k, s with
  | S k', String c rest => sliceFrom k' rest
  | _, _ => s
  end.

(** [s.concat(s1, ..., sn)]. *)
Definition concat (s : string) (parts : list string) : string :=
  (s ++ fold_right append EmptyString parts)%string.

(** Whether every character of [s] satisfies [p]. *)
Fixpoint allChars (p : ascii -> bool) (s : string) : bool :=
  match s with
  | EmptyString => true
  | String c rest => p c && allChars p rest
  end.

Definition notUnderscore (c : ascii) : bool := negb (Ascii.eqb c "_").

(** [xs.includes(x)] / lodash [_.includes] on an array of strings. *)
Definition includes (xs : list string) (x : string) : bool :=
  existsb (String.eqb x) xs.

(** [obj[key]] and [obj[key] = value] on an object used as a dictionary. *)
Fixpoint lookup {V} (key : string) (obj : list (string * V)) : option V :=
  match obj with
  | [] => None
  | (k, v) :: rest => if String.eqb key k then Some v else lookup key rest
  end.
Definition assign {V} (key : string) (value : V) (obj : list (string * V))
  : list (string * V) := (key, value) :: obj.


(** How many times the character [c] occurs in [s]. *)
Fixpoint countChar (c : ascii) (s : string) : nat :=
  match s with
  | EmptyString => 0
  | String x rest => (if Ascii.eqb x c then 1 else 0) + countChar c rest
  end.

End JS.

(* ===================================================================== *)
(** * bignumber.js *)
(* ===================================================================== *)

Module BN.

(** A BigNumber is NaN, a signed infinity, or a signed finite decimal
    [c * 10^e]. The library keeps the coefficient without trailing zeros and
    zero as coefficient 0 with its own sign; [e] here is the power of ten of
    the last digit of [c]. The library's exponent range (RANGE, 1e7 by
    default) is out of reach of every quantity of this program and is not
    modelled. *)
Inductive BigNumber : Type :=
| NaN
| Infinity (neg : bool)
| Finite (neg : bool) (c : N) (e : Z).

Definition zero : BigNumber := Finite false 0 0.

(** Trailing zeros of the coefficient move into the exponent. *)
Fixpoint strip (fuel : nat) (c : N) (e : Z) : N * Z :=
  match fuel with
  | O => (c, e)
  | S fuel' =>
      if (c mod 10 =? 0)%N then strip fuel' (c / 10)%N (e + 1)%Z else (c, e)
  end.

Definition normalise (neg : bool) (c : N) (e : Z) : BigNumber :=
  if (c =? 0)%N then Finite neg 0 0
  else let (c', e') := strip (N.size_nat c) c e in Finite neg c' e'.

(** [new BigNumber(n)] for a JavaScript integer literal. *)
Definition ofInt (z : Z) : BigNumber := normalise (z <? 0)%Z (Z.abs_N z) 0.

(** The signed integer [x * 10^(-e0)], for [e0] at most the exponent. *)
Definition scaled (neg : bool) (c : N) (e e0 : Z) : Z :=
  ((if neg then -1 else 1) * Z.of_N c * 10 ^ (e - e0))%Z.

Definition isNaN (x : BigNumber) : bool :=
  match x with NaN => true | _ => false end.

Definition isFinite (x : BigNumber) : bool :=
  match x with Finite _ _ _ => true | _ => false end.

Definition isZero (x : BigNumber) : bool :=
  match x with Finite _ c _ => (c =? 0)%N | _ => false end.

(** [x.isPositive()]: the sign field is +1; true of +0, false of -0 and NaN. *)
Definition isPositive (x : BigNumber) : bool :=
  match x with
  | NaN => false
  | Infinity neg => negb neg
  | Finite neg _ _ => negb neg
  end.

Definition absoluteValue (x : BigNumber) : BigNumber :=
  match x with
  | NaN => NaN
  | Infinity _ => Infinity false
  | Finite _ c e => Finite false c e
  end.

(** [compare(x, y)]: [None] when either is NaN; the two zeros are equal. *)
Definition compare (x y : BigNumber) : option comparison :=
  match x, y with
  | NaN, _ | _, NaN => None
  | Infinity a, Infinity b =>
      Some (if Bool.eqb a b then Eq else if a then Lt else Gt)
  | Infinity a, Finite _ _ _ => Some (if a then Lt else Gt)
  | Finite _ _ _, Infinity b => Some (if b then Gt else Lt)
  | Finite n1 c1 e1, Finite n2 c2 e2 =>
      let e0 := Z.min e1 e2 in
      Some (Z.compare (scaled n1 c1 e1 e0) (scaled n2 c2 e2 e0))
  end.

Definition isEqualTo (x y : BigNumber) : bool :=
  match compare x y with Some Eq => true | _ => false end.
Definition isLessThan (x y : BigNumber) : bool :=
  match compare x y with Some Lt => true | _ => false end.
Definition isGreaterThan (x y : BigNumber) : bool :=
  match compare x y with Some Gt => true | _ => false end.
Definition lte (x y : BigNumber) : bool :=
  match compare x y with Some Lt | Some Eq => true | _ => false end.
Definition gte (x y : BigNumber) : bool :=
  match compare x y with Some Gt | Some Eq => true | _ => false end.

(** [x.minus(y)]. A zero difference is +0, except that (-0) - (+0) is -0. *)
Definition minus (x y : BigNumber) : BigNumber :=
  match x, y with
  | NaN, _ | _, NaN => NaN
  | Infinity a, Infinity b => if Bool.eqb a b then NaN else Infinity a
  | Infinity a, Finite _ _ _ => Infinity a
  | Finite _ _ _, Infinity b => Infinity (negb b)
  | Finite n1 c1 e1, Finite n2 c2 e2 =>
      let e0 := Z.min e1 e2 in
      let z := (scaled n1 c1 e1 e0 - scaled n2 c2 e2 e0)%Z in
      if (z =? 0)%Z then Finite (n1 && negb n2) 0 0
      else normalise (z <? 0)%Z (Z.abs_N z) e0
  end.

(** [x.times(y)]: exact; 0 * Infinity is NaN; the sign is the product of
    the signs, also for a zero product. *)
Definition times (x y : BigNumber) : BigNumber :=
  match x, y with
  | NaN, _ | _, NaN => NaN
  | Infinity a, Infinity b => Infinity (xorb a b)
  | Infinity a, Finite b c _ =>
      if (c =? 0)%N then NaN else Infinity (xorb a b)
  | Finite a c _, Infinity b =>
      if (c =? 0)%N then NaN else Infinity (xorb a b)
  | Finite n1 c1 e1, Finite n2 c2 e2 =>
      normalise (xorb n1 n2) (c1 * c2) (e1 + e2)
  end.

(** DECIMAL_PLACES and ROUNDING_MODE are left at the library's defaults:
    20 places, ROUND_HALF_UP (ties away from zero). *)
Definition DECIMAL_PLACES : Z := 20.

Definition pow10 (k : Z) : Z := (10 ^ Z.max 0 k)%Z.

(** The magnitude [c1*10^e1 / (c2*10^e2)] in units of [10^-DECIMAL_PLACES],
    rounded half up. *)
Definition quotient (c1 : N) (e1 : Z) (c2 : N) (e2 : Z) : N :=
  let k := (e1 - e2 + DECIMAL_PLACES)%Z in
  let num := (Z.of_N c1 * pow10 k)%Z in
  let den := (Z.of_N c2 * pow10 (- k))%Z in
  Z.to_N ((2 * num + den) / (2 * den)).

(** [x.dividedBy(y)]: NaN for 0/0 and Infinity/Infinity, a signed infinity
    for a non-zero dividend over zero, otherwise the quotient rounded to
    DECIMAL_PLACES. *)
Definition dividedBy (x y : BigNumber) : BigNumber :=
  match x, y with
  | NaN, _ | _, NaN => NaN
  | Infinity _, Infinity _ => NaN
  | Infinity a, Finite b _ _ => Infinity (xorb a b)
  | Finite a _ _, Infinity b => Finite (xorb a b) 0 0
  | Finite n1 c1 e1, Finite n2 c2 e2 =>
      if (c2 =? 0)%N then
        if (c1 =? 0)%N then NaN else Infinity (xorb n1 n2)
      else if (c1 =? 0)%N then Finite (xorb n1 n2) 0 0
      else normalise (xorb n1 n2) (quotient c1 e1 c2 e2) (- DECIMAL_PLACES)
  end.

(** [BigNumber.min(x, y)] and [BigNumber.max(x, y)]: the library starts from
    the first argument, returns NaN as soon as an argument is NaN, and
    replaces the candidate when it is greater (less) than the next one. *)
Definition min (x y : BigNumber) : BigNumber :=
  if isNaN y then y else if isGreaterThan x y then y else x.
Definition max (x y : BigNumber) : BigNumber :=
  if isNaN y then y else if isLessThan x y then y else x.

(** The rational a finite BigNumber denotes (0 for the others). *)
Definition toQ (x : BigNumber) : Q :=
  match x with
  | Finite neg c e =>
      (if neg then -1 else 1) * inject_Z (Z.of_N c) * (10 # 1) ^ e
  | _ => 0
  end.

(** ROUND_HALF_UP to DECIMAL_PLACES on the rationals: what [dividedBy]
    makes of an exact quotient. *)
Definition roundHalfUp (q : Q) : Q :=
  (if Qle_bool 0 q then 1 else -1)
  * inject_Z (Qfloor (Qabs q * inject_Z (10 ^ DECIMAL_PLACES) + (1 # 2)))
  / inject_Z (10 ^ DECIMAL_PLACES).

(** ** Strings

    [x.toString()] and [new BigNumber(string)], base 10, with the library's
    defaults: exponential notation from 1e-7 down and from 1e+21 up. *)

Definition digitChar (d : N) : ascii := ascii_of_N (48 + d).

Definition isDigit (c : ascii) : bool :=
  let n := N_of_ascii c in (48 <=? n)%N && (n <=? 57)%N.

Definition digitOf (c : ascii) : option N :=
  if isDigit c then Some (N_of_ascii c - 48)%N else None.

(** The decimal digits of [n], most significant first; [fuel] bounds their
    number. *)
Fixpoint digits (fuel : nat) (n : N) : string :=
  match fuel with
  | O => EmptyString
  | S fuel' =>
      ((if (n <? 10)%N then EmptyString else digits fuel' (n / 10)%N)
       ++ String (digitChar (n mod 10)%N) EmptyString)%string
  end.

(** [coeffToString(c)]: the digits of the coefficient. *)
Definition coeffToString (c : N) : string := digits (S (N.to_nat (N.size c))) c.

Fixpoint zeros (k : nat) : string :=
  match k with
  | O => EmptyString
  | S k' => String "0" (zeros k')
  end.

Definition TO_EXP_NEG : Z := -7.
Definition TO_EXP_POS : Z := 21.

(** [toExponential(str, e)]: one digit, the others after a point, then the
    exponent with its sign. *)
Definition toExponential (str : string) (e : Z) : string :=
  ((match str with
    | String d (String _ _ as others) => String d (String "." others)
    | _ => str
    end)
   ++ (if (e <? 0)%Z then "e" else "e+")
   ++ (if (e <? 0)%Z then "-" else "") ++ coeffToString (Z.abs_N e))%string.

(** What [toExponential] writes after the e: the exponent with its sign. *)
Definition exponentText (e : Z) : string :=
  String (if (e <? 0)%Z then "-" else "+")%char (coeffToString (Z.abs_N e)).

(** [toFixedPoint(str, e, '0')]: zeros in front for a negative exponent,
    zeros behind or a point inside otherwise. *)
Definition toFixedPoint (str : string) (e : Z) : string :=
  let len := Z.of_nat (String.length str) in
  (if (e <? 0)%Z then "0." ++ zeros (Z.to_nat (- e - 1)) ++ str
   else if (len <? e + 1)%Z then str ++ zeros (Z.to_nat (e + 1 - len))
   else if (e + 1 <? len)%Z then
     JS.sliceTo (Z.to_nat (e + 1)) str ++ "." ++ JS.sliceFrom (Z.to_nat (e + 1)) str
   else str)%string.

(** [x.toString()]. The library's exponent is that of the first digit; a
    zero prints without its sign. *)
Definition toString (x : BigNumber) : string :=
  match x with
  | NaN => "NaN"
  | Infinity neg => if neg then "-Infinity" else "Infinity"
  | Finite neg c e =>
      if (c =? 0)%N then "0" else
      let str := coeffToString c in
      let e1 := (e + Z.of_nat (String.length str) - 1)%Z in
      let body :=
        if (e1 <=? TO_EXP_NEG)%Z || (TO_EXP_POS <=? e1)%Z
        then toExponential str e1 else toFixedPoint str e1 in
      if neg then String "-" body else body
  end.

(** The number a string of digits denotes, after [acc]; [None] when a
    character is not a digit. *)
Fixpoint readDigits (s : string) (acc : N) : option N :=
  match s with
  | EmptyString => Some acc
  | String c rest =>
      match digitOf c with
      | Some d => readDigits rest (acc * 10 + d)%N
      | None => None
      end
  end.

(** The part of [s] before the first character that satisfies [p], and the
    part after it when there is one. *)
Fixpoint breakAt (p : ascii -> bool) (s : string) : string * option string :=
  match s with
  | EmptyString => (EmptyString, None)
  | String c rest =>
      if p c then (EmptyString, Some rest)
      else let (before, after) := breakAt p rest in (String c before, after)
  end.

Definition isExponentMark (c : ascii) : bool := Ascii.eqb c "e" || Ascii.eqb c "E".
Definition isPoint (c : ascii) : bool := Ascii.eqb c ".".

(** An exponent: digits after an optional sign. *)
Definition readExponent (s : string) : option Z :=
  let (neg, ds) :=
    match s with
    | String c rest =>
        if Ascii.eqb c "-" then (true, rest)
        else if Ascii.eqb c "+" then (false, rest) else (false, s)
    | EmptyString => (false, s)
    end in
  match ds with
  | EmptyString => None
  | _ =>
      match readDigits ds 0 with
      | Some n => Some (if neg then - Z.of_N n else Z.of_N n)%Z
      | None => None
      end
  end.

(** The numerals of the library: digits with an optional point among them
    (at least one digit), then optionally e or E and an exponent. The result
    is the coefficient and the exponent of its last digit. *)
Definition readNumber (s : string) : option (N * Z) :=
  let (mantissa, exponent) := breakAt isExponentMark s in
  let (int, point) := breakAt isPoint mantissa in
  let fraction := match point with Some f => f | None => EmptyString end in
  match (int ++ fraction)%string with
  | EmptyString => None
  | ds =>
      match readDigits ds 0,
            match exponent with
            | Some x => readExponent x
            | None => Some 0%Z
            end with
      | Some c, Some x => Some (c, (x - Z.of_nat (String.length fraction))%Z)
      | _, _ => None
      end
  end.

(** [new BigNumber(s)] for a string: a decimal numeral, or Infinity or NaN
    with an optional minus sign; anything else is NaN, where the constructor
    does not throw (see [construct]). The prefixed binary, octal and
    hexadecimal literals of the library are not modelled. *)
Definition ofString (s : string) : BigNumber :=
  let (neg, body) :=
    match s with
    | String c rest => if Ascii.eqb c "-" then (true, rest) else (false, s)
    | EmptyString => (false, s)
    end in
  match readNumber body with
  | Some (c, e) => normalise neg c e
  | None => if String.eqb body "Infinity" then Infinity neg else NaN
  end.

(** The texts the library takes for an infinity or NaN: Infinity or NaN
    with an optional minus sign. *)
Definition isInfinityOrNaN (s : string) : bool :=
  let body :=
    match s with
    | String c rest => if Ascii.eqb c "-" then rest else s
    | EmptyString => s
    end in
  String.eqb body "Infinity" || String.eqb body "NaN".

(** [new BigNumber(s)] where it may throw. The library, which is not among
    the sources, throws on a text that is no number in its DEBUG mode, and
    in the versions that have no such mode; [strict] says whether it does.
    [None] is the error thrown. The numerals are those [ofString] reads:
    on another text the library takes for a number, it does not throw. *)
Definition construct (strict : bool) (s : string) : option BigNumber :=
  let x := ofString s in
  if strict && isNaN x && negb (isInfinityOrNaN s) then None else Some x.

(** ** Signs, integers and powers *)

(** [x.isNegative()]: the sign field is -1; true of -0, false of NaN. *)
Definition isNegative (x : BigNumber) : bool :=
  match x with
  | NaN => false
  | Infinity neg => neg
  | Finite neg _ _ => neg
  end.

(** [x.decimalPlaces()]: the number of digits after the decimal point, null
    ([None]) for NaN and the infinities. *)
Definition decimalPlaces (x : BigNumber) : option Z :=
  match x with
  | Finite neg c e =>
      match normalise neg c e with
      | Finite _ _ e' => Some (Z.max 0 (- e'))
      | _ => None
      end
  | _ => None
  end.

(** [x.integerValue()]: rounded to an integer with the ROUNDING_MODE,
    ROUND_HALF_UP; a zero keeps the sign. *)
Definition integerValue (x : BigNumber) : BigNumber :=
  match x with
  | Finite neg c e =>
      if (0 <=? e)%Z then x
      else normalise neg (Z.to_N ((2 * Z.of_N c + 10 ^ (- e)) / (2 * 10 ^ (- e)))) 0
  | _ => x
  end.

(** [x.pow(n)] for an integer [n] (POW_PRECISION is left at 0, unlimited):
    the product of [n] factors [x], and for a negative [n] one divided by
    the product of [-n] factors. *)
Definition pow (x : BigNumber) (n : Z) : BigNumber :=
  let product := Nat.iter (Z.abs_nat n) (fun y => times y x) (ofInt 1) in
  if (n <? 0)%Z then dividedBy (ofInt 1) product else product.

End BN.

(* ===================================================================== *)
(** * src/lib/Utils.ts *)
(* ===================================================================== *)

Module Utils.
Import BN.

(** [Utils.calculateNeededCollateral]. *)
Definition calculateNeededCollateral
    (priceFloor priceCap qtyMultiplier qty price : BigNumber) : BigNumber :=
  let maxLoss :=
    if isPositive qty then
      (* this qty is long, calculate max loss from entry price to floor *)
      if lte price priceFloor then ofInt 0 else minus price priceFloor
    else
      (* this qty is short, calculate max loss from entry price to ceiling *)
      if gte price priceCap then ofInt 0 else minus priceCap price in
  times (times maxLoss (absoluteValue qty)) qtyMultiplier.

(** The loss per unit the formula charges: to the floor for a long quantity,
    to the cap for a short one, never negative. *)
Definition maxLossQ (long : bool) (priceFloor priceCap price : Q) : Q :=
  if long then Qmax 0 (price - priceFloor) else Qmax 0 (priceCap - price).

(** [Utils.createStandardizedContractName]. *)
Definition createStandardizedContractName
    (referenceAssetName collateralTokenSymbol dataProvider : string)
    (expiration : BigNumber) (userText : string) : string :=
  JS.concat (JS.toUpperCase referenceAssetName)
    ["_"; JS.toUpperCase collateralTokenSymbol;
     "_"; JS.toUpperCase dataProvider;
     "_"; toString expiration;
     "_"; JS.toUpperCase userText]%string.

(** ParsedContractName of src/types, by the members the object literal of
    [parseStandardizedContractName] gives it. *)
Record ParsedContractName : Type := {
  referenceAsset : string;
  collateralToken : string;
  dataProvider : string;
  expirationTimeStamp : BigNumber;
  userText : string
}.

(** [Utils.parseStandardizedContractName]; [None] is null. [strict] says
    whether the constructor of the expiration throws on a text that is no
    number (see [BN.construct]): the catch clause returns null then. *)
Definition parseStandardizedContractName (strict : bool) (contractName : string)
  : option ParsedContractName :=
  let splitName := JS.split "_" contractName in
  if (List.length splitName <? 4)%nat then None else
  match construct strict (nth 3 splitName EmptyString) with
  | None => (* catch (err) *) None
  | Some expiration =>
      Some {| referenceAsset := nth 0 splitName EmptyString;
              collateralToken := nth 1 splitName EmptyString;
              dataProvider := nth 2 splitName EmptyString;
              expirationTimeStamp := expiration;
              userText := if (4 <? List.length splitName)%nat
                          then nth 4 splitName EmptyString
                          else EmptyString (* user text could be optional *) |}
  end.


(** [Utils.generatePseudoRandomSalt]. [randomNumber] is what
    [BigNumber.random(MAX_DIGITS_IN_UNSIGNED_256_INT)] returned, a number
    from 0 inclusive to 1 exclusive; the constant of src/constants.ts, which
    is not among the sources, is an argument. *)
Definition generatePseudoRandomSalt (MAX_DIGITS_IN_UNSIGNED_256_INT : Z)
    (randomNumber : BigNumber) : BigNumber :=
  let factor := pow (ofInt 10) (MAX_DIGITS_IN_UNSIGNED_256_INT - 1) in
  integerValue (times randomNumber factor).

End Utils.

(* ===================================================================== *)
(** * Orders, errors and the world outside the wrappers *)
(* ===================================================================== *)

Module Chain.
Import BN.

Definition address := string.

(** constants.NULL_ADDRESS: the taker of an order open to anyone. *)
Definition NULL_ADDRESS : address :=
  "0x0000000000000000000000000000000000000000"%string.

(** The enumeration MarketError of src/types, by the members the sources
    reject with. *)
Inductive MarketError : Type :=
| ContractAlreadySettled
| InvalidTaker
| OrderExpired
| OrderFilledOrCancelled
| BuySellMismatch
| InvalidSignature
| UserNotEnabledForContract
| InsufficientBalanceForTransfer
| InsufficientAllowanceForTransfer
| InsufficientCollateralBalance
| UserHasNoAssociatedPositions.

(** What a promise rejects with: [new Error(MarketError.X)] from the
    wrappers' own checks, or an error thrown by an assertion or raised by a
    call that left the process. *)
Inductive Rejection : Type :=
| Market (e : MarketError)
| Thrown (message : string).

Record ECSignature : Type := { v : Z; r : string; s : string }.

(** SignedOrder of @marketprotocol/types. *)
Record SignedOrder : Type := {
  contractAddress : address;
  expirationTimestamp : BigNumber;
  feeRecipient : address;
  maker : address;
  makerFee : BigNumber;
  orderQty : BigNumber;
  price : BigNumber;
  remainingQty : BigNumber;
  salt : BigNumber;
  taker : address;
  takerFee : BigNumber;
  ecSignature : ECSignature
}.

(** ITxParams: only [from] is read by the wrappers. *)
Record ITxParams : Type := { from : option address; gas : option Z }.

(** ContractSet: the typed contract objects of one market contract, each
    known by its address. *)
Record ContractSet : Type := {
  marketContract : address;
  marketCollateralPool : address;
  collateralToken : address
}.

(** Every call that leaves the process, as the trace records it. *)
Inductive Call : Type :=
| Get_isSettled (market : address)
| Get_PRICE_FLOOR (market : address)
| Get_PRICE_CAP (market : address)
| Get_QTY_MULTIPLIER (market : address)
| Get_MARKET_COLLATERAL_POOL_ADDRESS (market : address)
| Get_COLLATERAL_TOKEN_ADDRESS (market : address)
| Call_getQtyFilledOrCancelledFromOrder (market : address) (orderHash : string)
| Call_getUserAccountBalance (pool user : address)
| Call_balanceOf (token owner : address)
| Call_allowance (token owner spender : address)
| Call_isUserEnabledForContract (market user : address)
| Call_getAccounts
| Call_isValidSignature (order : SignedOrder) (orderHash : string)
| Call_createOrderHash (order : SignedOrder)
| Call_getTransaction (txHash : string)
| Send_tradeOrderTx (market : address) (order : SignedOrder) (fillQty : BigNumber)
    (txParams : ITxParams).

(** The collaborators the wrappers call into: the deployed contracts behind
    the typed contract objects, the web3 node, the signing library, the
    schema validator and the clock. A call answers with a value or fails
    with a message (a revert, a transport error). *)
Record World : Type := {
  (* MarketContract *)
  isSettled : address -> string + bool;
  PRICE_FLOOR : address -> string + BigNumber;
  PRICE_CAP : address -> string + BigNumber;
  QTY_MULTIPLIER : address -> string + BigNumber;
  MARKET_COLLATERAL_POOL_ADDRESS : address -> string + address;
  COLLATERAL_TOKEN_ADDRESS : address -> string + address;
  getQtyFilledOrCancelledFromOrder : address -> string -> string + BigNumber;
  tradeOrderTx : address -> SignedOrder -> BigNumber -> ITxParams -> string + string;
  (* MarketCollateralPool *)
  getUserAccountBalance : address -> address -> string + BigNumber;
  (* ERC20 *)
  balanceOf : address -> address -> string + BigNumber;
  allowance : address -> address -> address -> string + BigNumber;
  (* MarketToken: market.mktTokenContract *)
  mktTokenAddress : address;
  isUserEnabledForContract : address -> address -> string + bool;
  (* web3 *)
  getAccounts : string + list address;
  getTransactionBlockNumber : string -> string + Z;
  (* lib/Order and the OrderLib contract *)
  orderHash : SignedOrder -> string;
  createOrderHash : SignedOrder -> string + string;
  isValidSignature : SignedOrder -> string -> string + bool;
  (* schemas.SignedOrderSchema through SchemaValidator *)
  conformsToSignedOrderSchema : SignedOrder -> bool;
  (* Date.now(), in milliseconds *)
  dateNow : N
}.

(** The wrapper's own mutable state: the contract objects it has created,
    kept in dictionaries keyed by address. *)
Record WrapperState : Type := {
  _contractSetByMarketContractAddress : list (address * ContractSet);
  _contractSetByMarketCollateralPoolAddress : list (address * ContractSet);
  _tokenContractsByAddress : list (address * address)
}.

(** The dictionaries as the constructor leaves them. *)
Definition newWrapper : WrapperState :=
  {| _contractSetByMarketContractAddress := [];
     _contractSetByMarketCollateralPoolAddress := [];
     _tokenContractsByAddress := [] |}.

(** ** The monad of asynchronous wrapper code

    A computation reads the world, threads the wrapper state, appends the
    calls it makes and resolves with a value or rejects. *)
Record Outcome (A : Type) : Type := {
  calls : list Call;
  state : WrapperState;
  result : Rejection + A
}.
Arguments calls {A} _.
Arguments state {A} _.
Arguments result {A} _.

Definition M (A : Type) : Type := World -> WrapperState -> Outcome A.

Definition ret {A} (a : A) : M A :=
  fun _ st => {| calls := []; state := st; result := inr a |}.

Definition reject {A} (e : Rejection) : M A :=
  fun _ st => {| calls := []; state := st; result := inl e |}.

Definition bind {A B} (m : M A) (f : A -> M B) : M B :=
  fun w st =>
    let o := m w st in
    match result o with
    | inl e => {| calls := calls o; state := state o; result := inl e |}
    | inr a =>
        let o' := f a w (state o) in
        {| calls := calls o ++ calls o'; state := state o'; result := result o' |}
    end.

Notation "x <- m ;; k" := (bind m (fun x => k))
  (at level 61, m at next level, right associativity).
Notation "m ;;; k" := (bind m (fun _ => k))
  (at level 61, right associativity).

(** [await] of one call into the world. *)
Definition await {A} (c : Call) (answer : World -> string + A) : M A :=
  fun w st =>
    {| calls := [c]; state := st;
       result := match answer w with
                 | inl msg => inl (Thrown msg)
                 | inr a => inr a
                 end |}.

Definition ask {A} (f : World -> A) : M A :=
  fun w st => {| calls := []; state := st; result := inr (f w) |}.

Definition getState : M WrapperState :=
  fun _ st => {| calls := []; state := st; result := inr st |}.

Definition putState (st' : WrapperState) : M unit :=
  fun _ _ => {| calls := []; state := st'; result := inr tt |}.

(** [return Promise.reject(new Error(MarketError.X))]. *)
Definition rejectWith {A} (e : MarketError) : M A := reject (Market e).

End Chain.

(* ===================================================================== *)
(** * src/assert.ts *)
(* ===================================================================== *)

Module Assert.
Import Chain.

(** [assert.assert(condition, message)]: throws [new Error(message)]. *)
Definition assert (condition : bool) (message : string) : M unit :=
  if condition then ret tt else reject (Thrown message).

Definition isHexDigit (c : ascii) : bool :=
  let n := nat_of_ascii c in
  ((48 <=? n) && (n <=? 57) || (65 <=? n) && (n <=? 70)
   || (97 <=? n) && (n <=? 102))%nat.

(** The test [/^(0x){1}[0-9a-fA-F]{40}$/i]. *)
Definition matchesETHAddress (address : string) : bool :=
  match address with
  | String z (String x digits) =>
      Ascii.eqb z "0" && (Ascii.eqb x "x" || Ascii.eqb x "X")
      && (String.length digits =? 40)%nat
      && forallb isHexDigit (list_ascii_of_string digits)
  | _ => false
  end.

Definition isETHAddressHex (variableName address : string) : M unit :=
  assert (matchesETHAddress address)
    ("Expected " ++ variableName ++ " to be an ETHAddressHex, encountered "
     ++ address)%string.

(** [assert.isSenderAddressAsync]: the address is well formed and one of the
    accounts of the web3 node. *)
Definition isSenderAddressAsync (variableName senderAddress : string) : M unit :=
  isETHAddressHex variableName senderAddress ;;;
  accounts <- await Call_getAccounts getAccounts ;;
  assert (JS.includes accounts senderAddress)
    ("Specified " ++ variableName ++ " " ++ senderAddress
     ++ " isn't available through the supplied web3")%string.

(** [assert.isSchemaValid('signedOrder', signedOrder, schemas.SignedOrderSchema)];
    the message also prints the value and the validation errors. *)
Definition isSchemaValid (signedOrder : SignedOrder) : M unit :=
  valid <- ask (fun w => conformsToSignedOrderSchema w signedOrder) ;;
  assert valid "Expected signedOrder to conform to schema /SignedOrder"%string.


(** [assert.isValidBaseUnitAmount]. Both messages end with the text of
    [value.toNumber()]; the conversion to a double and its printing are not
    modelled, the text is the argument [found]. *)
Definition isValidBaseUnitAmount (variableName : string) (value : BN.BigNumber)
    (found : string) : M unit :=
  let isNotNegative := negb (BN.isNegative value) in
  assert isNotNegative
    (variableName ++ " cannot be a negative number, found value: " ++ found)%string ;;;
  let notHaveDecimal :=
    match BN.decimalPlaces value with
    | Some places => (places =? 0)%Z
    | None => false
    end in
  assert notHaveDecimal
    (variableName ++ " should be in baseUnits (no decimals), found value: "
     ++ found)%string.

End Assert.

(* ===================================================================== *)
(** * src/contract_wrappers/ContractWrapper.ts *)
(* ===================================================================== *)

Module ContractWrapper.
Import BN Chain.

(** Modelled from the spec: src/lib/OrderTransactionInfo.ts is not among the
    sources; the object is taken as the arguments of its constructor: the
    market contract, the order and the transaction hash, and the block
    number where the caller passes one (spec 4.4, step 10). *)
Record OrderTransactionInfo : Type := {
  infoMarketContract : address;
  infoOrder : SignedOrder;
  txHash : string;
  blockNumber : option Z
}.

(** [Utils.getCurrentUnixTimestampSec()]: [new BigNumber(Date.now() / 1000)]. *)
Definition getCurrentUnixTimestampSec : M BigNumber :=
  ask (fun w => normalise false (dateNow w) (-3)).

(** [getERC20TokenContractAsync]: the ERC20 object for a token, created with
    the address as given the first time and found by its lower-cased address
    afterwards. *)
Definition getERC20TokenContractAsync (tokenAddress : address) : M address :=
  let normalizedTokenAddress := JS.toLowerCase tokenAddress in
  st <- getState ;;
  match JS.lookup normalizedTokenAddress (_tokenContractsByAddress st) with
  | Some tokenContract => ret tokenContract
  | None =>
      putState
        {| _contractSetByMarketContractAddress :=
             _contractSetByMarketContractAddress st;
           _contractSetByMarketCollateralPoolAddress :=
             _contractSetByMarketCollateralPoolAddress st;
           _tokenContractsByAddress :=
             JS.assign normalizedTokenAddress tokenAddress
               (_tokenContractsByAddress st) |} ;;;
      ret tokenAddress
  end.

(** [createNewMarketContractSetFromMarketContractAddressAsync]. *)
Definition createNewMarketContractSetFromMarketContractAddressAsync
    (marketContractAddress : address) : M ContractSet :=
  poolAddress <- await (Get_MARKET_COLLATERAL_POOL_ADDRESS marketContractAddress)
                   (fun w => MARKET_COLLATERAL_POOL_ADDRESS w marketContractAddress) ;;
  tokenAddress <- await (Get_COLLATERAL_TOKEN_ADDRESS marketContractAddress)
                    (fun w => COLLATERAL_TOKEN_ADDRESS w marketContractAddress) ;;
  erc20 <- getERC20TokenContractAsync tokenAddress ;;
  ret {| marketContract := marketContractAddress;
         marketCollateralPool := poolAddress;
         collateralToken := erc20 |}.

(** [_getContractSetByMarketContractAddressAsync]: retrieval or creation of
    the contract set of a market contract. *)
Definition _getContractSetByMarketContractAddressAsync
    (marketContractAddress : address) : M ContractSet :=
  let normalizedMarketAddress := JS.toLowerCase marketContractAddress in
  st <- getState ;;
  match JS.lookup normalizedMarketAddress (_contractSetByMarketContractAddress st) with
  | Some contractSetWrapper => ret contractSetWrapper
  | None =>
      contractSetWrapper <-
        createNewMarketContractSetFromMarketContractAddressAsync marketContractAddress ;;
      st' <- getState ;;
      putState
        {| _contractSetByMarketContractAddress :=
             JS.assign normalizedMarketAddress contractSetWrapper
               (_contractSetByMarketContractAddress st');
           _contractSetByMarketCollateralPoolAddress :=
             JS.assign (marketCollateralPool contractSetWrapper) contractSetWrapper
               (_contractSetByMarketCollateralPoolAddress st');
           _tokenContractsByAddress := _tokenContractsByAddress st' |} ;;;
      ret contractSetWrapper
  end.

(** [getBalanceAsync]: an owner's ERC20 token balance. *)
Definition getBalanceAsync (tokenAddress ownerAddress : address) : M BigNumber :=
  Assert.isETHAddressHex "ownerAddress" ownerAddress ;;;
  Assert.isETHAddressHex "tokenAddress" tokenAddress ;;;
  let normalizedTokenAddress := JS.toLowerCase tokenAddress in
  tokenContract <- getERC20TokenContractAsync normalizedTokenAddress ;;
  await (Call_balanceOf tokenContract ownerAddress)
    (fun w => balanceOf w tokenContract ownerAddress).

(** [getAllowanceAsync]: the owner's allowance set to the spender. *)
Definition getAllowanceAsync (tokenAddress ownerAddress spenderAddress : address)
  : M BigNumber :=
  Assert.isETHAddressHex "ownerAddress" ownerAddress ;;;
  Assert.isETHAddressHex "tokenAddress" tokenAddress ;;;
  Assert.isETHAddressHex "spenderAddress" spenderAddress ;;;
  Assert.isSenderAddressAsync "ownerAddress" ownerAddress ;;;
  tokenContract <- getERC20TokenContractAsync tokenAddress ;;
  await (Call_allowance tokenContract ownerAddress spenderAddress)
    (fun w => allowance w tokenContract ownerAddress spenderAddress).

(** [getUserUnallocatedCollateralBalanceAsync]. *)
Definition getUserUnallocatedCollateralBalanceAsync
    (marketContractAddress userAddress : address) : M BigNumber :=
  contractSetWrapper <- _getContractSetByMarketContractAddressAsync marketContractAddress ;;
  await (Call_getUserAccountBalance (marketCollateralPool contractSetWrapper) userAddress)
    (fun w => getUserAccountBalance w (marketCollateralPool contractSetWrapper) userAddress).

(** [calculateNeededCollateralAsync]: the contract's floor, cap and
    multiplier are awaited in this order. *)
Definition calculateNeededCollateralAsync
    (marketContractAddress : address) (qty price : BigNumber) : M BigNumber :=
  contractSetWrapper <- _getContractSetByMarketContractAddressAsync marketContractAddress ;;
  let market := marketContract contractSetWrapper in
  priceFloor <- await (Get_PRICE_FLOOR market) (fun w => PRICE_FLOOR w market) ;;
  priceCap <- await (Get_PRICE_CAP market) (fun w => PRICE_CAP w market) ;;
  qtyMultiplier <- await (Get_QTY_MULTIPLIER market) (fun w => QTY_MULTIPLIER w market) ;;
  ret (Utils.calculateNeededCollateral priceFloor priceCap qtyMultiplier qty price).

(** [getQtyFilledOrCancelledFromOrderAsync]. *)
Definition getQtyFilledOrCancelledFromOrderAsync
    (marketContractAddress : address) (orderHash : string) : M BigNumber :=
  contractSetWrapper <- _getContractSetByMarketContractAddressAsync marketContractAddress ;;
  let market := marketContract contractSetWrapper in
  await (Call_getQtyFilledOrCancelledFromOrder market orderHash)
    (fun w => getQtyFilledOrCancelledFromOrder w market orderHash).

(** [txParams.from ? txParams.from : constants.NULL_ADDRESS]: an absent or
    empty sender counts as none. *)
Definition senderOf (txParams : ITxParams) : address :=
  match from txParams with
  | Some sender => if String.eqb sender "" then NULL_ADDRESS else sender
  | None => NULL_ADDRESS
  end.

(** [tradeOrderAsync(orderLib, signedOrder, fillQty, txParams)]; the OrderLib
    contract is the one the world verifies signatures with. *)
Definition tradeOrderAsync (signedOrder : SignedOrder) (fillQty : BigNumber)
    (txParams : ITxParams) : M OrderTransactionInfo :=
  Assert.isSchemaValid signedOrder ;;;
  contractSetWrapper <-
    _getContractSetByMarketContractAddressAsync (contractAddress signedOrder) ;;
  let market := marketContract contractSetWrapper in
  isContractSettled <- await (Get_isSettled market) (fun w => isSettled w market) ;;
  if isContractSettled : bool then rejectWith ContractAlreadySettled else
  let maker := maker signedOrder in
  let taker := senderOf txParams in
  if negb (String.eqb (Chain.taker signedOrder) NULL_ADDRESS)
     && negb (String.eqb (Chain.taker signedOrder) taker)
  then rejectWith InvalidTaker else
  now <- getCurrentUnixTimestampSec ;;
  if isLessThan (expirationTimestamp signedOrder) now
  then rejectWith OrderExpired else
  if isEqualTo (remainingQty signedOrder) (ofInt 0)
  then rejectWith OrderFilledOrCancelled else
  if negb (Bool.eqb (isPositive (orderQty signedOrder)) (isPositive fillQty))
  then rejectWith BuySellMismatch else
  orderHash <- ask (fun w => orderHash w signedOrder) ;;
  validSignature <- await (Call_isValidSignature signedOrder orderHash)
                      (fun w => isValidSignature w signedOrder orderHash) ;;
  if negb validSignature then rejectWith InvalidSignature else
  mkt <- ask mktTokenAddress ;;
  isMakerEnabled <-
    await (Call_isUserEnabledForContract (contractAddress signedOrder) maker)
      (fun w => isUserEnabledForContract w (contractAddress signedOrder) maker) ;;
  isTakerEnabled <-
    await (Call_isUserEnabledForContract (contractAddress signedOrder) taker)
      (fun w => isUserEnabledForContract w (contractAddress signedOrder) taker) ;;
  if negb isMakerEnabled || negb isTakerEnabled
  then rejectWith UserNotEnabledForContract else
  makerMktBalance <- getBalanceAsync mkt maker ;;
  if isLessThan makerMktBalance (makerFee signedOrder)
  then rejectWith InsufficientBalanceForTransfer else
  makersMktAllowance <- getAllowanceAsync mkt maker (feeRecipient signedOrder) ;;
  if isLessThan makersMktAllowance (makerFee signedOrder)
  then rejectWith InsufficientAllowanceForTransfer else
  takerMktBalance <- getBalanceAsync mkt taker ;;
  if isLessThan takerMktBalance (takerFee signedOrder)
  then rejectWith InsufficientBalanceForTransfer else
  takersMktAllowance <- getAllowanceAsync mkt taker (feeRecipient signedOrder) ;;
  if isLessThan takersMktAllowance (takerFee signedOrder)
  then rejectWith InsufficientAllowanceForTransfer else
  makerCollateralBalance <-
    getUserUnallocatedCollateralBalanceAsync (contractAddress signedOrder) maker ;;
  takerCollateralBalance <-
    getUserUnallocatedCollateralBalanceAsync (contractAddress signedOrder) taker ;;
  neededCollateralMaker <-
    calculateNeededCollateralAsync (contractAddress signedOrder) fillQty
      (price signedOrder) ;;
  neededCollateralTaker <-
    calculateNeededCollateralAsync (contractAddress signedOrder)
      (* opposite direction of the order sign *)
      (times fillQty (ofInt (-1))) (price signedOrder) ;;
  if isLessThan makerCollateralBalance neededCollateralMaker
  then rejectWith InsufficientCollateralBalance else
  if isLessThan takerCollateralBalance neededCollateralTaker
  then rejectWith InsufficientCollateralBalance else
  txHash <- await (Send_tradeOrderTx market signedOrder fillQty txParams)
              (fun w => tradeOrderTx w market signedOrder fillQty txParams) ;;
  ret {| infoMarketContract := market; infoOrder := signedOrder;
         txHash := txHash; blockNumber := None |}.

End ContractWrapper.

(* ===================================================================== *)
(** * src/contract_wrappers/MarketProtocolContractWrapper.ts *)
(* ===================================================================== *)

Module MarketProtocolContractWrapper.
Import BN Chain.

(** The earlier wrapper keeps its contract sets in dictionaries of the same
    shape ([_marketProtocolSetByMarketContractAddress], ...) and finds or
    creates a set by the same steps, so the state and the retrieval are the
    ones of [ContractWrapper]. *)
Definition _getContractSetByMarketContractAddressAsync
  : address -> M ContractSet :=
  ContractWrapper._getContractSetByMarketContractAddressAsync.

(** Modelled from the spec: ERC20TokenContractWrapper.ts is not among the
    sources; its [getBalanceAsync] and [getAllowanceAsync] are taken to be the
    methods ContractWrapper has under these names (spec 6: account token
    balance, account token allowance for a spender). *)
Definition erc20_getBalanceAsync : address -> address -> M BigNumber :=
  ContractWrapper.getBalanceAsync.
Definition erc20_getAllowanceAsync : address -> address -> address -> M BigNumber :=
  ContractWrapper.getAllowanceAsync.

(** [getUserAccountBalanceAsync]. *)
Definition getUserAccountBalanceAsync
    (marketContractAddress userAddress : address) : M BigNumber :=
  contractSetWrapper <- _getContractSetByMarketContractAddressAsync marketContractAddress ;;
  await (Call_getUserAccountBalance (marketCollateralPool contractSetWrapper) userAddress)
    (fun w => getUserAccountBalance w (marketCollateralPool contractSetWrapper) userAddress).

(** [calculateNeededCollateralAsync]. *)
Definition calculateNeededCollateralAsync
    (marketContractAddress : address) (qty price : BigNumber) : M BigNumber :=
  contractSetWrapper <- _getContractSetByMarketContractAddressAsync marketContractAddress ;;
  let market := marketContract contractSetWrapper in
  priceFloor <- await (Get_PRICE_FLOOR market) (fun w => PRICE_FLOOR w market) ;;
  priceCap <- await (Get_PRICE_CAP market) (fun w => PRICE_CAP w market) ;;
  qtyMultiplier <- await (Get_QTY_MULTIPLIER market) (fun w => QTY_MULTIPLIER w market) ;;
  ret (Utils.calculateNeededCollateral priceFloor priceCap qtyMultiplier qty price).

(** [tradeOrderAsync(mktTokenContract, orderLibAddress, signedOrder, fillQty,
    txParams)]: the MarketToken contract object is given by its address, and
    the OrderLib at [orderLibAddress] is the one the world hashes and
    verifies with. *)
Definition tradeOrderAsync (mktTokenContract orderLibAddress : address)
    (signedOrder : SignedOrder) (fillQty : BigNumber) (txParams : ITxParams)
  : M ContractWrapper.OrderTransactionInfo :=
  Assert.isETHAddressHex "orderLibAddress" orderLibAddress ;;;
  contractSetWrapper <-
    _getContractSetByMarketContractAddressAsync (contractAddress signedOrder) ;;
  let market := marketContract contractSetWrapper in
  isContractSettled <- await (Get_isSettled market) (fun w => isSettled w market) ;;
  if isContractSettled : bool then rejectWith ContractAlreadySettled else
  let maker := maker signedOrder in
  let taker := ContractWrapper.senderOf txParams in
  if negb (String.eqb (Chain.taker signedOrder) NULL_ADDRESS)
     && negb (String.eqb (Chain.taker signedOrder) taker)
  then rejectWith InvalidTaker else
  now <- ContractWrapper.getCurrentUnixTimestampSec ;;
  if isLessThan (expirationTimestamp signedOrder) now
  then rejectWith OrderExpired else
  if isEqualTo (remainingQty signedOrder) (ofInt 0)
  then rejectWith OrderFilledOrCancelled else
  if negb (Bool.eqb (isPositive (orderQty signedOrder)) (isPositive fillQty))
  then rejectWith BuySellMismatch else
  orderHash <- await (Call_createOrderHash signedOrder)
                 (fun w => createOrderHash w signedOrder) ;;
  validSignature <- await (Call_isValidSignature signedOrder orderHash)
                      (fun w => isValidSignature w signedOrder orderHash) ;;
  if negb validSignature then rejectWith InvalidSignature else
  isMakerEnabled <-
    await (Call_isUserEnabledForContract (contractAddress signedOrder) maker)
      (fun w => isUserEnabledForContract w (contractAddress signedOrder) maker) ;;
  isTakerEnabled <-
    await (Call_isUserEnabledForContract (contractAddress signedOrder) taker)
      (fun w => isUserEnabledForContract w (contractAddress signedOrder) taker) ;;
  if negb isMakerEnabled || negb isTakerEnabled
  then rejectWith UserNotEnabledForContract else
  makerMktBalance <- erc20_getBalanceAsync mktTokenContract maker ;;
  if isLessThan makerMktBalance (makerFee signedOrder)
  then rejectWith InsufficientBalanceForTransfer else
  makersMktAllowance <-
    erc20_getAllowanceAsync mktTokenContract maker (feeRecipient signedOrder) ;;
  if isLessThan makersMktAllowance (makerFee signedOrder)
  then rejectWith InsufficientAllowanceForTransfer else
  takerMktBalance <- erc20_getBalanceAsync mktTokenContract taker ;;
  if isLessThan takerMktBalance (takerFee signedOrder)
  then rejectWith InsufficientBalanceForTransfer else
  takersMktAllowance <-
    erc20_getAllowanceAsync mktTokenContract taker (feeRecipient signedOrder) ;;
  if isLessThan takersMktAllowance (takerFee signedOrder)
  then rejectWith InsufficientAllowanceForTransfer else
  makerCollateralBalance <-
    getUserAccountBalanceAsync (contractAddress signedOrder) maker ;;
  takerCollateralBalance <-
    getUserAccountBalanceAsync (contractAddress signedOrder) taker ;;
  neededCollateralMaker <-
    calculateNeededCollateralAsync (contractAddress signedOrder) fillQty
      (price signedOrder) ;;
  neededCollateralTaker <-
    calculateNeededCollateralAsync (contractAddress signedOrder)
      (* opposite direction of the order sign *)
      (times fillQty (ofInt (-1))) (price signedOrder) ;;
  if isLessThan makerCollateralBalance neededCollateralMaker
  then rejectWith InsufficientCollateralBalance else
  if isLessThan takerCollateralBalance neededCollateralTaker
  then rejectWith InsufficientCollateralBalance else
  txHash <- await (Send_tradeOrderTx market signedOrder fillQty txParams)
              (fun w => tradeOrderTx w market signedOrder fillQty txParams) ;;
  blockNumber <- await (Call_getTransaction txHash)
                   (fun w => getTransactionBlockNumber w txHash) ;;
  ret {| ContractWrapper.infoMarketContract := market;
         ContractWrapper.infoOrder := signedOrder;
         ContractWrapper.txHash := txHash;
         ContractWrapper.blockNumber := Some blockNumber |}.

End MarketProtocolContractWrapper.

(* ===================================================================== *)
(** * The Market facade *)
(* ===================================================================== *)

Module Market.
Import BN Chain.

(** Modelled from the spec: src/Market.ts is not among the sources. The
    calculator reaches the chain through the Market object it is given;
    following spec 4.3 ("a reference to the contract-call interface") each of
    the three methods it calls hands over to the method of the same name of
    [market.marketContractWrapper]. *)
Definition getUserUnallocatedCollateralBalanceAsync
    (marketContractAddress userAddress : address) : M BigNumber :=
  ContractWrapper.getUserUnallocatedCollateralBalanceAsync
    marketContractAddress userAddress.

Definition calculateNeededCollateralAsync
    (marketContractAddress : address) (qty price : BigNumber) : M BigNumber :=
  ContractWrapper.calculateNeededCollateralAsync marketContractAddress qty price.

Definition getQtyFilledOrCancelledFromOrderAsync
    (marketContractAddress : address) (orderHash : string) : M BigNumber :=
  ContractWrapper.getQtyFilledOrCancelledFromOrderAsync
    marketContractAddress orderHash.

End Market.

(* ===================================================================== *)
(** * RemainingFillableCalculator (with src/lib/Utils.ts) *)
(* ===================================================================== *)

Module RemainingFillableCalculator.
Import BN Chain.

(** The members of the class; the Market object is the world the monad
    reads. *)
Record Calculator : Type := {
  _collateralPoolAddress : address;
  _collateralTokenAddress : address;
  _signedOrder : SignedOrder;
  _signedOrderHash : string
}.

Section Methods.
Variable this : Calculator.

Definition _getAvailableFeeFunds (accountAddress : address) : M BigNumber :=
  mkt <- ask mktTokenAddress ;;
  allowance <- ContractWrapper.getAllowanceAsync mkt accountAddress
                 (feeRecipient (_signedOrder this)) ;;
  if (String.eqb accountAddress (maker (_signedOrder this))
      && isLessThan allowance (makerFee (_signedOrder this)))
     || (String.eqb accountAddress (taker (_signedOrder this))
         && isLessThan allowance (takerFee (_signedOrder this)))
  then rejectWith InsufficientAllowanceForTransfer else
  funds <- ContractWrapper.getBalanceAsync mkt accountAddress ;;
  ret funds.

(** [balance || new BigNumber(0)]: a BigNumber object is truthy, so the
    balance the pool returns is kept, whatever its value. *)
Definition _getAvailableCollateral (accountAddress : address) : M BigNumber :=
  balance <- Market.getUserUnallocatedCollateralBalanceAsync
               (contractAddress (_signedOrder this)) accountAddress ;;
  ret balance.

Definition _hasMakerSufficientFundsForFee : M bool :=
  makerMktBalance <- _getAvailableFeeFunds (maker (_signedOrder this)) ;;
  let makerFeeNeeded := makerFee (_signedOrder this) in
  ret (gte makerMktBalance makerFeeNeeded).

Definition _hasTakerSufficientFundsForFee : M bool :=
  takerMktBalance <- _getAvailableFeeFunds (taker (_signedOrder this)) ;;
  let takerFeeNeeded := takerFee (_signedOrder this) in
  ret (gte takerMktBalance takerFeeNeeded).

Definition computeRemainingMakerFillable : M BigNumber :=
  hasAvailableFeeFunds <- _hasMakerSufficientFundsForFee ;;
  if negb hasAvailableFeeFunds
  then rejectWith InsufficientBalanceForTransfer else
  makerAvailableCollateral <- _getAvailableCollateral (maker (_signedOrder this)) ;;
  neededCollateral <-
    Market.calculateNeededCollateralAsync (contractAddress (_signedOrder this))
      (orderQty (_signedOrder this)) (price (_signedOrder this)) ;;
  alreadyFilledOrCancelled <-
    Market.getQtyFilledOrCancelledFromOrderAsync
      (contractAddress (_signedOrder this)) (_signedOrderHash this) ;;
  let remainingToFill := minus (orderQty (_signedOrder this)) alreadyFilledOrCancelled in
  let fillableQty :=
    times (dividedBy makerAvailableCollateral neededCollateral)
      (orderQty (_signedOrder this)) in
  ret (min fillableQty remainingToFill).

Definition computeRemainingTakerFillable : M BigNumber :=
  makerFillable <- computeRemainingMakerFillable ;;
  if String.eqb (taker (_signedOrder this)) NULL_ADDRESS
  then (* open ended order so makers fillable quantity *) ret makerFillable else
  takerAvailableCollateral <- _getAvailableCollateral (taker (_signedOrder this)) ;;
  hasAvailableFeeFunds <- _hasTakerSufficientFundsForFee ;;
  if negb hasAvailableFeeFunds
  then rejectWith InsufficientBalanceForTransfer else
  neededCollateral <-
    Market.calculateNeededCollateralAsync (contractAddress (_signedOrder this))
      (orderQty (_signedOrder this)) (price (_signedOrder this)) ;;
  let takerFillable :=
    times (dividedBy takerAvailableCollateral neededCollateral)
      (orderQty (_signedOrder this)) in
  ret (min makerFillable takerFillable).

End Methods.

End RemainingFillableCalculator.

(* ===================================================================== *)
(** * Chains that answer, and what is said of a fill *)
(* ===================================================================== *)

Module Ledgers.
Import BN Chain.

(** ** A chain that answers every call *)

Record Ledger : Type := {
  settled : address -> bool;
  priceFloor : address -> BigNumber;
  priceCap : address -> BigNumber;
  qtyMultiplier : address -> BigNumber;
  collateralPoolOf : address -> address;
  collateralTokenOf : address -> address;
  qtyFilledOrCancelled : address -> string -> BigNumber;
  userAccountBalance : address -> address -> BigNumber;
  tokenBalance : address -> address -> BigNumber;
  tokenAllowance : address -> address -> address -> BigNumber;
  mktToken : address;
  userEnabled : address -> address -> bool;
  accounts : list address;
  blockNumberOf : string -> Z;
  hashOf : SignedOrder -> string;
  signatureValid : SignedOrder -> string -> bool;
  schemaValid : SignedOrder -> bool;
  transactionHash : address -> SignedOrder -> BigNumber -> ITxParams -> string;
  clock : N
}.

Definition answering (l : Ledger) : World :=
  {| isSettled := fun a => inr (settled l a);
     PRICE_FLOOR := fun a => inr (priceFloor l a);
     PRICE_CAP := fun a => inr (priceCap l a);
     QTY_MULTIPLIER := fun a => inr (qtyMultiplier l a);
     MARKET_COLLATERAL_POOL_ADDRESS := fun a => inr (collateralPoolOf l a);
     COLLATERAL_TOKEN_ADDRESS := fun a => inr (collateralTokenOf l a);
     getQtyFilledOrCancelledFromOrder := fun a h => inr (qtyFilledOrCancelled l a h);
     tradeOrderTx := fun a o q t => inr (transactionHash l a o q t);
     getUserAccountBalance := fun p u => inr (userAccountBalance l p u);
     balanceOf := fun t o => inr (tokenBalance l t o);
     allowance := fun t o s => inr (tokenAllowance l t o s);
     mktTokenAddress := mktToken l;
     isUserEnabledForContract := fun a u => inr (userEnabled l a u);
     getAccounts := inr (accounts l);
     getTransactionBlockNumber := fun h => inr (blockNumberOf l h);
     orderHash := hashOf l;
     createOrderHash := fun o => inr (hashOf l o);
     isValidSignature := fun o h => inr (signatureValid l o h);
     conformsToSignedOrderSchema := schemaValid l;
     dateNow := clock l |}.

(** ** Which contract objects the wrapper ends up talking to *)

(** The ERC20 object [getERC20TokenContractAsync] returns in a state. *)
Definition tokenContractIn (st : WrapperState) (tokenAddress : address) : address :=
  match JS.lookup (JS.toLowerCase tokenAddress) (_tokenContractsByAddress st) with
  | Some tokenContract => tokenContract
  | None => tokenAddress
  end.

(** The state it leaves. *)
Definition withTokenContract (st : WrapperState) (tokenAddress : address)
  : WrapperState :=
  match JS.lookup (JS.toLowerCase tokenAddress) (_tokenContractsByAddress st) with
  | Some _ => st
  | None =>
      {| _contractSetByMarketContractAddress := _contractSetByMarketContractAddress st;
         _contractSetByMarketCollateralPoolAddress :=
           _contractSetByMarketCollateralPoolAddress st;
         _tokenContractsByAddress :=
           JS.assign (JS.toLowerCase tokenAddress) tokenAddress
             (_tokenContractsByAddress st) |}
  end.

(** The contract set [_getContractSetByMarketContractAddressAsync] returns in
    a state, on a chain that answers. *)
Definition contractSetIn (l : Ledger) (st : WrapperState) (a : address) : ContractSet :=
  match JS.lookup (JS.toLowerCase a) (_contractSetByMarketContractAddress st) with
  | Some contractSet => contractSet
  | None =>
      {| marketContract := a;
         marketCollateralPool := collateralPoolOf l a;
         collateralToken := tokenContractIn st (collateralTokenOf l a) |}
  end.

Definition withContractSet (l : Ledger) (st : WrapperState) (a : address)
  : WrapperState :=
  match JS.lookup (JS.toLowerCase a) (_contractSetByMarketContractAddress st) with
  | Some _ => st
  | None =>
      let st' := withTokenContract st (collateralTokenOf l a) in
      {| _contractSetByMarketContractAddress :=
           JS.assign (JS.toLowerCase a) (contractSetIn l st a)
             (_contractSetByMarketContractAddress st');
         _contractSetByMarketCollateralPoolAddress :=
           JS.assign (collateralPoolOf l a) (contractSetIn l st a)
             (_contractSetByMarketCollateralPoolAddress st');
         _tokenContractsByAddress := _tokenContractsByAddress st' |}
  end.

(** The calls the retrieval makes: none for a set already created. *)
Definition contractSetCalls (st : WrapperState) (a : address) : list Call :=
  match JS.lookup (JS.toLowerCase a) (_contractSetByMarketContractAddress st) with
  | Some _ => []
  | None => [Get_MARKET_COLLATERAL_POOL_ADDRESS a; Get_COLLATERAL_TOKEN_ADDRESS a]
  end.

(** ** The preconditions of a fill, in the order of spec 4.4 *)





(** ** Calls to the submit interface *)

Definition isSubmission (c : Call) : bool :=
  match c with Send_tradeOrderTx _ _ _ _ => true | _ => false end.

(** The number of calls to the submit interface in a trace. *)
Definition submissions (cs : list Call) : nat := List.length (filter isSubmission cs).

(** A computation that never submits. *)
Definition silent {A} (m : M A) : Prop :=
  forall w st, submissions (calls (m w st)) = 0%nat.

(** A computation that leaves the dictionary of contract sets as it is. *)
Definition keepsContractSets {A} (m : M A) : Prop :=
  forall w st,
    _contractSetByMarketContractAddress (state (m w st))
    = _contractSetByMarketContractAddress st.

(** What a fill's outcome owes the submit interface: nothing was submitted
    when a check rejected, and a resolved fill made exactly one submission,
    as its last call, and returns that call's hash with the order. *)
Definition submitsLast (signedOrder : SignedOrder) (fillQty : BigNumber)
    (txParams : ITxParams) (w : World)
    (o : Outcome ContractWrapper.OrderTransactionInfo) : Prop :=
  (forall e, result o = inl (Market e) -> submissions (calls o) = 0%nat) /\
  (forall info, result o = inr info ->
     exists reads,
       calls o = reads ++ [Send_tradeOrderTx (ContractWrapper.infoMarketContract info)
                             signedOrder fillQty txParams]
       /\ submissions reads = 0%nat
       /\ ContractWrapper.infoOrder info = signedOrder
       /\ tradeOrderTx w (ContractWrapper.infoMarketContract info) signedOrder
            fillQty txParams = inr (ContractWrapper.txHash info)).


(** ** The quantities the calculator reads for the maker *)

Section MakerQuantities.
Variables (l : Ledger) (st : WrapperState)
          (this : RemainingFillableCalculator.Calculator).

Definition theOrder : SignedOrder := RemainingFillableCalculator._signedOrder this.

Definition theContractSet : ContractSet :=
  contractSetIn l st (contractAddress theOrder).

Definition makerAvailableCollateral : BigNumber :=
  userAccountBalance l (marketCollateralPool theContractSet) (maker theOrder).

Definition neededCollateral : BigNumber :=
  Utils.calculateNeededCollateral
    (priceFloor l (marketContract theContractSet))
    (priceCap l (marketContract theContractSet))
    (qtyMultiplier l (marketContract theContractSet))
    (orderQty theOrder) (price theOrder).

Definition alreadyFilledOrCancelled : BigNumber :=
  qtyFilledOrCancelled l (marketContract theContractSet)
    (RemainingFillableCalculator._signedOrderHash this).

End MakerQuantities.

End Ledgers.

(* ===================================================================== *)
(** * A deployed contract to run the code on *)
(* ===================================================================== *)

Module Scenario.
Import BN Chain Ledgers.

(** The contract of the repository's tests: floor 50000, cap 150000; orders
    of quantity 100 at price 100000, filled by a taker who is the sender. *)
Definition marketAddress : address := "0x1111111111111111111111111111111111111111"%string.
Definition poolAddress : address := "0x2222222222222222222222222222222222222222"%string.
Definition collateralTokenAddress : address :=
  "0x3333333333333333333333333333333333333333"%string.
Definition mktAddress : address := "0x4444444444444444444444444444444444444444"%string.
Definition makerAddress : address := "0x5555555555555555555555555555555555555555"%string.
Definition takerAddress : address := "0x6666666666666666666666666666666666666666"%string.
Definition feeRecipientAddress : address :=
  "0x7777777777777777777777777777777777777777"%string.

(** What an account holds and has allowed. *)
Record Account : Type := {
  mktBalance : BigNumber;
  mktAllowance : BigNumber;
  collateral : BigNumber
}.

Definition ledger (makerAccount takerAccount : Account) (filled : BigNumber) : Ledger :=
  let accountOf (user : address) :=
    if String.eqb user makerAddress then makerAccount
    else if String.eqb user takerAddress then takerAccount
    else {| mktBalance := ofInt 0; mktAllowance := ofInt 0; collateral := ofInt 0 |} in
  {| settled := fun _ => false;
     priceFloor := fun _ => ofInt 50000;
     priceCap := fun _ => ofInt 150000;
     qtyMultiplier := fun _ => ofInt 1000;
     collateralPoolOf := fun _ => poolAddress;
     collateralTokenOf := fun _ => collateralTokenAddress;
     qtyFilledOrCancelled := fun _ _ => filled;
     userAccountBalance := fun _ user => collateral (accountOf user);
     tokenBalance := fun _ owner => mktBalance (accountOf owner);
     tokenAllowance := fun _ owner _ => mktAllowance (accountOf owner);
     mktToken := mktAddress;
     userEnabled := fun _ _ => true;
     accounts := [makerAddress; takerAddress];
     blockNumberOf := fun _ => 7%Z;
     hashOf := fun _ => "0xhash"%string;
     signatureValid := fun _ _ => true;
     schemaValid := fun _ => true;
     transactionHash := fun _ _ _ _ => "0xtx"%string;
     clock := 1541116800000%N |}.

(** The same chain behind a node that holds the accounts [held]. *)
Definition behind (held : list address) (l : Ledger) : Ledger :=
  {| settled := settled l;
     priceFloor := priceFloor l;
     priceCap := priceCap l;
     qtyMultiplier := qtyMultiplier l;
     collateralPoolOf := collateralPoolOf l;
     collateralTokenOf := collateralTokenOf l;
     qtyFilledOrCancelled := qtyFilledOrCancelled l;
     userAccountBalance := userAccountBalance l;
     tokenBalance := tokenBalance l;
     tokenAllowance := tokenAllowance l;
     mktToken := mktToken l;
     userEnabled := userEnabled l;
     accounts := held;
     blockNumberOf := blockNumberOf l;
     hashOf := hashOf l;
     signatureValid := signatureValid l;
     schemaValid := schemaValid l;
     transactionHash := transactionHash l;
     clock := clock l |}.

(** An order of the maker's, open to any taker. *)
Definition orderAt (limit qty fees : BigNumber) : SignedOrder :=
  {| contractAddress := marketAddress;
     expirationTimestamp := ofInt 1541120400;
     feeRecipient := feeRecipientAddress;
     maker := makerAddress;
     makerFee := fees;
     orderQty := qty;
     price := limit;
     remainingQty := qty;
     salt := ofInt 1;
     taker := NULL_ADDRESS;
     takerFee := fees;
     ecSignature := {| v := 27; r := "0xr"%string; s := "0xs"%string |} |}.

Definition order (qty fees : BigNumber) : SignedOrder := orderAt (ofInt 100000) qty fees.


Definition fromTaker : ITxParams := {| from := Some takerAddress; gas := Some 400000%Z |}.

Definition calculator (signedOrder : SignedOrder)
  : RemainingFillableCalculator.Calculator :=
  {| RemainingFillableCalculator._collateralPoolAddress := poolAddress;
     RemainingFillableCalculator._collateralTokenAddress := collateralTokenAddress;
     RemainingFillableCalculator._signedOrder := signedOrder;
     RemainingFillableCalculator._signedOrderHash := "0xhash"%string |}.

(** An account with fee tokens, allowance and collateral to spare. *)
Definition funded : Account :=
  {| mktBalance := ofInt 1000; mktAllowance := ofInt 1000;
     collateral := ofInt 100000000000 |}.

(** An account with fee tokens and allowance whose collateral is what a
    buy order of quantity [qty] at price 100000 needs. *)
Definition supporting (qty : Z) : Account :=
  {| mktBalance := ofInt 1000; mktAllowance := ofInt 1000;
     collateral := Utils.calculateNeededCollateral (ofInt 50000) (ofInt 150000)
                     (ofInt 1000) (ofInt qty) (ofInt 100000) |}.

End Scenario.

(* ===================================================================== *)
(** * src/utilities/ContractABIVerifier.ts *)
(* ===================================================================== *)

Module ContractABIVerifier.

(** An entry of a contract ABI, by the members the verifier reads: its
    type ("function", "event", "constructor", "fallback"), its name, whether
    a function is constant, and its inputs (their types). *)
Record AbiDefinition : Type := {
  type : string;
  name : string;
  constant : bool;
  inputs : list string
}.

(** The artifact of a contract, by its ABI and its name. *)
Record Artifact : Type := {
  abi : list AbiDefinition;
  contract_name : string
}.

(** A TypeChain contract object as the verifier looks at it: what
    [contract[field]] is. A field that is missing is undefined; a field that
    is there has a [length] (the declared parameters of a method) or none (a
    getter's promise). *)
Definition Contract : Type := list (string * option nat).

Record ArtifactTypeChainPair : Type := {
  artifact : Artifact;
  contract : Contract
}.

Inductive ABIVerificationResult : Type :=
| ValidVerification (name : string)
| InvalidVerification (name : string) (error : string).

Definition isValid (r : ABIVerificationResult) : bool :=
  match r with ValidVerification _ => true | InvalidVerification _ _ => false end.

(** [_validFunction]: the function is defined on the contract, under its
    name with Tx appended when it is not constant, and has the number of
    inputs of the ABI. [inl] is the message of the error thrown. *)
Definition _validFunction (abiItem : AbiDefinition) (contract : Contract)
  : string + unit :=
  let fnName :=
    if negb (constant abiItem) then (name abiItem ++ "Tx")%string else name abiItem in
  match JS.lookup fnName contract with
  | None =>
      inl ("abi function [" ++ name abiItem ++ "] does not exist on contract as "
           ++ fnName)%string
  | Some contractFnInputLength =>
      let abiInputLength := List.length (inputs abiItem) in
      if (abiInputLength =? 0)%nat
         && match contractFnInputLength with Some _ => true | None => false end
      then inl ("abi function [" ++ name abiItem ++ "] argument mismatch")%string
      else if negb (abiInputLength =? 0)%nat
              && negb match contractFnInputLength with
                      | Some n => (n =? abiInputLength)%nat
                      | None => false
                      end
      then inl ("abi function [" ++ name abiItem ++ "] argument mismatch")%string
      else inr tt
  end.

(** [_validEvent]: the event is defined on the contract, with Event appended
    to its name. *)
Definition _validEvent (abiItem : AbiDefinition) (contract : Contract)
  : string + unit :=
  let eventName := (name abiItem ++ "Event")%string in
  match JS.lookup eventName contract with
  | None =>
      inl ("abi event " ++ name abiItem ++ " does not exist on contract as "
           ++ eventName)%string
  | Some _ => inr tt
  end.

(** The body of the loop of [_verifyPair]: the switch on the type of one
    entry. *)
Definition validEntry (abiParams : AbiDefinition) (contract : Contract)
  : string + unit :=
  if String.eqb (type abiParams) "function" then _validFunction abiParams contract
  else if String.eqb (type abiParams) "event" then _validEvent abiParams contract
  else (* noop *) inr tt.

(** The loop of [_verifyPair] over the ABI: the first error thrown leaves
    it. *)
Fixpoint validEntries (entries : list AbiDefinition) (contract : Contract)
  : string + unit :=
  match entries with
  | [] => inr tt
  | abiParams :: rest =>
      match validEntry abiParams contract with
      | inl message => inl message
      | inr _ => validEntries rest contract
      end
  end.

(** [_verifyPair]: the try block and its catch. *)
Definition _verifyPair (pair : ArtifactTypeChainPair) : ABIVerificationResult :=
  match validEntries (abi (artifact pair)) (contract pair) with
  | inr _ => ValidVerification (contract_name (artifact pair))
  | inl message => InvalidVerification (contract_name (artifact pair)) message
  end.

(** [verify]. *)
Definition verify (pairs : list ArtifactTypeChainPair) : list ABIVerificationResult :=
  map _verifyPair pairs.

End ContractABIVerifier.

(* ===================================================================== *)
(** * IntervalUtils (with src/lib/Utils.ts) *)
(* ===================================================================== *)

Module IntervalUtils.

(** One interval made by [setAsyncExcludingInterval]: the flag [locked] of
    its closure and what has happened so far, the calls of [fn] whose promise
    has not settled, the calls of [fn] made, and the errors handed to
    [onError]. *)
Record Interval : Type := {
  locked : bool;
  running : nat;
  started : nat;
  reported : list string
}.

(** The interval as [setAsyncExcludingInterval] leaves it. *)
Definition setAsyncExcludingInterval : Interval :=
  {| locked := false; running := 0; started := 0; reported := [] |}.

(** The timer fires, the handler runs up to its await: nothing when it is
    locked, else it locks and calls [fn]. *)
Definition onInterval (i : Interval) : Interval :=
  if locked i then i
  else {| locked := true; running := S (running i); started := S (started i);
          reported := reported i |}.

(** How the promise of a call of [fn] settles: it resolves, or it rejects
    with an error, and [onError] then returns or throws itself. *)
Inductive Settlement : Type :=
| Resolved
| Rejected (err : string) (onErrorThrows : bool).

(** The promise of [fn] settles, the handler runs from its await on: a
    rejection goes to [onError], and the lock is released after the try
    statement; a throw of [onError] in the catch clause leaves the handler
    before that. *)
Definition onSettled (settlement : Settlement) (i : Interval) : Interval :=
  {| locked := match settlement with
               | Rejected _ true => locked i
               | _ => false
               end;
     running := Nat.pred (running i);
     started := started i;
     reported := match settlement with
                 | Rejected err _ => reported i ++ [err]
                 | Resolved => reported i
                 end |}.

(** What happens to an interval: the timer fires, or the promise of a call
    of [fn] settles. *)
Inductive Event : Type :=
| Fired
| Settled (settlement : Settlement).

(** The interval after a history; [None] for a history in which a promise
    settles while no call is running. *)
Fixpoint after (history : list Event) (i : Interval) : option Interval :=
  match history with
  | [] => Some i
  | Fired :: rest => after rest (onInterval i)
  | Settled settlement :: rest =>
      if (running i =? 0)%nat then None else after rest (onSettled settlement i)
  end.

Definition isFired (e : Event) : bool :=
  match e with Fired => true | Settled _ => false end.

(** Whether [onError] returns, when the event calls it. *)
Definition handled (e : Event) : bool :=
  match e with
  | Settled (Rejected _ true) => false
  | _ => true
  end.

(** The errors of the rejections of a history, in order. *)
Fixpoint rejections (history : list Event) : list string :=
  match history with
  | [] => []
  | Settled (Rejected err _) :: rest => err :: rejections rest
  | _ :: rest => rejections rest
  end.

(** What the lock is for: a call is running exactly while the interval is
    locked. *)
Definition excluding (i : Interval) : Prop :=
  running i = (if locked i then 1 else 0)%nat.

(** A call runs only in a locked interval, and only one. *)
Definition exclusive (i : Interval) : Prop :=
  (running i <= 1)%nat /\ (running i = 1%nat -> locked i = true).

End IntervalUtils.

(* ===================================================================== *)
(** * Transactions to the pool, positions and histories *)
(* ===================================================================== *)

Module Transactions.
Import BN Chain.

(** A log entry of a contract event, by what the wrapper reads of it: the
    hash of its transaction and its arguments. *)
Record Log (A : Type) : Type := {
  transactionHash : string;
  args : A
}.
Arguments transactionHash {A} _.
Arguments args {A} _.

(** The arguments of an OrderFilled event of a MarketContract. *)
Record OrderFilledArgs : Type := {
  argMaker : address;
  argTaker : address;
  argFeeRecipient : address;
  argFilledQty : BigNumber;
  argPaidMakerFee : BigNumber;
  argPaidTakerFee : BigNumber;
  argPrice : BigNumber;
  argOrderHash : string
}.

(** A transaction as web3 returns it; [to] is null for the creation of a
    contract, [blockNumber] is null while the transaction is pending. *)
Record Transaction : Type := {
  hash : string;
  blockNumber : option Z;
  from : address;
  to : option address;
  input : string
}.

(** What the decoder of ethereum-input-data-decoder makes of the input of a
    transaction: the name of the method called and its arguments. *)
Record DecodedInput : Type := {
  methodName : string;
  methodInputs : list BigNumber
}.

(** The calls of the wrapper that the fill pipeline does not make, after
    those it makes. *)
Inductive Call : Type :=
| Earlier (c : Chain.Call)
| Send_depositTokensForTradingTx (pool : address) (depositAmount : BigNumber)
    (txParams : ITxParams)
| Send_withdrawTokensTx (pool : address) (withdrawAmount : BigNumber)
    (txParams : ITxParams)
| Send_approveTx (token spender : address) (amountInBaseUnits : BigNumber)
    (txParams : ITxParams)
| Call_getUserPositionCount (pool user : address)
| Call_getUserPosition (pool user : address) (index : BigNumber)
| Get_OrderFilledEvent (market : address) (fromBlock toBlock : string)
| Get_UpdatedUserBalanceEvent (pool : address) (fromBlock toBlock : string)
| Call_web3_getTransaction (transactionHash : string).

(** The calls that send a transaction. *)
Definition sends (c : Call) : bool :=
  match c with
  | Earlier (Chain.Send_tradeOrderTx _ _ _ _) => true
  | Send_depositTokensForTradingTx _ _ _ => true
  | Send_withdrawTokensTx _ _ _ => true
  | Send_approveTx _ _ _ _ => true
  | _ => false
  end.

(** The world of [Chain], and what else the wrapper calls into. *)
Record World : Type := {
  chain : Chain.World;
  (* MarketCollateralPool *)
  depositTokensForTradingTx : address -> BigNumber -> ITxParams -> string + string;
  withdrawTokensTx : address -> BigNumber -> ITxParams -> string + string;
  getUserPositionCount : address -> address -> string + BigNumber;
  getUserPosition : address -> address -> BigNumber -> string + list BigNumber;
  UpdatedUserBalanceEvent : address -> string -> string -> string + list (Log unit);
  (* MarketContract *)
  OrderFilledEvent :
    address -> string -> string -> string + list (Log OrderFilledArgs);
  (* ERC20 *)
  approveTx : address -> address -> BigNumber -> ITxParams -> string + string;
  (* web3; an error, or no transaction under the hash (reading its members
     throws), is a message *)
  getTransaction : string -> string + Transaction;
  (* the Decoder made from the ABI of the collateral pool, on the input of a
     transaction; a message when decoding, or reading the name and the
     inputs of what it returns, throws *)
  decodeData : address -> string -> string + DecodedInput;
  (* the text of [value.toNumber()] in a message *)
  toNumberText : BigNumber -> string
}.

(** ** The monad, with these calls *)

Record Outcome (A : Type) : Type := {
  calls : list Call;
  state : WrapperState;
  result : Rejection + A
}.
Arguments calls {A} _.
Arguments state {A} _.
Arguments result {A} _.

Definition M (A : Type) : Type := World -> WrapperState -> Outcome A.

Definition ret {A} (a : A) : M A :=
  fun _ st => {| calls := []; state := st; result := inr a |}.

Definition reject {A} (e : Rejection) : M A :=
  fun _ st => {| calls := []; state := st; result := inl e |}.

Definition rejectWith {A} (e : MarketError) : M A := reject (Market e).

Definition bind {A B} (m : M A) (f : A -> M B) : M B :=
  fun w st =>
    let o := m w st in
    match result o with
    | inl e => {| calls := calls o; state := state o; result := inl e |}
    | inr a =>
        let o' := f a w (state o) in
        {| calls := calls o ++ calls o'; state := state o'; result := result o' |}
    end.

Definition await {A} (c : Call) (answer : World -> string + A) : M A :=
  fun w st =>
    {| calls := [c]; state := st;
       result := match answer w with
                 | inl msg => inl (Thrown msg)
                 | inr a => inr a
                 end |}.

Definition ask {A} (f : World -> A) : M A :=
  fun w st => {| calls := []; state := st; result := inr (f w) |}.

(** A computation of a library that is no call of the wrapper, and may
    throw. *)
Definition attempt {A} (f : World -> string + A) : M A :=
  fun w st =>
    {| calls := []; state := st;
       result := match f w with
                 | inl msg => inl (Thrown msg)
                 | inr a => inr a
                 end |}.

(** A computation of [Chain] in this world. *)
Definition earlier {A} (m : Chain.M A) : M A :=
  fun w st =>
    let o := m (chain w) st in
    {| calls := map Earlier (Chain.calls o); state := Chain.state o;
       result := Chain.result o |}.

Declare Scope transactions_scope.
Notation "x <- m ;; k" := (bind m (fun x => k))
  (at level 61, m at next level, right associativity) : transactions_scope.
Notation "m ;;; k" := (bind m (fun _ => k))
  (at level 61, right associativity) : transactions_scope.

End Transactions.

(* ===================================================================== *)
(** * src/contract_wrappers/ContractWrapper.ts, collateral and histories *)
(* ===================================================================== *)

Module CollateralWrapper.
Import BN Chain Transactions.
Local Open Scope transactions_scope.

(** [String(txParams.from)]. *)
Definition callerOf (txParams : ITxParams) : string :=
  match Chain.from txParams with
  | Some sender => sender
  | None => "undefined"
  end.

(** [depositCollateralAsync], for an amount given as a BigNumber. *)
Definition depositCollateralAsync (marketContractAddress : address)
    (depositAmount : BigNumber) (txParams : ITxParams) : M string :=
  contractSetWrapper <-
    earlier (ContractWrapper._getContractSetByMarketContractAddressAsync
               marketContractAddress) ;;
  (* Ensure caller is enabled for contract *)
  let caller := callerOf txParams in
  isUserEnabled <-
    earlier (Chain.await (Call_isUserEnabledForContract marketContractAddress caller)
               (fun w => isUserEnabledForContract w marketContractAddress caller)) ;;
  if negb isUserEnabled then rejectWith UserNotEnabledForContract else
  (* Ensure caller has sufficient collateral token balance *)
  callerCollateralTokenBalance <-
    earlier (ContractWrapper.getBalanceAsync (collateralToken contractSetWrapper)
               caller) ;;
  if isLessThan callerCollateralTokenBalance depositAmount
  then rejectWith InsufficientBalanceForTransfer else
  (* Ensure caller has approved sufficient amount *)
  callerAllowance <-
    earlier (ContractWrapper.getAllowanceAsync (collateralToken contractSetWrapper)
               caller (marketCollateralPool contractSetWrapper)) ;;
  if isLessThan callerAllowance depositAmount
  then rejectWith InsufficientAllowanceForTransfer else
  await (Send_depositTokensForTradingTx (marketCollateralPool contractSetWrapper)
           depositAmount txParams)
    (fun w => depositTokensForTradingTx w (marketCollateralPool contractSetWrapper)
                depositAmount txParams).

(** [withdrawCollateralAsync]. *)
Definition withdrawCollateralAsync (marketContractAddress : address)
    (withdrawAmount : BigNumber) (txParams : ITxParams) : M string :=
  contractSetWrapper <-
    earlier (ContractWrapper._getContractSetByMarketContractAddressAsync
               marketContractAddress) ;;
  (* Ensure caller has sufficient collateral pool balance *)
  let caller := callerOf txParams in
  balance <-
    earlier (Chain.await
               (Call_getUserAccountBalance (marketCollateralPool contractSetWrapper)
                  caller)
               (fun w => getUserAccountBalance w
                           (marketCollateralPool contractSetWrapper) caller)) ;;
  if isLessThan balance withdrawAmount
  then rejectWith InsufficientBalanceForTransfer else
  await (Send_withdrawTokensTx (marketCollateralPool contractSetWrapper)
           withdrawAmount txParams)
    (fun w => withdrawTokensTx w (marketCollateralPool contractSetWrapper)
                withdrawAmount txParams).

(** [getUserPositionAsync]: the position (price, qty) at an index. *)
Definition getUserPositionAsync (marketContractAddress userAddress : address)
    (index : BigNumber) : M (list BigNumber) :=
  contractSetWrapper <-
    earlier (ContractWrapper._getContractSetByMarketContractAddressAsync
               marketContractAddress) ;;
  let pool := marketCollateralPool contractSetWrapper in
  currentPositionCount <-
    await (Call_getUserPositionCount pool userAddress)
      (fun w => getUserPositionCount w pool userAddress) ;;
  if isLessThan currentPositionCount (ofInt 1)
  then rejectWith UserHasNoAssociatedPositions else
  await (Call_getUserPosition pool userAddress index)
    (fun w => getUserPosition w pool userAddress index).

(** [setAllowanceAsync]; [txParams.from || ''] is the sender asserted. *)
Definition setAllowanceAsync (tokenAddress spenderAddress : address)
    (amountInBaseUnits : BigNumber) (txParams : ITxParams) : M string :=
  earlier (Assert.isETHAddressHex "spenderAddress" spenderAddress) ;;;
  earlier (Assert.isETHAddressHex "tokenAddress" tokenAddress) ;;;
  earlier (Assert.isSenderAddressAsync "txParams.from"
             match Chain.from txParams with Some sender => sender | None => "" end) ;;;
  found <- ask (fun w => toNumberText w amountInBaseUnits) ;;
  earlier (Assert.isValidBaseUnitAmount "amountInBaseUnits" amountInBaseUnits found) ;;;
  tokenContract <- earlier (ContractWrapper.getERC20TokenContractAsync tokenAddress) ;;
  await (Send_approveTx tokenContract spenderAddress amountInBaseUnits txParams)
    (fun w => approveTx w tokenContract spenderAddress amountInBaseUnits txParams).

(** OrderFilledEvent of src/types, by the members of the object literal of
    [getContractFillsAsync]. *)
Record OrderFilledEvent : Type := {
  maker : address;
  taker : address;
  feeRecipient : address;
  filledQty : BigNumber;
  paidMakerFee : BigNumber;
  paidTakerFee : BigNumber;
  price : BigNumber;
  orderHash : string;
  fillBlockNumber : option Z;
  fillTxHash : string
}.

(** [!userAddress]: null, or the empty string. *)
Definition noUser (userAddress : option address) : bool :=
  match userAddress with
  | None => true
  | Some a => String.eqb a ""
  end.

(** [userAddress === x] for a string [x]. *)
Definition isUser (userAddress : option address) (x : address) : bool :=
  match userAddress with
  | None => false
  | Some a => String.eqb a x
  end.

(** The object literal of [getContractFillsAsync]: the fill of a log entry
    and its transaction. *)
Definition orderFilledEvent (e : Log OrderFilledArgs) (transaction : Transaction)
  : OrderFilledEvent :=
  {| maker := argMaker (args e);
     taker := argTaker (args e);
     feeRecipient := argFeeRecipient (args e);
     filledQty := argFilledQty (args e);
     paidMakerFee := argPaidMakerFee (args e);
     paidTakerFee := argPaidTakerFee (args e);
     price := argPrice (args e);
     orderHash := argOrderHash (args e);
     fillBlockNumber := blockNumber transaction;
     fillTxHash := hash transaction |}.

(** The tests of [getContractFillsAsync] on a log entry: no user is asked
    for, or the user is on the side asked for. *)
Definition wanted (userAddress : option address) (side : string)
    (e : Log OrderFilledArgs) : bool :=
  if noUser userAddress then true
  else (String.eqb side "maker" && isUser userAddress (argMaker (args e)))
       || (String.eqb side "taker" && isUser userAddress (argTaker (args e)))
       || (String.eqb side "any"
           && (isUser userAddress (argMaker (args e))
               || isUser userAddress (argTaker (args e)))).

(** The loop of [getContractFillsAsync] over the events, with the array it
    pushes to. *)
Fixpoint getContractFillsAsync_loop (events : list (Log OrderFilledArgs))
    (userAddress : option address) (side : string)
    (orderFilledEvents : list OrderFilledEvent) : M (list OrderFilledEvent) :=
  match events with
  | [] => ret orderFilledEvents
  | e :: rest =>
      transaction <-
        await (Call_web3_getTransaction (transactionHash e))
          (fun w => getTransaction w (transactionHash e)) ;;
      let event := orderFilledEvent e transaction in
      getContractFillsAsync_loop rest userAddress side
        (if wanted userAddress side e then orderFilledEvents ++ [event]
         else orderFilledEvents)
  end.

(** [getContractFillsAsync]: the history of fills of a contract, for a
    maker, a taker or both. *)
Definition getContractFillsAsync (marketContractAddress : address)
    (fromBlock toBlock : string) (userAddress : option address) (side : string)
  : M (list OrderFilledEvent) :=
  contractSetWrapper <-
    earlier (ContractWrapper._getContractSetByMarketContractAddressAsync
               marketContractAddress) ;;
  let market := marketContract contractSetWrapper in
  events <- await (Get_OrderFilledEvent market fromBlock toBlock)
              (fun w => Transactions.OrderFilledEvent w market fromBlock toBlock) ;;
  getContractFillsAsync_loop events userAddress side [].

(** CollateralEvent of src/types (and of MarketProtocolContractWrapper.ts). *)
Record CollateralEvent : Type := {
  type : string;
  eventFrom : option address;
  eventTo : option address;
  amount : option BigNumber;
  eventBlockNumber : option Z;
  txHash : string
}.

(** The object literal of [getCollateralEventsAsync]: the event of a
    transaction and its decoded input. Whatever is not a call of
    depositTokensForTrading counts as a withdrawal. *)
Definition collateralEvent (transaction : Transaction) (input : DecodedInput)
  : CollateralEvent :=
  let isDeposit := String.eqb (methodName input) "depositTokensForTrading" in
  {| type := if isDeposit then "deposit" else "withdrawal";
     eventFrom := if isDeposit then Some (Transactions.from transaction)
                  else to transaction;
     eventTo := if isDeposit then to transaction
                else Some (Transactions.from transaction);
     amount := nth_error (methodInputs input) 0;
     eventBlockNumber := blockNumber transaction;
     txHash := hash transaction |}.

(** [userAddress === transaction.from || userAddress === transaction.to];
    null equals a null [to]. *)
Definition involves (userAddress : option address) (transaction : Transaction)
  : bool :=
  isUser userAddress (Transactions.from transaction)
  || match userAddress, to transaction with
     | Some a, Some b => String.eqb a b
     | None, None => true
     | _, _ => false
     end.

(** The loop of [getCollateralEventsAsync] over the logs. The two tests on
    the user are two statements: an event can be pushed twice. *)
Fixpoint getCollateralEventsAsync_loop (pool : address) (logs : list (Log unit))
    (userAddress : option address) (collateralEvents : list CollateralEvent)
  : M (list CollateralEvent) :=
  match logs with
  | [] => ret collateralEvents
  | e :: rest =>
      transaction <-
        await (Call_web3_getTransaction (transactionHash e))
          (fun w => getTransaction w (transactionHash e)) ;;
      input <- attempt (fun w => decodeData w pool (Transactions.input transaction)) ;;
      let event := collateralEvent transaction input in
      let pushed :=
        if noUser userAddress then collateralEvents ++ [event] else collateralEvents in
      getCollateralEventsAsync_loop pool rest userAddress
        (if involves userAddress transaction then pushed ++ [event] else pushed)
  end.

(** [getCollateralEventsAsync]: the history of deposits and withdrawals of
    a collateral pool. *)
Definition getCollateralEventsAsync (marketContractAddress : address)
    (fromBlock toBlock : string) (userAddress : option address)
  : M (list CollateralEvent) :=
  contractSetWrapper <-
    earlier (ContractWrapper._getContractSetByMarketContractAddressAsync
               marketContractAddress) ;;
  let pool := marketCollateralPool contractSetWrapper in
  logs <- await (Get_UpdatedUserBalanceEvent pool fromBlock toBlock)
            (fun w => UpdatedUserBalanceEvent w pool fromBlock toBlock) ;;
  getCollateralEventsAsync_loop pool logs userAddress [].

End CollateralWrapper.

(* ===================================================================== *)
(** * A history to run the collateral methods on *)
(* ===================================================================== *)

Module History.
Import BN Chain Ledgers Transactions.

(** The transactions of the test history, by their hashes: a deposit of the
    maker, a withdrawal of the taker, and a transaction without a
    recipient. *)
Definition transactionOf (h : string) : Transaction :=
  {| hash := h;
     blockNumber := Some 7%Z;
     from := if String.eqb h "0xa" then Scenario.makerAddress else Scenario.takerAddress;
     to := if String.eqb h "0xc" then None else Some Scenario.poolAddress;
     input := h |}.

(** What the inputs of these transactions decode to (the input of a
    transaction is its hash here). *)
Definition decoded (input : string) : DecodedInput :=
  {| methodName := if String.eqb input "0xa" then "depositTokensForTrading"
                   else "withdrawTokens";
     methodInputs := [ofInt 5] |}.

Definition fill (h : string) (makerAddress takerAddress : address)
  : Log OrderFilledArgs :=
  {| transactionHash := h;
     args := {| argMaker := makerAddress; argTaker := takerAddress;
                argFeeRecipient := Scenario.feeRecipientAddress;
                argFilledQty := ofInt 2; argPaidMakerFee := ofInt 0;
                argPaidTakerFee := ofInt 0; argPrice := ofInt 100000;
                argOrderHash := "0xhash" |} |}.

Definition fills : list (Log OrderFilledArgs) :=
  [ fill "0xa" Scenario.takerAddress Scenario.makerAddress;
    fill "0xb" Scenario.makerAddress Scenario.takerAddress;
    fill "0xc" Scenario.feeRecipientAddress Scenario.takerAddress ].

Definition balanceLogs : list (Log unit) :=
  [ {| transactionHash := "0xa"; args := tt |};
    {| transactionHash := "0xb"; args := tt |};
    {| transactionHash := "0xc"; args := tt |} ].

(** A chain that answers, with a pool that accepts what it is sent, no
    positions, and the histories above. *)
Definition worldOn (l : Ledger) : Transactions.World :=
  {| chain := answering l;
     depositTokensForTradingTx := fun _ _ _ => inr "0xdeposit"%string;
     withdrawTokensTx := fun _ _ _ => inr "0xwithdraw"%string;
     getUserPositionCount := fun _ _ => inr (ofInt 0);
     getUserPosition := fun _ _ _ => inl "revert"%string;
     UpdatedUserBalanceEvent := fun _ _ _ => inr balanceLogs;
     OrderFilledEvent := fun _ _ _ => inr fills;
     approveTx := fun _ _ _ _ => inr "0xapprove"%string;
     getTransaction := fun h => inr (transactionOf h);
     decodeData := fun _ input => inr (decoded input);
     toNumberText := toString |}.

(** The chain of [Scenario] with funded accounts. *)
Definition world : Transactions.World :=
  worldOn (Scenario.ledger Scenario.funded Scenario.funded (ofInt 0)).

End History.

(* ===================================================================== *)
(** * Facts about the BigNumber operations *)
(* ===================================================================== *)

Module BNFacts.
Import BN.

(** ** What the operations compute, on finite values *)

Lemma ten_pos e : 0 < (10 # 1) ^ e.
Proof. apply Qpower_0_lt. reflexivity. Qed.

Lemma ten_nonzero : ~ (10 # 1) == 0.
Proof. discriminate. Qed.

Lemma ten_succ e : (10 # 1) ^ (e + 1) == (10 # 1) ^ e * (10 # 1).
Proof. rewrite Qpower_plus by apply ten_nonzero. reflexivity. Qed.

Lemma ten_inject k : (0 <= k)%Z -> inject_Z (10 ^ k) == (10 # 1) ^ k.
Proof. intros Hk. rewrite Zpower_Qpower by assumption. reflexivity. Qed.

(** Moving a power of ten between coefficient and exponent. *)
Lemma shift_exponent (z e e0 : Z) :
  (e0 <= e)%Z ->
  inject_Z (z * 10 ^ (e - e0)) * (10 # 1) ^ e0 == inject_Z z * (10 # 1) ^ e.
Proof.
  intros Hle. rewrite inject_Z_mult, ten_inject by lia.
  replace e with ((e - e0) + e0)%Z at 2 by lia.
  rewrite Qpower_plus by apply ten_nonzero. ring.
Qed.

Lemma scaled_toQ neg c e e0 :
  (e0 <= e)%Z ->
  inject_Z (scaled neg c e e0) * (10 # 1) ^ e0 == toQ (Finite neg c e).
Proof.
  intros Hle. unfold scaled. rewrite shift_exponent by assumption.
  simpl. rewrite inject_Z_mult. destruct neg; reflexivity.
Qed.

Lemma strip_value fuel : forall c e c' e',
  strip fuel c e = (c', e') ->
  inject_Z (Z.of_N c') * (10 # 1) ^ e' == inject_Z (Z.of_N c) * (10 # 1) ^ e.
Proof.
  induction fuel as [|fuel IH]; simpl; intros c e c' e' H.
  - inversion H; subst. reflexivity.
  - destruct (N.eqb_spec (c mod 10) 0) as [Hm|Hm].
    + rewrite (IH _ _ _ _ H), ten_succ.
      assert (Hc : c = (10 * (c / 10))%N).
      { pose proof (N.div_mod c 10). lia. }
      rewrite Hc at 2. rewrite N2Z.inj_mul, inject_Z_mult. simpl. ring.
    + inversion H; subst. reflexivity.
Qed.

Lemma strip_nonzero fuel : forall c e c' e',
  strip fuel c e = (c', e') -> c <> 0%N -> c' <> 0%N.
Proof.
  induction fuel as [|fuel IH]; simpl; intros c e c' e' H Hc.
  - inversion H; subst. assumption.
  - destruct (N.eqb_spec (c mod 10) 0) as [Hm|Hm].
    + apply (IH _ _ _ _ H). intros H0.
      pose proof (N.div_mod c 10). lia.
    + inversion H; subst. assumption.
Qed.

Lemma normalise_spec neg c e :
  exists c' e', normalise neg c e = Finite neg c' e' /\
    ((c' =? 0) = (c =? 0))%N /\
    toQ (Finite neg c' e') == toQ (Finite neg c e).
Proof.
  unfold normalise. destruct (N.eqb_spec c 0) as [Hc|Hc].
  - subst. exists 0%N, 0%Z. repeat split. simpl. ring.
  - destruct (strip (N.size_nat c) c e) as [c' e'] eqn:Hs.
    exists c', e'. repeat split.
    + apply N.eqb_neq. eapply strip_nonzero; eauto.
    + simpl. rewrite <- !Qmult_assoc. rewrite (strip_value _ _ _ _ _ Hs). reflexivity.
Qed.

Lemma compare_finite n1 c1 e1 n2 c2 e2 :
  compare (Finite n1 c1 e1) (Finite n2 c2 e2)
  = Some (toQ (Finite n1 c1 e1) ?= toQ (Finite n2 c2 e2)).
Proof.
  unfold compare. f_equal.
  set (e0 := Z.min e1 e2).
  pose proof (scaled_toQ n1 c1 e1 e0 ltac:(lia)) as H1.
  pose proof (scaled_toQ n2 c2 e2 e0 ltac:(lia)) as H2.
  pose proof (ten_pos e0) as Hp.
  symmetry.
  destruct (Z.compare_spec (scaled n1 c1 e1 e0) (scaled n2 c2 e2 e0)) as [E|L|G].
  - apply Qeq_alt. rewrite <- H1, <- H2, E. reflexivity.
  - apply Qlt_alt. rewrite <- H1, <- H2. apply Qmult_lt_compat_r; [assumption|].
    rewrite <- Zlt_Qlt. assumption.
  - apply Qgt_alt. rewrite <- H1, <- H2. apply Qmult_lt_compat_r; [assumption|].
    rewrite <- Zlt_Qlt. assumption.
Qed.

Lemma minus_spec x y :
  isFinite x = true -> isFinite y = true ->
  isFinite (minus x y) = true /\ toQ (minus x y) == toQ x - toQ y.
Proof.
  destruct x as [| |n1 c1 e1]; try discriminate.
  destruct y as [| |n2 c2 e2]; try discriminate. intros _ _.
  unfold minus.
  set (e0 := Z.min e1 e2).
  pose proof (scaled_toQ n1 c1 e1 e0 ltac:(lia)) as H1.
  pose proof (scaled_toQ n2 c2 e2 e0 ltac:(lia)) as H2.
  set (z := (scaled n1 c1 e1 e0 - scaled n2 c2 e2 e0)%Z) in *.
  assert (Hz : inject_Z z * (10 # 1) ^ e0
               == toQ (Finite n1 c1 e1) - toQ (Finite n2 c2 e2)).
  { rewrite <- H1, <- H2. unfold z, Zminus.
    rewrite inject_Z_plus, inject_Z_opp. ring. }
  destruct (Z.eqb_spec z 0) as [E|E].
  - split; [reflexivity|]. rewrite <- Hz, E. simpl. ring.
  - destruct (normalise_spec (z <? 0)%Z (Z.abs_N z) e0) as (c' & e' & -> & _ & Hv).
    split; [reflexivity|]. rewrite Hv, <- Hz. simpl.
    rewrite N2Z.inj_abs_N.
    destruct (Z.ltb_spec z 0).
    + rewrite Z.abs_neq by lia. rewrite inject_Z_opp. ring.
    + rewrite Z.abs_eq by lia. ring.
Qed.

Lemma times_spec x y :
  isFinite x = true -> isFinite y = true ->
  isFinite (times x y) = true /\ toQ (times x y) == toQ x * toQ y.
Proof.
  destruct x as [| |n1 c1 e1]; try discriminate.
  destruct y as [| |n2 c2 e2]; try discriminate. intros _ _.
  unfold times.
  destruct (normalise_spec (xorb n1 n2) (c1 * c2) (e1 + e2)) as (c' & e' & -> & _ & Hv).
  split; [reflexivity|]. rewrite Hv. simpl.
  rewrite N2Z.inj_mul, inject_Z_mult, Qpower_plus by apply ten_nonzero.
  destruct n1, n2; simpl; ring.
Qed.

Lemma absoluteValue_spec x :
  isFinite (absoluteValue x) = isFinite x /\ toQ (absoluteValue x) == Qabs (toQ x).
Proof.
  destruct x as [| |n c e]; try (split; reflexivity).
  split; [reflexivity|]. cbn [toQ absoluteValue].
  set (v := inject_Z (Z.of_N c) * (10 # 1) ^ e).
  assert (H0 : 0 <= v).
  { apply Qmult_le_0_compat.
    - change 0 with (inject_Z 0). rewrite <- Zle_Qle. lia.
    - apply Qlt_le_weak, ten_pos. }
  destruct n.
  - setoid_replace (-1 * inject_Z (Z.of_N c) * (10 # 1) ^ e) with (- v)
      by (unfold v; ring).
    rewrite Qabs_opp, Qabs_pos by assumption. unfold v. ring.
  - setoid_replace (1 * inject_Z (Z.of_N c) * (10 # 1) ^ e) with v
      by (unfold v; ring).
    rewrite Qabs_pos by assumption. reflexivity.
Qed.

(** The comparisons are those of the rationals: each unfolds to [compare],
    which [compare_finite] reads as [Qcompare]. *)
Ltac compare_as_Q f alt :=
  let n1 := fresh "n" in let c1 := fresh "c" in let e1 := fresh "e" in
  let n2 := fresh "n" in let c2 := fresh "c" in let e2 := fresh "e" in
  intros [| |n1 c1 e1]; try discriminate;
  intros [| |n2 c2 e2]; try discriminate; intros _ _;
  unfold f; rewrite compare_finite, alt;
  destruct (toQ (Finite n1 c1 e1) ?= toQ (Finite n2 c2 e2)); split; congruence.

Lemma lte_spec : forall x y,
  isFinite x = true -> isFinite y = true -> (lte x y = true <-> toQ x <= toQ y).
Proof. compare_as_Q lte Qle_alt. Qed.

Lemma gte_spec : forall x y,
  isFinite x = true -> isFinite y = true -> (gte x y = true <-> toQ y <= toQ x).
Proof. compare_as_Q gte Qge_alt. Qed.

Lemma isLessThan_spec : forall x y,
  isFinite x = true -> isFinite y = true ->
  (isLessThan x y = true <-> toQ x < toQ y).
Proof. compare_as_Q isLessThan Qlt_alt. Qed.

Lemma isGreaterThan_spec : forall x y,
  isFinite x = true -> isFinite y = true ->
  (isGreaterThan x y = true <-> toQ y < toQ x).
Proof. compare_as_Q isGreaterThan Qgt_alt. Qed.

Lemma isEqualTo_spec : forall x y,
  isFinite x = true -> isFinite y = true ->
  (isEqualTo x y = true <-> toQ x == toQ y).
Proof. compare_as_Q isEqualTo Qeq_alt. Qed.

Lemma magnitude_nonneg c e : 0 <= inject_Z (Z.of_N c) * (10 # 1) ^ e.
Proof.
  apply Qmult_le_0_compat.
  - change 0 with (inject_Z 0). rewrite <- Zle_Qle. lia.
  - apply Qlt_le_weak, ten_pos.
Qed.

(** The sign field agrees with the sign of the value. *)
Lemma isPositive_sign x :
  isFinite x = true ->
  (0 < toQ x -> isPositive x = true) /\ (toQ x < 0 -> isPositive x = false).
Proof.
  destruct x as [| |n c e]; try discriminate. intros _.
  pose proof (magnitude_nonneg c e) as H0. cbn [toQ isPositive].
  destruct n; split; intros H; try reflexivity; exfalso; lra.
Qed.

Lemma ofInt_spec z : isFinite (ofInt z) = true /\ toQ (ofInt z) == inject_Z z.
Proof.
  unfold ofInt.
  destruct (normalise_spec (z <? 0)%Z (Z.abs_N z) 0) as (c' & e' & -> & _ & Hv).
  split; [reflexivity|]. rewrite Hv. simpl. rewrite N2Z.inj_abs_N.
  destruct (Z.ltb_spec z 0).
  - rewrite Z.abs_neq by lia. rewrite inject_Z_opp. ring.
  - rewrite Z.abs_eq by lia. ring.
Qed.

(** ** Division *)

Lemma pow10_pos k : (0 < pow10 k)%Z.
Proof. unfold pow10. apply Z.pow_pos_nonneg; lia. Qed.

(** [10^k], for any integer [k], as a fraction of two powers of ten. *)
Lemma pow10_ratio k :
  (10 # 1) ^ k == inject_Z (pow10 k) / inject_Z (pow10 (- k)).
Proof.
  unfold pow10. destruct (Z.le_ge_cases 0 k) as [H|H].
  - rewrite Z.max_r, Z.max_l by lia.
    change (inject_Z (10 ^ 0)) with 1. rewrite ten_inject by lia. field.
  - rewrite Z.max_l, Z.max_r by lia.
    change (inject_Z (10 ^ 0)) with 1. rewrite ten_inject by lia.
    rewrite Qpower_opp. field. apply Qpower_not_0. discriminate.
Qed.

Lemma inject_Z_nonzero z : z <> 0%Z -> ~ inject_Z z == 0.
Proof. intros H E. apply H. unfold Qeq in E. simpl in E. lia. Qed.

(** The integer [quotient] is the exact quotient, scaled, plus one half,
    rounded down. *)
Lemma quotient_floor c1 e1 c2 e2 :
  c2 <> 0%N ->
  Z.of_N (quotient c1 e1 c2 e2)
  = Qfloor (inject_Z (Z.of_N c1) * (10 # 1) ^ e1
            / (inject_Z (Z.of_N c2) * (10 # 1) ^ e2)
            * inject_Z (10 ^ DECIMAL_PLACES) + (1 # 2)).
Proof.
  intros Hc2. unfold quotient.
  set (k := (e1 - e2 + DECIMAL_PLACES)%Z).
  set (num := (Z.of_N c1 * pow10 k)%Z).
  set (den := (Z.of_N c2 * pow10 (- k))%Z).
  assert (Hden : (0 < den)%Z).
  { unfold den. apply Z.mul_pos_pos; [lia | apply pow10_pos]. }
  assert (Hnum : (0 <= num)%Z).
  { unfold num. apply Z.mul_nonneg_nonneg; [lia|]. pose proof (pow10_pos k). lia. }
  rewrite Z2N.id by (apply Z.div_pos; lia).
  rewrite Zdiv_Qdiv. apply Qfloor_comp.
  assert (E : (10 # 1) ^ e1 / (10 # 1) ^ e2 * inject_Z (10 ^ DECIMAL_PLACES)
              == (10 # 1) ^ k).
  { unfold k. rewrite ten_inject by (unfold DECIMAL_PLACES; lia).
    rewrite !Qpower_plus by apply ten_nonzero.
    unfold Zminus. rewrite !Qpower_plus by apply ten_nonzero.
    rewrite Qpower_opp. field. apply Qpower_not_0. discriminate. }
  assert (N2 : ~ inject_Z (Z.of_N c2) == 0) by (apply inject_Z_nonzero; lia).
  assert (P2 : ~ (10 # 1) ^ e2 == 0) by (apply Qpower_not_0; discriminate).
  assert (Pk : ~ inject_Z (pow10 (- k)) == 0).
  { apply inject_Z_nonzero. pose proof (pow10_pos (- k)). lia. }
  setoid_replace (inject_Z (Z.of_N c1) * (10 # 1) ^ e1
                  / (inject_Z (Z.of_N c2) * (10 # 1) ^ e2)
                  * inject_Z (10 ^ DECIMAL_PLACES))
    with (inject_Z (Z.of_N c1) / inject_Z (Z.of_N c2)
          * ((10 # 1) ^ e1 / (10 # 1) ^ e2 * inject_Z (10 ^ DECIMAL_PLACES)))
    by (field; auto).
  rewrite E, pow10_ratio.
  unfold num, den.
  rewrite !inject_Z_plus, !inject_Z_mult.
  field. repeat split; try assumption.
Qed.

Instance roundHalfUp_comp : Proper (Qeq ==> Qeq) roundHalfUp.
Proof.
  intros p q E. unfold roundHalfUp.
  rewrite (Qleb_comp 0 0 (Qeq_refl 0) p q E).
  assert (F : Qfloor (Qabs p * inject_Z (10 ^ DECIMAL_PLACES) + (1 # 2))
              = Qfloor (Qabs q * inject_Z (10 ^ DECIMAL_PLACES) + (1 # 2))).
  { apply Qfloor_comp. rewrite E. reflexivity. }
  rewrite F. reflexivity.
Qed.

(** [dividedBy] is the exact quotient rounded half up to DECIMAL_PLACES. *)
Lemma dividedBy_spec x y :
  isFinite x = true -> isFinite y = true -> isZero y = false ->
  isFinite (dividedBy x y) = true /\
  toQ (dividedBy x y) == roundHalfUp (toQ x / toQ y).
Proof.
  destruct x as [| |n1 c1 e1]; try discriminate.
  destruct y as [| |n2 c2 e2]; try discriminate. intros _ _ Hy.
  cbn [isZero] in Hy. apply N.eqb_neq in Hy.
  unfold dividedBy. rewrite (proj2 (N.eqb_neq c2 0) Hy).
  assert (Py : 0 < inject_Z (Z.of_N c2) * (10 # 1) ^ e2).
  { apply Qmult_lt_0_compat; [|apply ten_pos].
    change 0 with (inject_Z 0). rewrite <- Zlt_Qlt. lia. }
  destruct (N.eqb_spec c1 0) as [Hx|Hx].
  - split; [reflexivity|]. subst c1.
    assert (Z0 : toQ (Finite n1 0 e1) / toQ (Finite n2 c2 e2) == 0).
    { cbn [toQ]. change (inject_Z (Z.of_N 0)) with 0. field.
      split; [apply Qpower_not_0; discriminate|].
      split; [apply inject_Z_nonzero; lia | destruct n2; discriminate]. }
    rewrite Z0. cbn. destruct (xorb n1 n2); reflexivity.
  - destruct (normalise_spec (xorb n1 n2) (quotient c1 e1 c2 e2) (- DECIMAL_PLACES))
      as (c' & e' & -> & _ & Hv).
    split; [reflexivity|]. rewrite Hv. cbn [toQ].
    rewrite (quotient_floor c1 e1 c2 e2 Hy).
    assert (Px : 0 < inject_Z (Z.of_N c1) * (10 # 1) ^ e1).
    { apply Qmult_lt_0_compat; [|apply ten_pos].
      change 0 with (inject_Z 0). rewrite <- Zlt_Qlt. lia. }
    set (mx := inject_Z (Z.of_N c1) * (10 # 1) ^ e1) in *.
    set (my := inject_Z (Z.of_N c2) * (10 # 1) ^ e2) in *.
    assert (Pq : 0 < mx / my) by (apply Qlt_shift_div_l; [assumption | lra]).
    assert (Ny : ~ my == 0) by lra.
    unfold roundHalfUp.
    assert (Sign : (if n1 then -1 else 1) * inject_Z (Z.of_N c1) * (10 # 1) ^ e1
                   / ((if n2 then -1 else 1) * inject_Z (Z.of_N c2) * (10 # 1) ^ e2)
                   == (if xorb n1 n2 then -1 else 1) * (mx / my)).
    { assert (N2 : ~ inject_Z (Z.of_N c2) == 0) by (apply inject_Z_nonzero; lia).
      assert (P2 : ~ (10 # 1) ^ e2 == 0) by (apply Qpower_not_0; discriminate).
      unfold mx, my in *.
      destruct n1, n2; cbn [xorb]; field; repeat split; assumption. }
    rewrite (Qleb_comp 0 0 (Qeq_refl 0) _ _ Sign).
    assert (A : Qabs ((if n1 then -1 else 1) * inject_Z (Z.of_N c1) * (10 # 1) ^ e1
                      / ((if n2 then -1 else 1) * inject_Z (Z.of_N c2) * (10 # 1) ^ e2))
                == mx / my).
    { rewrite Sign. destruct (xorb n1 n2).
      - setoid_replace (-1 * (mx / my)) with (- (mx / my)) by ring.
        rewrite Qabs_opp. apply Qabs_pos. lra.
      - setoid_replace (1 * (mx / my)) with (mx / my) by ring.
        apply Qabs_pos. lra. }
    assert (F : Qfloor (Qabs ((if n1 then -1 else 1) * inject_Z (Z.of_N c1) * (10 # 1) ^ e1
                      / ((if n2 then -1 else 1) * inject_Z (Z.of_N c2) * (10 # 1) ^ e2))
                        * inject_Z (10 ^ DECIMAL_PLACES) + (1 # 2))
                = Qfloor (mx / my * inject_Z (10 ^ DECIMAL_PLACES) + (1 # 2))).
    { apply Qfloor_comp. rewrite A. reflexivity. }
    rewrite F.
    assert (T : (10 # 1) ^ (- DECIMAL_PLACES) == / inject_Z (10 ^ DECIMAL_PLACES))
      by reflexivity.
    rewrite T.
    destruct (xorb n1 n2).
    + assert (L : Qle_bool 0 (-1 * (mx / my)) = false).
      { destruct (Qle_bool 0 (-1 * (mx / my))) eqn:B; [|reflexivity].
        apply Qle_bool_iff in B. lra. }
      rewrite L. unfold Qdiv. ring.
    + assert (L : Qle_bool 0 (1 * (mx / my)) = true) by (apply Qle_bool_iff; lra).
      rewrite L. unfold Qdiv. ring.
Qed.

Lemma isZero_toQ x : isFinite x = true -> (isZero x = true <-> toQ x == 0).
Proof.
  destruct x as [| |n c e]; try discriminate. intros _. cbn [isZero toQ].
  pose proof (ten_pos e) as P. split.
  - intros H. apply N.eqb_eq in H. subst c. change (inject_Z (Z.of_N 0)) with 0. ring.
  - intros H. apply N.eqb_eq.
    destruct (N.eq_dec c 0) as [|Hc]; [assumption|]. exfalso.
    assert (0 < inject_Z (Z.of_N c)).
    { change 0 with (inject_Z 0). rewrite <- Zlt_Qlt. lia. }
    assert (0 < inject_Z (Z.of_N c) * (10 # 1) ^ e) by (apply Qmult_lt_0_compat; assumption).
    destruct n; lra.
Qed.


Lemma min_spec x y :
  isFinite x = true -> isFinite y = true ->
  isFinite (BN.min x y) = true /\ toQ (BN.min x y) == Qmin (toQ x) (toQ y).
Proof.
  intros Hx Hy. unfold BN.min.
  replace (isNaN y) with false by (destruct y; try discriminate; reflexivity).
  destruct (isGreaterThan x y) eqn:E.
  - apply isGreaterThan_spec in E; try assumption.
    split; [assumption|]. rewrite Q.min_r by lra. reflexivity.
  - assert (~ toQ y < toQ x) as N.
    { intros H. apply isGreaterThan_spec in H; try assumption. congruence. }
    split; [assumption|]. rewrite Q.min_l by lra. reflexivity.
Qed.

Lemma min_NaN y : BN.min NaN y = NaN.
Proof. destruct y; reflexivity. Qed.

(** 0 / 0, and anything over NaN, is NaN. *)
Lemma dividedBy_zero x y :
  isZero x = true -> isNaN y = true \/ isZero y = true -> dividedBy x y = NaN.
Proof.
  destruct x as [| |n1 c1 e1]; try discriminate. cbn [isZero]. intros Hx.
  destruct y as [| |n2 c2 e2]; cbn [isNaN isZero]; intros [H|H]; try discriminate.
  - reflexivity.
  - cbn [dividedBy]. rewrite H, Hx. reflexivity.
Qed.

(** Rounding leaves a number of at most DECIMAL_PLACES decimals as it is. *)
Lemma roundHalfUp_exact (k : Z) :
  roundHalfUp (inject_Z k / inject_Z (10 ^ DECIMAL_PLACES))
  == inject_Z k / inject_Z (10 ^ DECIMAL_PLACES).
Proof.
  unfold roundHalfUp.
  set (d := (10 ^ DECIMAL_PLACES)%Z).
  assert (Hd : (0 < d)%Z) by (unfold d; reflexivity).
  assert (Hq : 0 < inject_Z d) by (change 0 with (inject_Z 0); rewrite <- Zlt_Qlt; exact Hd).
  assert (Habs : Qabs (inject_Z k / inject_Z d) * inject_Z d == inject_Z (Z.abs k)).
  { rewrite <- (Qabs_pos (inject_Z d)) at 2 by lra.
    rewrite <- Qabs_Qmult.
    assert (E : inject_Z k / inject_Z d * inject_Z d == inject_Z k) by (field; lra).
    rewrite E. unfold Qabs, inject_Z. reflexivity. }
  assert (Hfloor : Qfloor (Qabs (inject_Z k / inject_Z d) * inject_Z d + (1 # 2)) = Z.abs k).
  { rewrite Habs.
    pose proof (Qfloor_le (inject_Z (Z.abs k) + (1 # 2))) as Lo.
    pose proof (Qlt_floor (inject_Z (Z.abs k) + (1 # 2))) as Hi.
    set (f := Qfloor (inject_Z (Z.abs k) + (1 # 2))) in *.
    assert (L1 : inject_Z f < inject_Z (Z.abs k + 1)).
    { rewrite inject_Z_plus. change (inject_Z 1) with 1. lra. }
    assert (L2 : inject_Z (Z.abs k) < inject_Z (f + 1)) by lra.
    rewrite <- Zlt_Qlt in L1, L2. lia. }
  rewrite Hfloor.
  destruct (Qle_bool 0 (inject_Z k / inject_Z d)) eqn:S.
  - apply Qle_bool_iff in S.
    assert (0 <= inject_Z k).
    { setoid_replace (inject_Z k) with (inject_Z k / inject_Z d * inject_Z d) by (field; lra).
      apply Qmult_le_0_compat; lra. }
    assert (0 <= k)%Z by (rewrite Zle_Qle; assumption).
    rewrite Z.abs_eq by assumption. field. lra.
  - assert (N : ~ 0 <= inject_Z k / inject_Z d) by (rewrite <- Qle_bool_iff, S; discriminate).
    assert (inject_Z k < 0).
    { apply Qnot_le_lt. intros P. apply N. apply Qle_shift_div_l; lra. }
    assert (k < 0)%Z by (rewrite Zlt_Qlt; assumption).
    rewrite Z.abs_neq by lia. rewrite inject_Z_opp. field. lra.
Qed.

End BNFacts.

(* ===================================================================== *)
(** * Facts about strings and dictionaries *)
(* ===================================================================== *)

Module JSFacts.

Lemma lookup_assign {V} key (value : V) obj :
  JS.lookup key (JS.assign key value obj) = Some value.
Proof. simpl. rewrite String.eqb_refl. reflexivity. Qed.

Lemma lowerChar_idempotent c : JS.lowerChar (JS.lowerChar c) = JS.lowerChar c.
Proof. destruct c as [[] [] [] [] [] [] [] []]; reflexivity. Qed.

Lemma toLowerCase_idempotent s :
  JS.toLowerCase (JS.toLowerCase s) = JS.toLowerCase s.
Proof.
  unfold JS.toLowerCase.
  induction s as [|c s IH]; simpl; [reflexivity|].
  rewrite IH, lowerChar_idempotent. reflexivity.
Qed.

End JSFacts.

(* ===================================================================== *)
(** * The collateral formula *)
(* ===================================================================== *)

Module UtilsFacts.
Import BN BNFacts Utils.

Lemma calculateNeededCollateral_value priceFloor priceCap qtyMultiplier qty price :
  isFinite priceFloor = true -> isFinite priceCap = true ->
  isFinite qtyMultiplier = true -> isFinite qty = true -> isFinite price = true ->
  isFinite (calculateNeededCollateral priceFloor priceCap qtyMultiplier qty price) = true /\
  toQ (calculateNeededCollateral priceFloor priceCap qtyMultiplier qty price)
  == maxLossQ (isPositive qty) (toQ priceFloor) (toQ priceCap) (toQ price)
     * Qabs (toQ qty) * toQ qtyMultiplier.
Proof.
  intros Hf Hc Hm Hq Hp. unfold calculateNeededCollateral.
  set (maxLoss := if isPositive qty then _ else _).
  assert (HL : isFinite maxLoss = true /\
               toQ maxLoss == maxLossQ (isPositive qty) (toQ priceFloor) (toQ priceCap) (toQ price)).
  { unfold maxLoss, maxLossQ. destruct (isPositive qty).
    - destruct (lte price priceFloor) eqn:E.
      + apply lte_spec in E; try assumption.
        split; [apply ofInt_spec|]. rewrite (proj2 (ofInt_spec 0)).
        rewrite Q.max_l by lra. reflexivity.
      + assert (~ toQ price <= toQ priceFloor) as N.
        { intros H. apply lte_spec in H; try assumption. congruence. }
        destruct (minus_spec price priceFloor Hp Hf) as [F V].
        split; [assumption|]. rewrite V, Q.max_r by lra. reflexivity.
    - destruct (gte price priceCap) eqn:E.
      + apply gte_spec in E; try assumption.
        split; [apply ofInt_spec|]. rewrite (proj2 (ofInt_spec 0)).
        rewrite Q.max_l by lra. reflexivity.
      + assert (~ toQ priceCap <= toQ price) as N.
        { intros H. apply gte_spec in H; try assumption. congruence. }
        destruct (minus_spec priceCap price Hc Hp) as [F V].
        split; [assumption|]. rewrite V, Q.max_r by lra. reflexivity. }
  destruct HL as [FL VL].
  destruct (absoluteValue_spec qty) as [FA VA]. rewrite Hq in FA.
  destruct (times_spec maxLoss (absoluteValue qty) FL FA) as [F1 V1].
  destruct (times_spec _ qtyMultiplier F1 Hm) as [F2 V2].
  split; [assumption|]. rewrite V2, V1, VL, VA. reflexivity.
Qed.

(** C1. On finite numbers, calculateNeededCollateral is the function
    maxLoss x |qty| x qtyMultiplier of its five arguments (a pure function:
    it reads and writes nothing else), with maxLoss = max(0, price -
    priceFloor) for a positive quantity and max(0, priceCap - price) for a
    negative one. *)
Theorem calculateNeededCollateral_formula priceFloor priceCap qtyMultiplier qty price :
  isFinite priceFloor = true -> isFinite priceCap = true ->
  isFinite qtyMultiplier = true -> isFinite qty = true -> isFinite price = true ->
  let needed := calculateNeededCollateral priceFloor priceCap qtyMultiplier qty price in
  isFinite needed = true /\
  (0 < toQ qty ->
   toQ needed == Qmax 0 (toQ price - toQ priceFloor) * Qabs (toQ qty) * toQ qtyMultiplier) /\
  (toQ qty < 0 ->
   toQ needed == Qmax 0 (toQ priceCap - toQ price) * Qabs (toQ qty) * toQ qtyMultiplier).
Proof.
  intros Hf Hc Hm Hq Hp needed.
  destruct (calculateNeededCollateral_value _ _ _ _ _ Hf Hc Hm Hq Hp) as [F V].
  destruct (isPositive_sign qty Hq) as [Pos Neg].
  split; [assumption|]. split; intros Hs; unfold needed; rewrite V.
  - rewrite (Pos Hs). reflexivity.
  - rewrite (Neg Hs). reflexivity.
Qed.



(** At or below the floor a buy order can lose nothing: the needed
    collateral is a zero, or NaN when the quantity or the multiplier is not
    finite. *)
Lemma calculateNeededCollateral_at_floor priceFloor priceCap qtyMultiplier qty price :
  isPositive qty = true -> lte price priceFloor = true ->
  let needed := calculateNeededCollateral priceFloor priceCap qtyMultiplier qty price in
  (isNaN needed = true \/ isZero needed = true) /\
  (isFinite qty = true -> isFinite qtyMultiplier = true -> isZero needed = true).
Proof.
  intros Hq Hp. unfold calculateNeededCollateral. rewrite Hq, Hp.
  change (ofInt 0) with (Finite false 0 0).
  destruct qty as [| |n c e]; try discriminate.
  - cbn. split; [left; reflexivity | discriminate].
  - cbn [absoluteValue times xorb N.mul]. unfold normalise at 2. cbn [N.eqb].
    destruct qtyMultiplier as [| |n2 c2 e2].
    + split; [left; reflexivity | discriminate].
    + split; [left; reflexivity | discriminate].
    + cbn. split; [right; reflexivity | reflexivity].
Qed.

(** ** The formula on the test contract *)

Lemma calculateNeededCollateral_formula_run :
  toQ (calculateNeededCollateral (ofInt 50000) (ofInt 150000) (ofInt 1000)
         (ofInt 100) (ofInt 100000))
  == Qmax 0 (toQ (ofInt 100000) - toQ (ofInt 50000)) * Qabs (toQ (ofInt 100))
     * toQ (ofInt 1000).
Proof.
  destruct (calculateNeededCollateral_formula (ofInt 50000) (ofInt 150000) (ofInt 1000)
              (ofInt 100) (ofInt 100000)) as (_ & Long & _); [reflexivity ..|].
  apply Long. reflexivity.
Defined.


End UtilsFacts.

(* ===================================================================== *)
(** * Running the wrappers *)
(* ===================================================================== *)

Module ChainFacts.
Import BN Chain Ledgers JSFacts RemainingFillableCalculator.

(** ** Running binds *)

Lemma bind_resolves {A B} (m : M A) (f : A -> M B) w st c st' a :
  m w st = {| calls := c; state := st'; result := inr a |} ->
  bind m f w st =
  {| calls := c ++ calls (f a w st'); state := state (f a w st');
     result := result (f a w st') |}.
Proof. intros H. unfold bind. rewrite H. reflexivity. Qed.

Lemma bind_rejects {A B} (m : M A) (f : A -> M B) w st c st' e :
  m w st = {| calls := c; state := st'; result := inl e |} ->
  bind m f w st = {| calls := c; state := st'; result := inl e |}.
Proof. intros H. unfold bind. rewrite H. reflexivity. Qed.

Lemma result_bind {A B} (m : M A) (f : A -> M B) w st :
  result (bind m f w st)
  = match result (m w st) with
    | inl e => inl e
    | inr a => result (f a w (state (m w st)))
    end.
Proof. unfold bind. destruct (result (m w st)); reflexivity. Qed.


Lemma getERC20TokenContractAsync_run w st tokenAddress :
  ContractWrapper.getERC20TokenContractAsync tokenAddress w st =
  {| calls := []; state := withTokenContract st tokenAddress;
     result := inr (tokenContractIn st tokenAddress) |}.
Proof.
  unfold ContractWrapper.getERC20TokenContractAsync, withTokenContract, tokenContractIn.
  unfold bind, getState. cbn.
  destruct (JS.lookup _ _); reflexivity.
Qed.



Lemma tokenContractIn_normalized st a :
  tokenContractIn (withTokenContract st (JS.toLowerCase a)) a
  = tokenContractIn st (JS.toLowerCase a).
Proof.
  unfold tokenContractIn, withTokenContract. rewrite toLowerCase_idempotent.
  destruct (JS.lookup _ (_tokenContractsByAddress st)) eqn:E.
  - rewrite E. reflexivity.
  - cbn. rewrite String.eqb_refl. reflexivity.
Qed.




Lemma withTokenContract_sets st a :
  _contractSetByMarketContractAddress (withTokenContract st a)
  = _contractSetByMarketContractAddress st.
Proof. unfold withTokenContract. destruct (JS.lookup _ _); reflexivity. Qed.

Lemma createNewMarketContractSet_run l st a :
  ContractWrapper.createNewMarketContractSetFromMarketContractAddressAsync a
    (answering l) st =
  {| calls := [Get_MARKET_COLLATERAL_POOL_ADDRESS a; Get_COLLATERAL_TOKEN_ADDRESS a];
     state := withTokenContract st (collateralTokenOf l a);
     result := inr {| marketContract := a;
                      marketCollateralPool := collateralPoolOf l a;
                      collateralToken := tokenContractIn st (collateralTokenOf l a) |} |}.
Proof.
  unfold ContractWrapper.createNewMarketContractSetFromMarketContractAddressAsync.
  repeat (erewrite bind_resolves
            by first [reflexivity | apply getERC20TokenContractAsync_run]).
  reflexivity.
Qed.

Lemma getContractSet_run l st a :
  ContractWrapper._getContractSetByMarketContractAddressAsync a (answering l) st =
  {| calls := contractSetCalls st a; state := withContractSet l st a;
     result := inr (contractSetIn l st a) |}.
Proof.
  unfold ContractWrapper._getContractSetByMarketContractAddressAsync,
    contractSetCalls, withContractSet, contractSetIn.
  unfold bind at 1. cbn [getState result state calls].
  destruct (JS.lookup _ (_contractSetByMarketContractAddress st)) eqn:E; [reflexivity|].
  repeat (erewrite bind_resolves
            by first [reflexivity | apply createNewMarketContractSet_run]).
  cbn. rewrite withTokenContract_sets. reflexivity.
Qed.

Lemma getContractSet_cached w st a contractSet :
  JS.lookup (JS.toLowerCase a) (_contractSetByMarketContractAddress st)
  = Some contractSet ->
  ContractWrapper._getContractSetByMarketContractAddressAsync a w st =
  {| calls := []; state := st; result := inr contractSet |}.
Proof.
  intros H. unfold ContractWrapper._getContractSetByMarketContractAddressAsync.
  unfold bind at 1. cbn [getState result state calls]. rewrite H. reflexivity.
Qed.

Lemma withContractSet_cached l st a :
  JS.lookup (JS.toLowerCase a)
    (_contractSetByMarketContractAddress (withContractSet l st a))
  = Some (contractSetIn l st a).
Proof.
  unfold withContractSet, contractSetIn.
  destruct (JS.lookup _ (_contractSetByMarketContractAddress st)) eqn:E.
  - assumption.
  - cbn. rewrite String.eqb_refl. reflexivity.
Qed.

Lemma assert_holds message w st :
  Assert.assert true message w st = {| calls := []; state := st; result := inr tt |}.
Proof. reflexivity. Qed.

Lemma isETHAddressHex_run name a w st :
  Assert.matchesETHAddress a = true ->
  Assert.isETHAddressHex name a w st = {| calls := []; state := st; result := inr tt |}.
Proof. intros H. unfold Assert.isETHAddressHex. rewrite H. reflexivity. Qed.

Lemma isSenderAddressAsync_run l name a st :
  Assert.matchesETHAddress a = true -> JS.includes (accounts l) a = true ->
  Assert.isSenderAddressAsync name a (answering l) st =
  {| calls := [Call_getAccounts]; state := st; result := inr tt |}.
Proof.
  intros Hx Hi. unfold Assert.isSenderAddressAsync.
  repeat (erewrite bind_resolves
            by first [reflexivity | apply isETHAddressHex_run; assumption]).
  cbn. rewrite Hi. reflexivity.
Qed.

Lemma getBalanceAsync_run l st token owner :
  Assert.matchesETHAddress owner = true -> Assert.matchesETHAddress token = true ->
  ContractWrapper.getBalanceAsync token owner (answering l) st =
  {| calls := [Call_balanceOf (tokenContractIn st (JS.toLowerCase token)) owner];
     state := withTokenContract st (JS.toLowerCase token);
     result := inr (tokenBalance l (tokenContractIn st (JS.toLowerCase token)) owner) |}.
Proof.
  intros Ho Ht. unfold ContractWrapper.getBalanceAsync.
  repeat (erewrite bind_resolves
            by first [ reflexivity
                     | apply isETHAddressHex_run; assumption
                     | apply getERC20TokenContractAsync_run ]).
  reflexivity.
Qed.

Lemma getAllowanceAsync_run l st token owner spender :
  Assert.matchesETHAddress owner = true -> Assert.matchesETHAddress token = true ->
  Assert.matchesETHAddress spender = true -> JS.includes (accounts l) owner = true ->
  ContractWrapper.getAllowanceAsync token owner spender (answering l) st =
  {| calls := [Call_getAccounts;
                Call_allowance (tokenContractIn st token) owner spender];
     state := withTokenContract st token;
     result := inr (tokenAllowance l (tokenContractIn st token) owner spender) |}.
Proof.
  intros Ho Ht Hs Hi. unfold ContractWrapper.getAllowanceAsync.
  repeat (erewrite bind_resolves
            by first [ reflexivity
                     | apply isETHAddressHex_run; assumption
                     | apply isSenderAddressAsync_run; assumption
                     | apply getERC20TokenContractAsync_run ]).
  reflexivity.
Qed.


Lemma calculateNeededCollateralAsync_cached l st a contractSet qty price :
  JS.lookup (JS.toLowerCase a) (_contractSetByMarketContractAddress st)
  = Some contractSet ->
  ContractWrapper.calculateNeededCollateralAsync a qty price (answering l) st =
  {| calls := [Get_PRICE_FLOOR (marketContract contractSet);
                Get_PRICE_CAP (marketContract contractSet);
                Get_QTY_MULTIPLIER (marketContract contractSet)];
     state := st;
     result := inr (Utils.calculateNeededCollateral
                      (priceFloor l (marketContract contractSet))
                      (priceCap l (marketContract contractSet))
                      (qtyMultiplier l (marketContract contractSet)) qty price) |}.
Proof.
  intros H. unfold ContractWrapper.calculateNeededCollateralAsync.
  erewrite bind_resolves by (apply getContractSet_cached; eassumption).
  repeat (erewrite bind_resolves by reflexivity).
  reflexivity.
Qed.

Lemma getQtyFilledOrCancelledFromOrderAsync_cached l st a contractSet h :
  JS.lookup (JS.toLowerCase a) (_contractSetByMarketContractAddress st)
  = Some contractSet ->
  ContractWrapper.getQtyFilledOrCancelledFromOrderAsync a h (answering l) st =
  {| calls := [Call_getQtyFilledOrCancelledFromOrder (marketContract contractSet) h];
     state := st;
     result := inr (qtyFilledOrCancelled l (marketContract contractSet) h) |}.
Proof.
  intros H. unfold ContractWrapper.getQtyFilledOrCancelledFromOrderAsync.
  erewrite bind_resolves by (apply getContractSet_cached; eassumption).
  reflexivity.
Qed.


(** ** Which computations submit a fill *)

Lemma submissions_app cs cs' :
  submissions (cs ++ cs') = (submissions cs + submissions cs')%nat.
Proof. unfold submissions. rewrite filter_app, length_app. reflexivity. Qed.

Lemma silent_ret {A} (a : A) : silent (ret a).
Proof. intros w st. reflexivity. Qed.

Lemma silent_reject {A} e : silent (@reject A e).
Proof. intros w st. reflexivity. Qed.

Lemma silent_ask {A} (f : World -> A) : silent (ask f).
Proof. intros w st. reflexivity. Qed.

Lemma silent_getState : silent getState.
Proof. intros w st. reflexivity. Qed.

Lemma silent_putState st' : silent (putState st').
Proof. intros w st. reflexivity. Qed.

Lemma silent_await {A} c (answer : World -> string + A) :
  isSubmission c = false -> silent (await c answer).
Proof. intros H w st. unfold submissions. cbn. rewrite H. reflexivity. Qed.

Lemma silent_bind {A B} (m : M A) (f : A -> M B) :
  silent m -> (forall a, silent (f a)) -> silent (bind m f).
Proof.
  intros Hm Hf w st. unfold bind. specialize (Hm w st).
  destruct (result (m w st)) as [e|a]; cbn [calls]; [assumption|].
  rewrite submissions_app, Hm. apply Hf.
Qed.

Lemma silent_assert c msg : silent (Assert.assert c msg).
Proof. destruct c; [apply silent_ret | apply silent_reject]. Qed.

Ltac silence :=
  repeat first
    [ apply silent_ret | apply silent_reject | apply silent_ask
    | apply silent_getState | apply silent_putState | apply silent_assert
    | apply silent_await; reflexivity
    | apply silent_bind; [|intros ?]
    | progress unfold rejectWith
    | match goal with
      | |- silent (if ?c then _ else _) => destruct c
      | |- silent (match ?x with _ => _ end) => destruct x
      end
    | assumption ].

Lemma silent_isETHAddressHex name a : silent (Assert.isETHAddressHex name a).
Proof. unfold Assert.isETHAddressHex. silence. Qed.

Lemma silent_isSenderAddressAsync name a : silent (Assert.isSenderAddressAsync name a).
Proof. unfold Assert.isSenderAddressAsync. pose proof silent_isETHAddressHex. silence. Qed.

Lemma silent_isSchemaValid o : silent (Assert.isSchemaValid o).
Proof. unfold Assert.isSchemaValid. silence. Qed.

Lemma silent_getERC20TokenContractAsync a :
  silent (ContractWrapper.getERC20TokenContractAsync a).
Proof. unfold ContractWrapper.getERC20TokenContractAsync. silence. Qed.

Lemma silent_createNewMarketContractSet a :
  silent (ContractWrapper.createNewMarketContractSetFromMarketContractAddressAsync a).
Proof.
  unfold ContractWrapper.createNewMarketContractSetFromMarketContractAddressAsync.
  pose proof silent_getERC20TokenContractAsync. silence.
Qed.

Lemma silent_getContractSet a :
  silent (ContractWrapper._getContractSetByMarketContractAddressAsync a).
Proof.
  unfold ContractWrapper._getContractSetByMarketContractAddressAsync.
  pose proof silent_createNewMarketContractSet. silence.
Qed.

Lemma silent_getBalanceAsync t o : silent (ContractWrapper.getBalanceAsync t o).
Proof.
  unfold ContractWrapper.getBalanceAsync.
  pose proof silent_isETHAddressHex. pose proof silent_getERC20TokenContractAsync.
  silence.
Qed.

Lemma silent_getAllowanceAsync t o s : silent (ContractWrapper.getAllowanceAsync t o s).
Proof.
  unfold ContractWrapper.getAllowanceAsync.
  pose proof silent_isETHAddressHex. pose proof silent_isSenderAddressAsync.
  pose proof silent_getERC20TokenContractAsync. silence.
Qed.

Lemma silent_getUserUnallocatedCollateralBalanceAsync a u :
  silent (ContractWrapper.getUserUnallocatedCollateralBalanceAsync a u).
Proof.
  unfold ContractWrapper.getUserUnallocatedCollateralBalanceAsync.
  pose proof silent_getContractSet. silence.
Qed.

Lemma silent_calculateNeededCollateralAsync a q p :
  silent (ContractWrapper.calculateNeededCollateralAsync a q p).
Proof.
  unfold ContractWrapper.calculateNeededCollateralAsync.
  pose proof silent_getContractSet. silence.
Qed.

Lemma silent_getCurrentUnixTimestampSec : silent ContractWrapper.getCurrentUnixTimestampSec.
Proof. unfold ContractWrapper.getCurrentUnixTimestampSec. silence. Qed.

Lemma submitsLast_bind {A} o q t (m : M A) f w st :
  silent m -> (forall a st', submitsLast o q t w (f a w st')) ->
  submitsLast o q t w (bind m f w st).
Proof.
  intros Hm Hf. unfold bind. specialize (Hm w st).
  destruct (result (m w st)) as [e|a] eqn:E.
  - split; cbn [result calls]; [intros; assumption | discriminate].
  - destruct (Hf a (state (m w st))) as [H1 H2].
    split; cbn [result calls].
    + intros e He. rewrite submissions_app, Hm. apply (H1 e He).
    + intros info Hi. destruct (H2 info Hi) as (reads & -> & Hr & Ho & Ht).
      exists (calls (m w st) ++ reads). rewrite List.app_assoc.
      repeat split; try assumption. rewrite submissions_app, Hm, Hr. reflexivity.
Qed.

Lemma submitsLast_rejectWith o q t w st e :
  submitsLast o q t w (rejectWith e w st).
Proof. split; [reflexivity | discriminate]. Qed.

Ltac submits_last_step :=
  first
    [ intros ?st; apply submitsLast_rejectWith
    | intros ?st; apply submitsLast_bind;
      [ first [ apply silent_isSchemaValid | apply silent_getContractSet
              | apply silent_getCurrentUnixTimestampSec | apply silent_ask
              | apply silent_getBalanceAsync | apply silent_getAllowanceAsync
              | apply silent_getUserUnallocatedCollateralBalanceAsync
              | apply silent_calculateNeededCollateralAsync
              | apply silent_isETHAddressHex
              | apply silent_await; reflexivity ]
      | intros ? ]
    | match goal with
      | |- forall st, submitsLast _ _ _ _ ((if ?c then _ else _) _ st) => destruct c
      end ].

Lemma tradeOrderAsync_submitsLast w st signedOrder fillQty txParams :
  submitsLast signedOrder fillQty txParams w
    (ContractWrapper.tradeOrderAsync signedOrder fillQty txParams w st).
Proof.
  unfold ContractWrapper.tradeOrderAsync. revert st.
  repeat submits_last_step.
  intros st'. unfold bind, await, ret. cbn [calls result state].
  destruct (tradeOrderTx w _ _ _ _) as [msg|hash] eqn:E; cbn [result calls].
  - split; discriminate.
  - split; [discriminate|]. intros info [= <-]. exists []. cbn.
    repeat split. assumption.
Qed.





(** ** Computations that leave the contract sets alone *)

Lemma keeps_ret {A} (a : A) : keepsContractSets (ret a).
Proof. intros w st. reflexivity. Qed.

Lemma keeps_reject {A} e : keepsContractSets (@reject A e).
Proof. intros w st. reflexivity. Qed.

Lemma keeps_ask {A} (f : World -> A) : keepsContractSets (ask f).
Proof. intros w st. reflexivity. Qed.

Lemma keeps_await {A} c (answer : World -> string + A) : keepsContractSets (await c answer).
Proof. intros w st. reflexivity. Qed.

Lemma keeps_assert c msg : keepsContractSets (Assert.assert c msg).
Proof. destruct c; [apply keeps_ret | apply keeps_reject]. Qed.

Lemma keeps_bind {A B} (m : M A) (f : A -> M B) :
  keepsContractSets m -> (forall a, keepsContractSets (f a)) ->
  keepsContractSets (bind m f).
Proof.
  intros Hm Hf w st. unfold bind. specialize (Hm w st).
  destruct (result (m w st)) as [e|a]; cbn [state]; [assumption|].
  rewrite Hf. assumption.
Qed.

Lemma keeps_getERC20TokenContractAsync a :
  keepsContractSets (ContractWrapper.getERC20TokenContractAsync a).
Proof.
  intros w st. unfold ContractWrapper.getERC20TokenContractAsync, bind, getState.
  cbn. destruct (JS.lookup _ _); reflexivity.
Qed.

Ltac keep :=
  repeat first
    [ apply keeps_ret | apply keeps_reject | apply keeps_ask | apply keeps_assert
    | apply keeps_await | apply keeps_getERC20TokenContractAsync
    | apply keeps_bind; [|intros ?]
    | progress unfold rejectWith, Assert.isETHAddressHex, Assert.isSenderAddressAsync
    | match goal with
      | |- keepsContractSets (if ?c then _ else _) => destruct c
      end
    | assumption ].

Lemma keeps_getBalanceAsync t o : keepsContractSets (ContractWrapper.getBalanceAsync t o).
Proof. unfold ContractWrapper.getBalanceAsync. keep. Qed.

Lemma keeps_getAllowanceAsync t o s :
  keepsContractSets (ContractWrapper.getAllowanceAsync t o s).
Proof. unfold ContractWrapper.getAllowanceAsync. keep. Qed.

Lemma keeps_getAvailableFeeFunds this a : keepsContractSets (_getAvailableFeeFunds this a).
Proof.
  unfold _getAvailableFeeFunds.
  pose proof keeps_getBalanceAsync. pose proof keeps_getAllowanceAsync. keep.
Qed.

Lemma keeps_hasMakerSufficientFundsForFee this :
  keepsContractSets (_hasMakerSufficientFundsForFee this).
Proof. unfold _hasMakerSufficientFundsForFee. pose proof keeps_getAvailableFeeFunds. keep. Qed.

Lemma keeps_hasTakerSufficientFundsForFee this :
  keepsContractSets (_hasTakerSufficientFundsForFee this).
Proof. unfold _hasTakerSufficientFundsForFee. pose proof keeps_getAvailableFeeFunds. keep. Qed.

(** The market contract and the pool of a contract set depend on the
    dictionary of contract sets only. *)
Lemma contractSetIn_market l st st' a :
  _contractSetByMarketContractAddress st' = _contractSetByMarketContractAddress st ->
  marketContract (contractSetIn l st' a) = marketContract (contractSetIn l st a) /\
  marketCollateralPool (contractSetIn l st' a) = marketCollateralPool (contractSetIn l st a).
Proof.
  intros H. unfold contractSetIn. rewrite H.
  destruct (JS.lookup _ _); split; reflexivity.
Qed.

Lemma getUserUnallocatedCollateralBalanceAsync_run l st a user :
  ContractWrapper.getUserUnallocatedCollateralBalanceAsync a user (answering l) st =
  {| calls := contractSetCalls st a
              ++ [Call_getUserAccountBalance
                    (marketCollateralPool (contractSetIn l st a)) user];
     state := withContractSet l st a;
     result := inr (userAccountBalance l
                      (marketCollateralPool (contractSetIn l st a)) user) |}.
Proof.
  unfold ContractWrapper.getUserUnallocatedCollateralBalanceAsync.
  erewrite bind_resolves by apply getContractSet_run. reflexivity.
Qed.

Lemma getAvailableCollateral_run l st this account :
  _getAvailableCollateral this account (answering l) st =
  {| calls := contractSetCalls st (contractAddress (_signedOrder this))
              ++ [Call_getUserAccountBalance
                    (marketCollateralPool
                       (contractSetIn l st (contractAddress (_signedOrder this))))
                    account];
     state := withContractSet l st (contractAddress (_signedOrder this));
     result := inr (userAccountBalance l
                      (marketCollateralPool
                         (contractSetIn l st (contractAddress (_signedOrder this))))
                      account) |}.
Proof.
  unfold _getAvailableCollateral, Market.getUserUnallocatedCollateralBalanceAsync.
  erewrite bind_resolves by apply getUserUnallocatedCollateralBalanceAsync_run.
  cbn. rewrite List.app_nil_r. reflexivity.
Qed.

End ChainFacts.

(* ===================================================================== *)
(** * The trade precondition pipeline *)
(* ===================================================================== *)

Module TradeFacts.
Import BN Chain Ledgers JSFacts ChainFacts.







Section OnALedger.
Variables (l : Ledger) (st : WrapperState) (signedOrder : SignedOrder)
          (fillQty : BigNumber) (txParams : ITxParams).

Let market := marketContract (contractSetIn l st (contractAddress signedOrder)).



End OnALedger.




(** ** The fill on the test contract *)





End TradeFacts.

(* ===================================================================== *)
(** * The remaining fillable quantity *)
(* ===================================================================== *)

Module FillableFacts.
Import BN BNFacts Chain Ledgers JSFacts ChainFacts TradeFacts UtilsFacts.
Import RemainingFillableCalculator.

(** ** The calculator on a chain that answers *)

Section MakerFillable.
Variables (l : Ledger) (st : WrapperState) (this : Calculator).

(** When the maker passes the fee sub-check, the maker fillable quantity is
    the minimum the source computes, of the values the ledger holds. *)
Lemma computeRemainingMakerFillable_result :
  result (_hasMakerSufficientFundsForFee this (answering l) st) = inr true ->
  result (computeRemainingMakerFillable this (answering l) st)
  = inr (BN.min (times (dividedBy (makerAvailableCollateral l st this)
                          (neededCollateral l st this))
                   (orderQty (theOrder this)))
                (minus (orderQty (theOrder this)) (alreadyFilledOrCancelled l st this))).
Proof.
  intros Hfee. unfold computeRemainingMakerFillable.
  rewrite result_bind, Hfee. cbv beta. change (negb true) with false. cbv iota.
  set (st1 := state (_hasMakerSufficientFundsForFee this (answering l) st)).
  assert (Hsets : _contractSetByMarketContractAddress st1
                  = _contractSetByMarketContractAddress st)
    by apply keeps_hasMakerSufficientFundsForFee.
  destruct (contractSetIn_market l st st1 (contractAddress (_signedOrder this)) Hsets)
    as [Hm Hp].
  unfold Market.calculateNeededCollateralAsync,
    Market.getQtyFilledOrCancelledFromOrderAsync.
  erewrite bind_resolves by apply getAvailableCollateral_run.
  erewrite bind_resolves
    by (apply calculateNeededCollateralAsync_cached; apply withContractSet_cached).
  erewrite bind_resolves
    by (apply getQtyFilledOrCancelledFromOrderAsync_cached; apply withContractSet_cached).
  cbn [result ret].
  unfold makerAvailableCollateral, neededCollateral, alreadyFilledOrCancelled,
    theContractSet, theOrder.
  rewrite Hm, Hp. reflexivity.
Qed.

End MakerFillable.

Section FeeFunds.
Variables (l : Ledger) (st : WrapperState) (this : Calculator) (account : address).

Let spender := feeRecipient (_signedOrder this).


End FeeFunds.

(** ** The dictionaries after the maker's part *)






Section TakerFillable.
Variables (l : Ledger) (st : WrapperState) (this : Calculator).

Let o := _signedOrder this.
Let mkt := tokenContractIn st (mktToken l).

Hypothesis Hmkt : Assert.matchesETHAddress (mktToken l) = true.
Hypothesis Hrecipient : Assert.matchesETHAddress (feeRecipient o) = true.
Hypothesis Hmaker : Assert.matchesETHAddress (maker o) = true.
Hypothesis Imaker : JS.includes (accounts l) (maker o) = true.
Hypothesis Hfee :
  result (_hasMakerSufficientFundsForFee this (answering l) st) = inr true.




Hypothesis Hnamed : String.eqb (taker o) NULL_ADDRESS = false.
Hypothesis Htaker : Assert.matchesETHAddress (taker o) = true.
Hypothesis Itaker : JS.includes (accounts l) (taker o) = true.

Let pool := marketCollateralPool (contractSetIn l st (contractAddress o)).






End TakerFillable.


(** ** The maker's fillable quantity *)

(** C4, as the code has it. For a buy order whose maker passes the fee
    sub-check and whose needed collateral for the full quantity is positive,
    computeRemainingMakerFillable resolves with the minimum of
    q x orderQty and orderQty - alreadyFilledOrCancelled, where q is the
    library's quotient available / needed: the exact quotient rounded half
    up to 20 decimal places. It is the minimum of the exact
    (available / needed) x orderQty and orderQty - alreadyFilledOrCancelled
    whenever the exact quotient has at most 20 decimals. With quantity 100,
    2 already filled and available collateral 50/100 of the needed one, the
    result is 50. *)
Theorem computeRemainingMakerFillable_buy (l : Ledger) (st : WrapperState) (this : Calculator) :
  let order := _signedOrder this in
  let available := makerAvailableCollateral l st this in
  let needed := neededCollateral l st this in
  let filled := alreadyFilledOrCancelled l st this in
  result (_hasMakerSufficientFundsForFee this (answering l) st) = inr true ->
  isPositive (orderQty order) = true ->
  isFinite needed = true -> 0 < toQ needed ->
  exists fillable,
    result (computeRemainingMakerFillable this (answering l) st) = inr fillable /\
    fillable = BN.min (times (dividedBy available needed) (orderQty order))
                 (minus (orderQty order) filled) /\
    (isFinite available = true -> isFinite (orderQty order) = true ->
     isFinite filled = true ->
     isFinite fillable = true /\
     toQ fillable == Qmin (roundHalfUp (toQ available / toQ needed) * toQ (orderQty order))
                       (toQ (orderQty order) - toQ filled) /\
     (forall k : Z,
        toQ available / toQ needed == inject_Z k / inject_Z (10 ^ DECIMAL_PLACES) ->
        toQ fillable == Qmin (toQ available / toQ needed * toQ (orderQty order))
                          (toQ (orderQty order) - toQ filled)) /\
     (toQ (orderQty order) == 100 -> toQ filled == 2 ->
      toQ available == (50 # 100) * toQ needed -> toQ fillable == 50)).
Proof.
  intros order available needed filled Hfee _ Hn Hpos.
  exists (BN.min (times (dividedBy available needed) (orderQty order))
            (minus (orderQty order) filled)).
  split; [apply computeRemainingMakerFillable_result; exact Hfee|].
  split; [reflexivity|].
  intros Ha Hq Hf.
  assert (Hz : isZero needed = false).
  { destruct (isZero needed) eqn:E; [|reflexivity].
    apply isZero_toQ in E; [|assumption]. lra. }
  destruct (dividedBy_spec available needed Ha Hn Hz) as [Fd Vd].
  destruct (times_spec _ (orderQty order) Fd Hq) as [Ft Vt].
  destruct (minus_spec (orderQty order) filled Hq Hf) as [Fm Vm].
  destruct (min_spec _ _ Ft Fm) as [Fr Vr].
  assert (V : toQ (BN.min (times (dividedBy available needed) (orderQty order))
                     (minus (orderQty order) filled))
              == Qmin (roundHalfUp (toQ available / toQ needed) * toQ (orderQty order))
                   (toQ (orderQty order) - toQ filled)).
  { rewrite Vr. apply Q.min_compat; [rewrite Vt, Vd; reflexivity | assumption]. }
  split; [assumption|]. split; [assumption|]. split.
  { intros k Hk. rewrite V.
    assert (Er : roundHalfUp (toQ available / toQ needed) == toQ available / toQ needed).
    { rewrite Hk. apply roundHalfUp_exact. }
    rewrite Er. reflexivity. }
  intros Eq Ef Ea. rewrite V.
  assert (Er : roundHalfUp (toQ available / toQ needed) == 1 # 2).
  { assert (E : toQ available / toQ needed == 1 # 2) by (rewrite Ea; field; lra).
    rewrite E. reflexivity. }
  rewrite Q.min_l; rewrite Er, Eq, ?Ef; [reflexivity | lra].
Qed.

(** C7. When the taker of the order is the null address,
    computeRemainingTakerFillable is computeRemainingMakerFillable: the same
    result after the same calls in the same order, so no call for the taker's
    allowance, balance or collateral, and the same dictionaries. *)
Theorem computeRemainingTakerFillable_open (this : Calculator) (w : World) (st : WrapperState) :
  taker (_signedOrder this) = NULL_ADDRESS ->
  computeRemainingTakerFillable this w st = computeRemainingMakerFillable this w st.
Proof.
  intros Hopen. unfold computeRemainingTakerFillable. rewrite Hopen, String.eqb_refl.
  unfold bind at 1.
  destruct (computeRemainingMakerFillable this w st) as [c s [e|v]]; cbn.
  - reflexivity.
  - rewrite List.app_nil_r. reflexivity.
Qed.

(** C10. The division is not guarded: for a buy order priced at or below the
    floor of its contract (needed collateral zero), whose maker passes the
    fee sub-check and has zero available collateral,
    computeRemainingMakerFillable resolves with NaN. *)
Theorem computeRemainingMakerFillable_NaN (l : Ledger) (st : WrapperState) (this : Calculator) :
  let order := _signedOrder this in
  let market := marketContract (theContractSet l st this) in
  result (_hasMakerSufficientFundsForFee this (answering l) st) = inr true ->
  isPositive (orderQty order) = true ->
  lte (price order) (priceFloor l market) = true ->
  isZero (makerAvailableCollateral l st this) = true ->
  (isFinite (orderQty order) = true -> isFinite (qtyMultiplier l market) = true ->
   isZero (neededCollateral l st this) = true) /\
  result (computeRemainingMakerFillable this (answering l) st) = inr NaN.
Proof.
  intros order market Hfee Hq Hp Ha.
  destruct (calculateNeededCollateral_at_floor (priceFloor l market) (priceCap l market)
              (qtyMultiplier l market) (orderQty order) (price order) Hq Hp) as [Hn Hz].
  split; [exact Hz|].
  rewrite (computeRemainingMakerFillable_result l st this Hfee).
  rewrite (dividedBy_zero (makerAvailableCollateral l st this)
             (neededCollateral l st this) Ha Hn).
  cbn [times]. rewrite min_NaN. reflexivity.
Qed.

(** C3, on a sell order. The maker sells 100, 2 of them are filled (counted
    as -2, or as 2), and the collateral is abundant: BigNumber.min of the two
    negative quantities -2000 and -98 (or -102) is -2000, whose magnitude
    exceeds the 98 that remain. *)
Theorem computeRemainingMakerFillable_sell_exceeds :
  let this := Scenario.calculator (Scenario.order (ofInt (-100)) (ofInt 0)) in
  let run filled :=
    result (computeRemainingMakerFillable this
              (answering (Scenario.ledger Scenario.funded Scenario.funded filled))
              newWrapper) in
  run (ofInt (-2)) = inr (ofInt (-2000)) /\
  run (ofInt 2) = inr (ofInt (-2000)) /\
  isGreaterThan (absoluteValue (ofInt (-2000)))
    (minus (absoluteValue (ofInt (-100))) (absoluteValue (ofInt (-2)))) = true.
Proof. vm_compute. repeat split; reflexivity. Qed.

(** ** The theorems at work on the test contract *)

Lemma computeRemainingMakerFillable_buy_50 :
  result (computeRemainingMakerFillable
            (Scenario.calculator (Scenario.order (ofInt 100) (ofInt 10)))
            (answering (Scenario.ledger (Scenario.supporting 50) Scenario.funded (ofInt 2)))
            newWrapper)
  = inr (ofInt 50).
Proof.
  destruct (computeRemainingMakerFillable_buy
              (Scenario.ledger (Scenario.supporting 50) Scenario.funded (ofInt 2))
              newWrapper
              (Scenario.calculator (Scenario.order (ofInt 100) (ofInt 10))))
    as (fillable & Hrun & Hmin & _).
  - vm_compute. reflexivity.
  - reflexivity.
  - reflexivity.
  - vm_compute. reflexivity.
  - rewrite Hrun, Hmin. vm_compute. reflexivity.
Defined.

(** A buy order of quantity 3 whose maker holds two thirds of the collateral
    it needs (100000000 of 150000000): the exact formula gives 2, the code
    2.00000000000000000001, the quotient being rounded up in its 20th
    decimal before it is multiplied by 3. *)
Lemma computeRemainingMakerFillable_buy_rounded :
  let account := {| Scenario.mktBalance := ofInt 1000; Scenario.mktAllowance := ofInt 1000;
                    Scenario.collateral := ofInt 100000000 |} in
  let l := Scenario.ledger account Scenario.funded (ofInt 0) in
  let this := Scenario.calculator (Scenario.order (ofInt 3) (ofInt 10)) in
  let available := makerAvailableCollateral l newWrapper this in
  let needed := neededCollateral l newWrapper this in
  let filled := alreadyFilledOrCancelled l newWrapper this in
  let fillable := Finite false 200000000000000000001 (-20) in
  result (_hasMakerSufficientFundsForFee this (answering l) newWrapper) = inr true /\
  isPositive (orderQty (_signedOrder this)) = true /\
  toString available = "100000000"%string /\
  toString needed = "150000000"%string /\
  result (computeRemainingMakerFillable this (answering l) newWrapper) = inr fillable /\
  toString fillable = "2.00000000000000000001"%string /\
  Qeq_bool (Qmin (toQ available / toQ needed * toQ (orderQty (_signedOrder this)))
              (toQ (orderQty (_signedOrder this)) - toQ filled)) 2 = true /\
  Qeq_bool (toQ fillable) 2 = false.
Proof. vm_compute. repeat split. Qed.

Lemma computeRemainingTakerFillable_open_run :
  computeRemainingTakerFillable
    (Scenario.calculator (Scenario.order (ofInt 100) (ofInt 10)))
    (answering (Scenario.ledger (Scenario.supporting 50) Scenario.funded (ofInt 2)))
    newWrapper
  = computeRemainingMakerFillable
      (Scenario.calculator (Scenario.order (ofInt 100) (ofInt 10)))
      (answering (Scenario.ledger (Scenario.supporting 50) Scenario.funded (ofInt 2)))
      newWrapper.
Proof. apply computeRemainingTakerFillable_open. reflexivity. Defined.

Lemma computeRemainingMakerFillable_NaN_at_floor :
  result (computeRemainingMakerFillable
            (Scenario.calculator (Scenario.orderAt (ofInt 50000) (ofInt 100) (ofInt 10)))
            (answering (Scenario.ledger (Scenario.supporting 0) Scenario.funded (ofInt 0)))
            newWrapper)
  = inr NaN.
Proof.
  apply (computeRemainingMakerFillable_NaN
           (Scenario.ledger (Scenario.supporting 0) Scenario.funded (ofInt 0))
           newWrapper
           (Scenario.calculator (Scenario.orderAt (ofInt 50000) (ofInt 100) (ofInt 10)))).
  - vm_compute. reflexivity.
  - reflexivity.
  - vm_compute. reflexivity.
  - vm_compute. reflexivity.
Defined.



End FillableFacts.

(* ===================================================================== *)
(** * Standardized contract names *)
(* ===================================================================== *)

Module NameFacts.
Import BN BNFacts JS Utils.

(** ** Strings *)

Lemma append_empty (a : string) : (a ++ "" = a)%string.
Proof. induction a as [|x a IH]; simpl; [reflexivity | rewrite IH; reflexivity]. Qed.

Lemma length_append (a b : string) :
  String.length (a ++ b) = (String.length a + String.length b)%nat.
Proof. induction a as [|x a IH]; simpl; [reflexivity | rewrite IH; reflexivity]. Qed.

Lemma allChars_append p (a b : string) :
  allChars p (a ++ b) = allChars p a && allChars p b.
Proof.
  induction a as [|x a IH]; simpl; [reflexivity|].
  rewrite IH, andb_assoc. reflexivity.
Qed.

Lemma allChars_weaken (p q : ascii -> bool) s :
  (forall c, p c = true -> q c = true) -> allChars p s = true -> allChars q s = true.
Proof.
  intros Hpq. induction s as [|x s IH]; simpl; [reflexivity|].
  intros H. apply andb_prop in H. destruct H as [Hx Hs].
  rewrite (Hpq _ Hx), (IH Hs). reflexivity.
Qed.

Lemma slice_append k s : (sliceTo k s ++ sliceFrom k s = s)%string.
Proof.
  revert s. induction k as [|k IH]; intros [|x s]; simpl; try reflexivity.
  rewrite IH. reflexivity.
Qed.

Lemma length_sliceFrom k s :
  String.length (sliceFrom k s) = (String.length s - k)%nat.
Proof.
  revert s. induction k as [|k IH]; intros [|x s]; simpl; try reflexivity.
  apply IH.
Qed.

Lemma allChars_sliceTo p k s : allChars p s = true -> allChars p (sliceTo k s) = true.
Proof.
  revert s. induction k as [|k IH]; intros [|x s]; simpl; try reflexivity.
  intros H. apply andb_prop in H. destruct H as [Hx Hs].
  rewrite Hx, (IH _ Hs). reflexivity.
Qed.

Lemma allChars_sliceFrom p k s : allChars p s = true -> allChars p (sliceFrom k s) = true.
Proof.
  revert s. induction k as [|k IH]; intros [|x s]; simpl; try reflexivity.
  - intros H; exact H.
  - intros H. apply andb_prop in H. destruct H as [_ Hs]. apply IH, Hs.
Qed.

(** ** Splitting *)

Lemma split_cons sep s : exists piece pieces, split sep s = piece :: pieces.
Proof.
  induction s as [|x s (piece & pieces & IH)]; simpl.
  - eexists _, _. reflexivity.
  - destruct (Ascii.eqb x sep); [eexists _, _; reflexivity|].
    rewrite IH. eexists _, _. reflexivity.
Qed.

Lemma split_whole sep s :
  allChars (fun c => negb (Ascii.eqb c sep)) s = true -> split sep s = [s].
Proof.
  induction s as [|x s IH]; simpl; [reflexivity|].
  intros H. apply andb_prop in H. destruct H as [Hx Hs].
  apply negb_true_iff in Hx. rewrite Hx, (IH Hs). reflexivity.
Qed.

Lemma split_append sep a rest :
  allChars (fun c => negb (Ascii.eqb c sep)) a = true ->
  split sep (a ++ String sep rest) = a :: split sep rest.
Proof.
  induction a as [|x a IH]; simpl.
  - intros _. rewrite Ascii.eqb_refl. reflexivity.
  - intros H. apply andb_prop in H. destruct H as [Hx Ha].
    apply negb_true_iff in Hx. rewrite Hx, (IH Ha). reflexivity.
Qed.

Lemma upperChar_notUnderscore c : notUnderscore c = true -> notUnderscore (upperChar c) = true.
Proof. destruct c as [[] [] [] [] [] [] [] []]; intros H; try reflexivity; exact H. Qed.

Lemma toUpperCase_notUnderscore s :
  allChars notUnderscore s = true -> allChars notUnderscore (toUpperCase s) = true.
Proof.
  unfold toUpperCase. induction s as [|x s IH]; simpl; [reflexivity|].
  intros H. apply andb_prop in H. destruct H as [Hx Hs].
  rewrite (upperChar_notUnderscore _ Hx), (IH Hs). reflexivity.
Qed.

(** ** Digits *)

Lemma isDigit_digitChar d : (d < 10)%N -> isDigit (digitChar d) = true.
Proof.
  intros H. unfold isDigit, digitChar. rewrite N_ascii_embedding by lia.
  apply andb_true_intro. split; apply N.leb_le; lia.
Qed.

Lemma digitOf_digitChar d : (d < 10)%N -> digitOf (digitChar d) = Some d.
Proof.
  intros H. unfold digitOf. rewrite (isDigit_digitChar d H).
  unfold digitChar. rewrite N_ascii_embedding by lia. f_equal. lia.
Qed.

Lemma readDigits_append a b acc :
  readDigits (a ++ b) acc
  = match readDigits a acc with Some v => readDigits b v | None => None end.
Proof.
  revert acc. induction a as [|x a IH]; intros acc; simpl; [reflexivity|].
  destruct (digitOf x); [apply IH | reflexivity].
Qed.

Lemma readDigits_zeros k acc : readDigits (zeros k) acc = Some (acc * 10 ^ N.of_nat k)%N.
Proof.
  revert acc. induction k as [|k IH]; intros acc.
  - simpl. f_equal. lia.
  - cbn [zeros readDigits]. change (digitOf "0") with (Some 0%N). cbv iota.
    rewrite IH. f_equal. rewrite Nat2N.inj_succ, N.pow_succ_r'. lia.
Qed.

Lemma length_zeros k : String.length (zeros k) = k.
Proof. induction k as [|k IH]; simpl; [reflexivity | rewrite IH; reflexivity]. Qed.

Lemma allChars_zeros k : allChars isDigit (zeros k) = true.
Proof. induction k as [|k IH]; simpl; [reflexivity | exact IH]. Qed.

(** The digits of [n] are digits, at least one, and read back as [n]. *)
Lemma digits_spec fuel n :
  (n < 2 ^ N.of_nat fuel)%N ->
  let str := digits (S fuel) n in
  allChars isDigit str = true /\
  (0 < String.length str)%nat /\
  forall acc, readDigits str acc = Some (acc * 10 ^ N.of_nat (String.length str) + n)%N.
Proof.
  revert n. induction fuel as [|fuel IH]; intros n Hn; cbv zeta.
  - assert (n = 0%N) by (simpl in Hn; lia). subst n.
    split; [reflexivity|]. split; [cbn; lia|].
    intros acc. cbn. f_equal; lia.
  - change (digits (S (S fuel)) n)
      with ((if (n <? 10)%N then EmptyString else digits (S fuel) (n / 10)%N)
            ++ String (digitChar (n mod 10)%N) EmptyString)%string.
    assert (Hd : (n mod 10 < 10)%N) by (apply N.mod_lt; lia).
    destruct (N.ltb_spec n 10) as [Small|Big].
    + cbn [append allChars String.length]. rewrite (isDigit_digitChar _ Hd).
      split; [reflexivity|]. split; [lia|]. intros acc. cbn [readDigits].
      rewrite (digitOf_digitChar _ Hd). f_equal. rewrite N.mod_small by lia.
      change (N.of_nat 1) with 1%N. lia.
    + assert (Hq : (n / 10 < 2 ^ N.of_nat fuel)%N).
      { rewrite Nat2N.inj_succ, N.pow_succ_r' in Hn.
        apply N.Div0.div_lt_upper_bound. lia. }
      destruct (IH _ Hq) as (Hall & Hlen & Hread).
      rewrite allChars_append, length_append, Hall. cbn [allChars String.length].
      rewrite (isDigit_digitChar _ Hd).
      split; [reflexivity|]. split; [lia|].
      intros acc. rewrite readDigits_append, Hread. cbn [readDigits].
      rewrite (digitOf_digitChar _ Hd). f_equal.
      replace (String.length (digits (S fuel) (n / 10)) + 1)%nat
        with (S (String.length (digits (S fuel) (n / 10)))) by lia.
      rewrite Nat2N.inj_succ, N.pow_succ_r'.
      pose proof (N.div_mod n 10 ltac:(lia)). lia.
Qed.

Lemma coeffToString_spec c :
  let str := coeffToString c in
  allChars isDigit str = true /\
  (0 < String.length str)%nat /\
  forall acc, readDigits str acc = Some (acc * 10 ^ N.of_nat (String.length str) + c)%N.
Proof.
  apply digits_spec. rewrite N2Nat.id. apply N.size_gt.
Qed.


(** ** Reading numerals *)

Lemma breakAt_miss p s :
  allChars (fun c => negb (p c)) s = true -> breakAt p s = (s, None).
Proof.
  induction s as [|x s IH]; simpl; [reflexivity|].
  intros H. apply andb_prop in H. destruct H as [Hx Hs].
  apply negb_true_iff in Hx. rewrite Hx, (IH Hs). reflexivity.
Qed.

Lemma breakAt_hit p a c rest :
  allChars (fun c => negb (p c)) a = true -> p c = true ->
  breakAt p (a ++ String c rest) = (a, Some rest).
Proof.
  intros Ha Hc. induction a as [|x a IH]; simpl.
  - rewrite Hc. reflexivity.
  - simpl in Ha. apply andb_prop in Ha. destruct Ha as [Hx Ha].
    apply negb_true_iff in Hx. rewrite Hx, (IH Ha). reflexivity.
Qed.

(** A digit is none of the other characters of a numeral, and no
    underscore. *)
Lemma digit_only c :
  isDigit c = true ->
  isExponentMark c = false /\ isPoint c = false /\
  Ascii.eqb c "-" = false /\ Ascii.eqb c "+" = false /\ notUnderscore c = true.
Proof.
  destruct c as [[] [] [] [] [] [] [] []]; intros H; try discriminate H;
    repeat split; reflexivity.
Qed.

Lemma digits_without p s :
  (forall c, isDigit c = true -> p c = false) ->
  allChars isDigit s = true -> allChars (fun c => negb (p c)) s = true.
Proof.
  intros Hp. apply allChars_weaken. intros c Hc. rewrite (Hp c Hc). reflexivity.
Qed.

Lemma readExponent_exponentText e : readExponent (exponentText e) = Some e.
Proof.
  destruct (coeffToString_spec (Z.abs_N e)) as (_ & Hlen & Hread).
  unfold readExponent, exponentText.
  destruct (Z.ltb_spec e 0) as [Neg|Pos];
    [change (Ascii.eqb "-" "-") with true | change (Ascii.eqb "+" "-") with false;
                                            change (Ascii.eqb "+" "+") with true];
    cbv iota; destruct (coeffToString (Z.abs_N e)) as [|d ds] eqn:E;
    try (simpl in Hlen; lia); rewrite Hread; f_equal; lia.
Qed.

(** A numeral of digits [int], an optional point with digits [fraction]
    after it and an optional exponent reads as the digits at the exponent
    less the length of the fraction. *)
Lemma readNumber_numeral (int : string) (point : option string) (exponent : option Z) :
  let fraction := match point with Some f => f | None => EmptyString end in
  allChars isDigit int = true -> allChars isDigit fraction = true ->
  (0 < String.length (int ++ fraction))%nat ->
  let numeral :=
    ((int ++ match point with Some f => String "." f | None => EmptyString end)
     ++ match exponent with
        | Some x => String "e" (exponentText x)
        | None => EmptyString
        end)%string in
  exists c,
    readDigits (int ++ fraction) 0 = Some c /\
    readNumber numeral
    = Some (c, (match exponent with Some x => x | None => 0 end
                - Z.of_nat (String.length fraction))%Z) /\
    allChars notUnderscore numeral = true /\
    ((0 < String.length int)%nat ->
     exists d rest, numeral = String d rest /\ Ascii.eqb d "-" = false).
Proof.
  intros fraction Hint Hfrac Hlen numeral.
  assert (Hmant : allChars (fun c => negb (isExponentMark c))
                    (int ++ match point with Some f => String "." f | None => EmptyString end)
                  = true).
  { rewrite allChars_append.
    rewrite (digits_without isExponentMark int)
      by (assumption || (intros; apply digit_only; assumption)).
    destruct point as [f|]; [|reflexivity]. cbn [allChars andb].
    change (negb (isExponentMark ".")) with true. cbn [andb].
    apply digits_without; [intros; apply digit_only; assumption | exact Hfrac]. }
  assert (Hi : allChars (fun c => negb (isPoint c)) int = true).
  { apply digits_without; [intros; apply digit_only; assumption | exact Hint]. }
  assert (Hall : allChars isDigit (int ++ fraction) = true).
  { rewrite allChars_append, Hint, Hfrac. reflexivity. }
  assert (Hc : exists c, readDigits (int ++ fraction) 0 = Some c).
  { clear - Hall. generalize 0%N. induction (int ++ fraction)%string as [|x s IH]; intros acc.
    - eexists; reflexivity.
    - simpl in Hall. apply andb_prop in Hall. destruct Hall as [Hx Hs].
      simpl. unfold digitOf. rewrite Hx. apply IH, Hs. }
  destruct Hc as [c Hc]. exists c. split; [exact Hc|].
  split; [|split].
  2:{ unfold numeral. rewrite !allChars_append.
      rewrite (allChars_weaken isDigit notUnderscore int)
        by (assumption || (intros; apply digit_only; assumption)).
      assert (Hp : allChars notUnderscore
                     match point with Some f => String "." f | None => EmptyString end = true).
      { destruct point as [f|]; [|reflexivity]. cbn [allChars].
        change (notUnderscore ".") with true. cbn [andb].
        apply (allChars_weaken isDigit); [intros; apply digit_only; assumption | exact Hfrac]. }
      rewrite Hp. destruct exponent as [x|]; [|reflexivity].
      unfold exponentText. cbn [allChars andb].
      change (notUnderscore "e") with true.
      replace (notUnderscore (if (x <? 0)%Z then "-" else "+")%char) with true
        by (destruct (x <? 0)%Z; reflexivity).
      cbn [andb]. apply (allChars_weaken isDigit);
        [intros; apply digit_only; assumption | apply coeffToString_spec]. }
  2:{ intros Hnonempty. unfold numeral.
      destruct int as [|d ds]; [simpl in Hnonempty; lia|].
      cbn [append]. eexists _, _. split; [reflexivity|].
      simpl in Hint. apply andb_prop in Hint. apply digit_only, Hint. }
  unfold numeral, readNumber.
  replace (breakAt isExponentMark _)
    with (int ++ match point with Some f => String "." f | None => EmptyString end,
          match exponent with Some x => Some (exponentText x) | None => None end)%string.
  2:{ destruct exponent as [x|].
      - rewrite breakAt_hit; [reflexivity | exact Hmant | reflexivity].
      - rewrite append_empty, breakAt_miss; [reflexivity | exact Hmant]. }
  replace (breakAt isPoint _) with (int, point).
  2:{ destruct point as [f|].
      - rewrite breakAt_hit; [reflexivity | exact Hi | reflexivity].
      - rewrite append_empty, breakAt_miss; [reflexivity | exact Hi]. }
  fold fraction.
  destruct (int ++ fraction)%string as [|d ds] eqn:E; [simpl in Hlen; lia|].
  rewrite Hc. destruct exponent as [x|].
  - rewrite readExponent_exponentText. reflexivity.
  - reflexivity.
Qed.


(** What [toString] writes for a coefficient and an exponent reads back as
    the same quantity, starts with a digit and holds no underscore. *)
Lemma readNumber_printed c e :
  let str := coeffToString c in
  let e1 := (e + Z.of_nat (String.length str) - 1)%Z in
  let body :=
    if (e1 <=? TO_EXP_NEG)%Z || (TO_EXP_POS <=? e1)%Z
    then toExponential str e1 else toFixedPoint str e1 in
  exists c' e',
    readNumber body = Some (c', e') /\
    inject_Z (Z.of_N c') * (10 # 1) ^ e' == inject_Z (Z.of_N c) * (10 # 1) ^ e /\
    allChars notUnderscore body = true /\
    exists d rest, body = String d rest /\ Ascii.eqb d "-" = false.
Proof.
  intros str e1 body.
  destruct (coeffToString_spec c) as (Hall & Hlen & Hread). fold str in Hall, Hlen, Hread.
  assert (Hstr : readDigits str 0 = Some c) by (rewrite Hread; f_equal; lia).
  assert (Shape : exists int point exponent c',
            let fraction := match point with Some f => f | None => EmptyString end in
            body = ((int ++ match point with Some f => String "." f | None => EmptyString end)
                    ++ match exponent with
                       | Some x => String "e" (exponentText x)
                       | None => EmptyString
                       end)%string /\
            allChars isDigit int = true /\ allChars isDigit fraction = true /\
            (0 < String.length int)%nat /\
            readDigits (int ++ fraction) 0 = Some c' /\
            inject_Z (Z.of_N c')
            * (10 # 1) ^ (match exponent with Some x => x | None => 0 end
                          - Z.of_nat (String.length fraction))
            == inject_Z (Z.of_N c) * (10 # 1) ^ e).
  { unfold body.
    destruct ((e1 <=? TO_EXP_NEG)%Z || (TO_EXP_POS <=? e1)%Z).
    - (* exponential notation *)
      assert (Hexp : forall mantissa,
                (mantissa ++ (if (e1 <? 0)%Z then "e" else "e+")
                 ++ (if (e1 <? 0)%Z then "-" else "") ++ coeffToString (Z.abs_N e1))%string
                = (mantissa ++ String "e" (exponentText e1))%string).
      { intros mantissa. unfold exponentText. destruct (e1 <? 0)%Z; reflexivity. }
      unfold toExponential. rewrite Hexp.
      destruct str as [|d [|d' others]] eqn:E; [simpl in Hlen; lia | |].
      + exists (String d EmptyString), None, (Some e1), c. cbv zeta.
        split; [rewrite append_empty; reflexivity|].
        split; [exact Hall|]. split; [reflexivity|]. split; [simpl; lia|].
        split; [exact Hstr|].
        replace (e1 - Z.of_nat (String.length ""))%Z with e
          by (unfold e1; simpl String.length; lia).
        reflexivity.
      + exists (String d EmptyString), (Some (String d' others)), (Some e1), c. cbv zeta.
        split; [reflexivity|].
        simpl in Hall. apply andb_prop in Hall. destruct Hall as [Hd Hothers].
        split; [simpl; rewrite Hd; reflexivity|]. split; [exact Hothers|].
        split; [simpl; lia|]. split; [exact Hstr|].
        replace (e1 - Z.of_nat (String.length (String d' others)))%Z with e
          by (unfold e1; cbn [String.length]; lia).
        reflexivity.
    - (* fixed-point notation *)
      unfold toFixedPoint. destruct (Z.ltb_spec e1 0) as [Neg|NonNeg].
      + exists "0"%string, (Some (zeros (Z.to_nat (- e1 - 1)) ++ str)%string), None, c.
        cbv zeta.
        split; [rewrite append_empty; reflexivity|].
        split; [reflexivity|].
        split; [rewrite allChars_append, allChars_zeros, Hall; reflexivity|].
        split; [simpl; lia|].
        split.
        { change ("0" ++ zeros (Z.to_nat (- e1 - 1)) ++ str)%string
            with (zeros (S (Z.to_nat (- e1 - 1))) ++ str)%string.
          rewrite readDigits_append, readDigits_zeros. exact Hstr. }
        rewrite length_append, length_zeros.
        replace (0 - Z.of_nat (Z.to_nat (- e1 - 1) + String.length str))%Z with e
          by (unfold e1 in *; lia).
        reflexivity.
      + destruct (Z.ltb_spec (Z.of_nat (String.length str)) (e1 + 1)) as [Short|NotShort].
        * set (k := Z.to_nat (e1 + 1 - Z.of_nat (String.length str))).
          exists (str ++ zeros k)%string, None, None, (c * 10 ^ N.of_nat k)%N. cbv zeta.
          split; [rewrite !append_empty; reflexivity|].
          split; [rewrite allChars_append, allChars_zeros, Hall; reflexivity|].
          split; [reflexivity|].
          split; [rewrite length_append; lia|].
          split.
          { rewrite append_empty, readDigits_append, Hstr. apply readDigits_zeros. }
          simpl String.length. change (0 - Z.of_nat 0)%Z with 0%Z.
          rewrite N2Z.inj_mul, N2Z.inj_pow, nat_N_Z.
          replace (Z.of_nat k) with (e - 0)%Z by (unfold k, e1 in *; lia).
          apply shift_exponent. unfold e1 in *. lia.
        * destruct (Z.ltb_spec (e1 + 1) (Z.of_nat (String.length str))) as [Inside|Exact].
          -- set (j := Z.to_nat (e1 + 1)).
             exists (sliceTo j str), (Some (sliceFrom j str)), None, c. cbv zeta.
             split; [rewrite append_empty; reflexivity|].
             split; [apply allChars_sliceTo, Hall|].
             split; [apply allChars_sliceFrom, Hall|].
             split.
             { assert (j <> 0)%nat by (unfold j; lia).
               destruct j as [|j']; [lia|]. destruct str; [simpl in Hlen; lia|].
               simpl. lia. }
             split; [rewrite slice_append; exact Hstr|].
             rewrite length_sliceFrom.
             replace (0 - Z.of_nat (String.length str - j))%Z with e
               by (unfold j, e1 in *; lia).
             reflexivity.
          -- exists str, None, None, c. cbv zeta.
             split; [rewrite !append_empty; reflexivity|].
             split; [exact Hall|]. split; [reflexivity|]. split; [exact Hlen|].
             split; [rewrite append_empty; exact Hstr|].
             simpl String.length.
             replace (0 - Z.of_nat 0)%Z with e by (unfold e1 in *; lia).
             reflexivity. }
  destruct Shape as (int & point & exponent & c' & Hbody & Hint & Hfrac & Hnonempty & Hc' & Hvalue).
  cbv zeta in Hfrac, Hc', Hvalue.
  destruct (readNumber_numeral int point exponent Hint Hfrac) as (c'' & Hread' & Hnumber & Hclean & Hfirst).
  { rewrite length_append. lia. }
  rewrite Hc' in Hread'. injection Hread' as <-.
  rewrite <- Hbody in Hnumber, Hclean, Hfirst.
  eexists c', _. split; [exact Hnumber|]. split; [exact Hvalue|].
  split; [exact Hclean|]. apply Hfirst, Hnonempty.
Qed.

(** A BigNumber read back from its string is the same number; the string
    holds no underscore. *)
Lemma ofString_toString x :
  allChars notUnderscore (toString x) = true /\
  (isNaN x = true -> ofString (toString x) = NaN) /\
  (isNaN x = false -> isEqualTo (ofString (toString x)) x = true).
Proof.
  destruct x as [|neg|neg c e].
  - repeat split. discriminate.
  - destruct neg; repeat split; discriminate.
  - split; [|split; [discriminate|]]; cbn [toString].
    + destruct (c =? 0)%N; [reflexivity|].
      destruct (readNumber_printed c e) as (c' & e' & _ & _ & Hclean & _).
      destruct neg; [cbn [allChars]; change (notUnderscore "-") with true|]; exact Hclean.
    + intros _. destruct (N.eqb_spec c 0) as [Zero|NonZero].
      * subst c. destruct neg; reflexivity.
      * destruct (readNumber_printed c e) as (c' & e' & Hread & Hvalue & _ & d & rest & Hbody & Hd).
        set (body := if (_ || _) then _ else _) in *.
        assert (Hof : ofString (if neg then String "-" body else body) = normalise neg c' e').
        { unfold ofString. destruct neg.
          - change (Ascii.eqb "-" "-") with true. cbv iota. rewrite Hread. reflexivity.
          - rewrite Hbody, Hd, <- Hbody, Hread. reflexivity. }
        rewrite Hof.
        destruct (normalise_spec neg c' e') as (c2 & e2 & -> & _ & Hnorm).
        apply isEqualTo_spec; try reflexivity.
        rewrite Hnorm. cbn [toQ]. rewrite <- !Qmult_assoc, Hvalue. reflexivity.
Qed.

(** The constructor does not throw on the string of a BigNumber. *)
Lemma construct_toString strict x :
  construct strict (toString x) = Some (ofString (toString x)).
Proof.
  unfold construct. destruct (ofString_toString x) as (_ & HNaN & Hequal).
  destruct x as [|neg|neg c e].
  - destruct strict; reflexivity.
  - destruct strict, neg; reflexivity.
  - specialize (Hequal eq_refl).
    destruct (ofString (toString (Finite neg c e))) eqn:E;
      [discriminate Hequal | |]; cbn [isNaN]; rewrite andb_false_r; reflexivity.
Qed.

(** ** Contract names *)

(** C9, as the code has it. A name made by createStandardizedContractName
    from a reference asset, a collateral token symbol, a data provider and a
    user text without underscores, and any expiration, parses to a record
    (not null), whether or not the constructor throws on texts that are no
    numbers: the record of the uppercased reference asset, collateral token
    symbol, data provider and user text, with an expiration equal to the
    given one as a number ([isEqualTo]) when that is not NaN. A NaN
    expiration comes back as NaN, which equals no number, itself
    included. *)
Theorem contract_name_round_trip (strict : bool)
    (referenceAssetName collateralTokenSymbol dataProvider : string)
    (expiration : BigNumber) (userText : string) :
  allChars notUnderscore referenceAssetName = true ->
  allChars notUnderscore collateralTokenSymbol = true ->
  allChars notUnderscore dataProvider = true ->
  allChars notUnderscore userText = true ->
  exists parsed,
    parseStandardizedContractName strict
      (createStandardizedContractName referenceAssetName collateralTokenSymbol
         dataProvider expiration userText)
    = Some parsed /\
    referenceAsset parsed = toUpperCase referenceAssetName /\
    collateralToken parsed = toUpperCase collateralTokenSymbol /\
    Utils.dataProvider parsed = toUpperCase dataProvider /\
    (isNaN expiration = false ->
     isEqualTo (expirationTimeStamp parsed) expiration = true) /\
    (isNaN expiration = true ->
     expirationTimeStamp parsed = NaN /\
     isEqualTo (expirationTimeStamp parsed) expiration = false) /\
    Utils.userText parsed = toUpperCase userText.
Proof.
  intros Ha Hc Hd Hu.
  apply toUpperCase_notUnderscore in Ha, Hc, Hd, Hu.
  destruct (ofString_toString expiration) as (He & HNaN & Hequal).
  unfold createStandardizedContractName, JS.concat, parseStandardizedContractName.
  cbn [fold_right append].
  rewrite append_empty.
  rewrite !split_append by assumption.
  rewrite (split_whole _ _ Hu).
  cbn [List.length Nat.ltb Nat.leb nth].
  rewrite construct_toString.
  eexists. split; [reflexivity|].
  cbn [referenceAsset collateralToken Utils.dataProvider expirationTimeStamp
       Utils.userText].
  repeat split; try assumption.
  - apply HNaN. assumption.
  - rewrite HNaN by assumption. reflexivity.
Qed.

Lemma contract_name_round_trip_run :
  exists parsed,
    parseStandardizedContractName true
      (createStandardizedContractName "btc" "dai" "oracle" (ofInt 1541120400) "v1")
    = Some parsed /\
    referenceAsset parsed = "BTC"%string /\
    collateralToken parsed = "DAI"%string /\
    Utils.dataProvider parsed = "ORACLE"%string /\
    (isNaN (ofInt 1541120400) = false ->
     isEqualTo (expirationTimeStamp parsed) (ofInt 1541120400) = true) /\
    (isNaN (ofInt 1541120400) = true ->
     expirationTimeStamp parsed = NaN /\
     isEqualTo (expirationTimeStamp parsed) (ofInt 1541120400) = false) /\
    Utils.userText parsed = "V1"%string.
Proof.
  apply (contract_name_round_trip true "btc" "dai" "oracle" (ofInt 1541120400) "v1");
    reflexivity.
Defined.

(** An expiration that is NaN: the name parses, whether the constructor
    throws on texts that are no numbers or not, and the expiration of the
    record is NaN, which is not equal to the one given. *)
Lemma contract_name_round_trip_NaN :
  let name := createStandardizedContractName "btc" "dai" "oracle" NaN "v1" in
  let parsed := {| referenceAsset := "BTC"; collateralToken := "DAI";
                   dataProvider := "ORACLE"; expirationTimeStamp := NaN;
                   userText := "V1" |} in
  name = "BTC_DAI_ORACLE_NaN_V1"%string /\
  parseStandardizedContractName false name = Some parsed /\
  parseStandardizedContractName true name = Some parsed /\
  isEqualTo (expirationTimeStamp parsed) NaN = false.
Proof. repeat split. Qed.

End NameFacts.
(* ===================================================================== *)
(** * Verifying a contract object against an ABI *)
(* ===================================================================== *)

Module ABIVerifierFacts.
Import ContractABIVerifier.

Lemma validEntries_all entries contract :
  validEntries entries contract = inr tt <->
  forall entry, In entry entries -> validEntry entry contract = inr tt.
Proof.
  induction entries as [|e entries IH]; simpl.
  - split; [intros _ entry [] | reflexivity].
  - destruct (validEntry e contract) as [message|[]] eqn:E.
    + split; [discriminate|]. intros H. specialize (H e (or_introl eq_refl)). congruence.
    + rewrite IH. split.
      * intros H entry [<-|Hin]; [exact E | apply H, Hin].
      * intros H entry Hin. apply H. right. exact Hin.
Qed.

Lemma validFunction_iff entry contract :
  _validFunction entry contract = inr tt <->
  JS.lookup (if constant entry then name entry else (name entry ++ "Tx")%string) contract
  = Some (match inputs entry with [] => None | _ => Some (List.length (inputs entry)) end).
Proof.
  unfold _validFunction.
  destruct (constant entry); cbn [negb];
    (match goal with |- context [JS.lookup ?k contract] =>
       destruct (JS.lookup k contract) as [[n|]|] end);
    destruct (inputs entry) as [|i more]; cbn [List.length Nat.eqb andb negb];
    try (split; [discriminate | intros [=]]); try (split; reflexivity);
    try (destruct (Nat.eqb_spec n (S (List.length more))) as [->|Hn]; cbn [negb];
         split; try discriminate; try reflexivity; intros [=]; congruence).
Qed.

Lemma validEvent_iff entry contract :
  _validEvent entry contract = inr tt <->
  exists member, JS.lookup (name entry ++ "Event")%string contract = Some member.
Proof.
  unfold _validEvent. destruct (JS.lookup _ contract) as [member|].
  - split; [intros _; exists member; reflexivity | reflexivity].
  - split; [discriminate | intros [member [=]]].
Qed.

(** X1. A pair verifies exactly when the contract has, for every function of the
    ABI, a member under the function's name (with Tx appended unless the
    function is constant) that has no length when the function has no
    inputs and as many parameters as the function has inputs otherwise, and
    for every event a member under the event's name with Event appended.
    Entries of other types ask nothing. *)
Theorem verifyPair_valid_iff (pair : ArtifactTypeChainPair) :
  isValid (_verifyPair pair) = true <->
  forall entry, In entry (abi (artifact pair)) ->
    (type entry = "function"%string ->
     JS.lookup (if constant entry then name entry else (name entry ++ "Tx")%string)
       (contract pair)
     = Some (match inputs entry with
             | [] => None
             | _ => Some (List.length (inputs entry))
             end)) /\
    (type entry = "event"%string ->
     exists member,
       JS.lookup (name entry ++ "Event")%string (contract pair) = Some member).
Proof.
  unfold _verifyPair.
  assert (H : isValid
                match validEntries (abi (artifact pair)) (contract pair) with
                | inl message => InvalidVerification (contract_name (artifact pair)) message
                | inr _ => ValidVerification (contract_name (artifact pair))
                end = true
              <-> validEntries (abi (artifact pair)) (contract pair) = inr tt).
  { destruct (validEntries _ _) as [message|[]]; simpl; split; congruence. }
  rewrite H, validEntries_all. clear H.
  split; intros H entry Hin; specialize (H entry Hin).
  - unfold validEntry in H. split; intros Ht; rewrite Ht in H; cbn in H.
    + apply validFunction_iff, H.
    + apply validEvent_iff, H.
  - destruct H as [Hf He]. unfold validEntry.
    destruct (String.eqb_spec (type entry) "function") as [Ht|_].
    + apply validFunction_iff, Hf, Ht.
    + destruct (String.eqb_spec (type entry) "event") as [Ht|_]; [|reflexivity].
      apply validEvent_iff, He, Ht.
Qed.

(** X2. The error of an invalid verification is the one of the first entry, in
    the order of the ABI, that the contract does not match; the entries
    after it are not looked at. *)
Theorem verifyPair_first_error (pair : ArtifactTypeChainPair)
    (matched : list AbiDefinition) (entry : AbiDefinition)
    (others : list AbiDefinition) (message : string) :
  abi (artifact pair) = matched ++ entry :: others ->
  (forall e, In e matched -> validEntry e (contract pair) = inr tt) ->
  validEntry entry (contract pair) = inl message ->
  _verifyPair pair = InvalidVerification (contract_name (artifact pair)) message.
Proof.
  intros Habi Hmatched Hentry. unfold _verifyPair. rewrite Habi.
  assert (H : validEntries (matched ++ entry :: others) (contract pair) = inl message).
  { clear Habi. induction matched as [|e matched IH]; simpl.
    - rewrite Hentry. reflexivity.
    - rewrite (Hmatched e (or_introl eq_refl)). apply IH.
      intros e' Hin. apply Hmatched. right. exact Hin. }
  rewrite H. reflexivity.
Qed.

(** X3. Entries that are neither functions nor events (constructors, fallbacks)
    do not count: leaving them out of the ABI gives the same verification. *)
Theorem verifyPair_functions_and_events (pair : ArtifactTypeChainPair) :
  _verifyPair
    {| artifact :=
         {| abi := filter (fun e => String.eqb (type e) "function"
                                    || String.eqb (type e) "event")
                     (abi (artifact pair));
            contract_name := contract_name (artifact pair) |};
       contract := contract pair |}
  = _verifyPair pair.
Proof.
  unfold _verifyPair. cbn [artifact abi contract contract_name].
  assert (H : validEntries
                (filter (fun e => String.eqb (type e) "function"
                                  || String.eqb (type e) "event")
                   (abi (artifact pair))) (contract pair)
              = validEntries (abi (artifact pair)) (contract pair)).
  { induction (abi (artifact pair)) as [|e entries IH]; [reflexivity|].
    cbn [filter]. destruct (String.eqb (type e) "function") eqn:Ef; cbn [orb].
    - cbn [validEntries]. rewrite IH. reflexivity.
    - destruct (String.eqb (type e) "event") eqn:Ee.
      + cbn [validEntries]. rewrite IH. reflexivity.
      + cbn [validEntries]. unfold validEntry at 1. rewrite Ef, Ee. exact IH. }
  rewrite H. reflexivity.
Qed.

(** A token ABI against a generated contract object: the event and the
    constant getter match, the transaction method of a function without
    inputs has a length (0) and does not. *)
Lemma verifyPair_first_error_run :
  _verifyPair
    {| artifact :=
         {| abi := [ {| type := "event"; name := "Transfer"; constant := false;
                        inputs := ["address"; "address"; "uint256"] |};
                     {| type := "function"; name := "totalSupply"; constant := true;
                        inputs := [] |};
                     {| type := "function"; name := "settleAndClose"; constant := false;
                        inputs := [] |};
                     {| type := "function"; name := "approve"; constant := false;
                        inputs := ["address"; "uint256"] |} ]%string;
            contract_name := "MarketCollateralPool" |};
       contract := [ ("TransferEvent", None); ("totalSupply", None);
                     ("settleAndCloseTx", Some 0%nat) ]%string |}
  = InvalidVerification "MarketCollateralPool"
      "abi function [settleAndClose] argument mismatch".
Proof.
  match goal with
  | |- _verifyPair ?pair = InvalidVerification _ ?message =>
      apply (verifyPair_first_error pair
               [ {| type := "event"; name := "Transfer"; constant := false;
                    inputs := ["address"; "address"; "uint256"] |};
                 {| type := "function"; name := "totalSupply"; constant := true;
                    inputs := [] |} ]%string
               {| type := "function"; name := "settleAndClose"; constant := false;
                  inputs := [] |}
               [ {| type := "function"; name := "approve"; constant := false;
                    inputs := ["address"; "uint256"]%string |} ]
               message)
  end.
  - reflexivity.
  - intros e [<-|[<-|[]]]; reflexivity.
  - reflexivity.
Defined.

End ABIVerifierFacts.

(* ===================================================================== *)
(** * Parsing contract names *)
(* ===================================================================== *)

Module ParseFacts.
Import BN JS Utils NameFacts.

Lemma length_split sep s : List.length (split sep s) = S (countChar sep s).
Proof.
  induction s as [|x s IH]; simpl; [reflexivity|].
  destruct (Ascii.eqb x sep); simpl; [rewrite IH; reflexivity|].
  destruct (split sep s) as [|piece pieces]; simpl in *; [discriminate | exact IH].
Qed.

(** The pieces of a split do not hold the separator. *)
Lemma split_pieces sep s :
  Forall (fun piece => allChars (fun c => negb (Ascii.eqb c sep)) piece = true)
    (split sep s).
Proof.
  induction s as [|x s IH]; simpl.
  - constructor; [reflexivity | constructor].
  - destruct (Ascii.eqb x sep) eqn:E.
    + constructor; [reflexivity | exact IH].
    + destruct (split sep s) as [|piece pieces].
      * constructor; [simpl; rewrite E; reflexivity | constructor].
      * inversion IH as [|? ? Hpiece Hpieces]; subst.
        constructor; [simpl; rewrite E, Hpiece; reflexivity | exact Hpieces].
Qed.

Lemma nth_piece sep s k :
  allChars (fun c => negb (Ascii.eqb c sep)) (nth k (split sep s) EmptyString) = true.
Proof.
  pose proof (split_pieces sep s) as H. revert k.
  induction H as [|piece pieces Hpiece _ IH]; intros [|k]; simpl;
    try reflexivity; [exact Hpiece | apply IH].
Qed.

(** Splitting at a separator splits the pieces before it from the pieces
    after it. *)
Lemma split_at sep a b :
  split sep (a ++ String sep b) = (split sep a ++ split sep b)%list.
Proof.
  induction a as [|x a IH]; simpl.
  - rewrite Ascii.eqb_refl. reflexivity.
  - destruct (Ascii.eqb x sep); [rewrite IH; reflexivity|].
    rewrite IH. destruct (split_cons sep a) as (piece & pieces & ->). reflexivity.
Qed.

(** X4. parseStandardizedContractName returns null for every name with fewer
    than three underscores. A name with three underscores or more gives
    null only when the constructor throws on its fourth piece: the
    constructor is one that throws on a text that is no number, and the
    piece is not a decimal numeral, nor Infinity or NaN with an optional
    minus sign. So where the constructor does not throw, null is returned
    for the names with fewer than three underscores and for no other, and a
    name whose expiration is no number parses. *)
Theorem parseStandardizedContractName_null (strict : bool) (contractName : string) :
  let expiration := nth 3 (split "_" contractName) EmptyString in
  ((countChar "_" contractName < 3)%nat ->
   parseStandardizedContractName strict contractName = None) /\
  (parseStandardizedContractName strict contractName = None ->
   (countChar "_" contractName < 3)%nat
   \/ (strict = true /\ isNaN (ofString expiration) = true
       /\ isInfinityOrNaN expiration = false)) /\
  (strict = false ->
   (parseStandardizedContractName strict contractName = None
    <-> (countChar "_" contractName < 3)%nat)).
Proof.
  unfold parseStandardizedContractName, construct. cbv zeta.
  rewrite length_split.
  destruct (Nat.ltb_spec (S (countChar "_" contractName)) 4) as [H|H].
  - split; [reflexivity|]. split; [intros _; left; lia|].
    intros _. split; [intros _; lia | reflexivity].
  - split; [intros H'; lia|].
    destruct strict, (isNaN (ofString (nth 3 (split "_" contractName) EmptyString))),
      (isInfinityOrNaN (nth 3 (split "_" contractName) EmptyString));
      cbn [andb negb]; split;
      solve [ discriminate
            | intros _; right; repeat split
            | intros _; split; [discriminate | intros H'; lia] ].
Qed.

Lemma pieces_of_parsed (strict : bool) (contractName : string)
    (parsed : ParsedContractName) :
  parseStandardizedContractName strict contractName = Some parsed ->
  allChars notUnderscore (referenceAsset parsed) = true /\
  allChars notUnderscore (collateralToken parsed) = true /\
  allChars notUnderscore (dataProvider parsed) = true /\
  allChars notUnderscore (userText parsed) = true.
Proof.
  unfold parseStandardizedContractName. cbv zeta.
  destruct (List.length (split "_" contractName) <? 4)%nat; [discriminate|].
  destruct (construct strict _); [|discriminate].
  intros [= <-]. cbn [referenceAsset collateralToken dataProvider userText].
  repeat split; try apply (nth_piece "_").
  destruct (4 <? List.length (split "_" contractName))%nat;
    [apply (nth_piece "_") | reflexivity].
Qed.

(** X5. No text field of a parsed name holds an underscore. *)
Theorem parseStandardizedContractName_fields (strict : bool) (contractName : string)
    (parsed : ParsedContractName) :
  parseStandardizedContractName strict contractName = Some parsed ->
  allChars notUnderscore (referenceAsset parsed) = true /\
  allChars notUnderscore (collateralToken parsed) = true /\
  allChars notUnderscore (dataProvider parsed) = true /\
  allChars notUnderscore (userText parsed) = true.
Proof. apply pieces_of_parsed. Qed.

Lemma upperChar_underscore c : notUnderscore (upperChar c) = notUnderscore c.
Proof. destruct c as [[] [] [] [] [] [] [] []]; reflexivity. Qed.

Lemma toUpperCase_underscores s :
  allChars notUnderscore (toUpperCase s) = allChars notUnderscore s.
Proof.
  unfold toUpperCase. induction s as [|x s IH]; simpl; [reflexivity|].
  rewrite upperChar_underscore, IH. reflexivity.
Qed.

(** X6. The round trip of a contract name needs the four texts to be free of
    underscores: when a name made by createStandardizedContractName parses
    to its uppercased texts, none of them holds an underscore. *)
Theorem contract_name_round_trip_only (strict : bool)
    (referenceAssetName collateralTokenSymbol dataProvider : string)
    (expiration : BigNumber) (userText : string) (parsed : ParsedContractName) :
  parseStandardizedContractName strict
    (createStandardizedContractName referenceAssetName collateralTokenSymbol
       dataProvider expiration userText)
  = Some parsed ->
  referenceAsset parsed = toUpperCase referenceAssetName ->
  collateralToken parsed = toUpperCase collateralTokenSymbol ->
  Utils.dataProvider parsed = toUpperCase dataProvider ->
  Utils.userText parsed = toUpperCase userText ->
  allChars notUnderscore referenceAssetName = true /\
  allChars notUnderscore collateralTokenSymbol = true /\
  allChars notUnderscore dataProvider = true /\
  allChars notUnderscore userText = true.
Proof.
  intros Hparse Ha Hc Hd Hu.
  destruct (pieces_of_parsed _ _ _ Hparse) as (Fa & Fc & Fd & Fu).
  rewrite Ha in Fa. rewrite Hc in Fc. rewrite Hd in Fd. rewrite Hu in Fu.
  rewrite toUpperCase_underscores in Fa, Fc, Fd, Fu.
  repeat split; assumption.
Qed.

Lemma nth_app_left {A} (l l' : list A) k d :
  (k < List.length l)%nat -> nth k (l ++ l') d = nth k l d.
Proof. intros H. apply app_nth1, H. Qed.

(** X7. What follows a fifth underscore is dropped: a name with at least four
    underscores parses to the same record with anything appended after
    another underscore. *)
Theorem parseStandardizedContractName_rest (strict : bool)
    (contractName rest : string) :
  (4 <= countChar "_" contractName)%nat ->
  parseStandardizedContractName strict (contractName ++ String "_" rest)
  = parseStandardizedContractName strict contractName.
Proof.
  intros H. unfold parseStandardizedContractName. cbv zeta.
  rewrite split_at, length_app, !length_split.
  pose proof (length_split "_" contractName) as L.
  replace (S (countChar "_" contractName) + S (countChar "_" rest) <? 4)%nat with false
    by (symmetry; apply Nat.ltb_ge; lia).
  replace (S (countChar "_" contractName) <? 4)%nat with false
    by (symmetry; apply Nat.ltb_ge; lia).
  replace (4 <? S (countChar "_" contractName) + S (countChar "_" rest))%nat with true
    by (symmetry; apply Nat.ltb_lt; lia).
  replace (4 <? S (countChar "_" contractName))%nat with true
    by (symmetry; apply Nat.ltb_lt; lia).
  rewrite !nth_app_left by lia. reflexivity.
Qed.

(** ** The edges on names *)

Lemma parseStandardizedContractName_fields_run :
  allChars notUnderscore "BTC" = true /\
  allChars notUnderscore "DAI" = true /\
  allChars notUnderscore "ORACLE" = true /\
  allChars notUnderscore "" = true.
Proof.
  apply (parseStandardizedContractName_fields true "BTC_DAI_ORACLE_1541120400"
           {| referenceAsset := "BTC"; collateralToken := "DAI";
              dataProvider := "ORACLE";
              expirationTimeStamp := ofString "1541120400";
              userText := "" |}).
  reflexivity.
Defined.

Lemma contract_name_round_trip_only_run :
  allChars notUnderscore "btc" = true /\
  allChars notUnderscore "dai" = true /\
  allChars notUnderscore "oracle" = true /\
  allChars notUnderscore "v1" = true.
Proof.
  apply (contract_name_round_trip_only true "btc" "dai" "oracle" (ofInt 1541120400)
           "v1"
           {| referenceAsset := "BTC"; collateralToken := "DAI";
              dataProvider := "ORACLE";
              expirationTimeStamp := ofString "1541120400";
              userText := "V1" |});
    reflexivity.
Defined.

(** A sixth piece changes nothing. *)
Lemma parseStandardizedContractName_rest_run :
  parseStandardizedContractName true "BTC_DAI_ORACLE_1541120400_V1_and_more"
  = parseStandardizedContractName true "BTC_DAI_ORACLE_1541120400_V1".
Proof.
  apply (parseStandardizedContractName_rest true "BTC_DAI_ORACLE_1541120400_V1"
           "and_more").
  vm_compute. lia.
Defined.

End ParseFacts.
(* ===================================================================== *)
(** * Assertions on addresses *)
(* ===================================================================== *)

Module AssertFacts.
Import BN JS Chain Assert.

Lemma isHexDigit_lowerChar c : isHexDigit (lowerChar c) = isHexDigit c.
Proof. destruct c as [[] [] [] [] [] [] [] []]; reflexivity. Qed.

Lemma isHexDigit_upperChar c : isHexDigit (upperChar c) = isHexDigit c.
Proof. destruct c as [[] [] [] [] [] [] [] []]; reflexivity. Qed.

Lemma length_mapString f s : String.length (mapString f s) = String.length s.
Proof. induction s as [|x s IH]; simpl; [reflexivity | rewrite IH; reflexivity]. Qed.

Lemma hexDigits_mapString f digits :
  (forall c, isHexDigit (f c) = isHexDigit c) ->
  forallb isHexDigit (list_ascii_of_string (mapString f digits))
  = forallb isHexDigit (list_ascii_of_string digits).
Proof.
  intros Hf. induction digits as [|x digits IH]; simpl; [reflexivity|].
  rewrite Hf, IH. reflexivity.
Qed.

Lemma prefix_lowerChar z x :
  Ascii.eqb (lowerChar z) "0"
  && (Ascii.eqb (lowerChar x) "x" || Ascii.eqb (lowerChar x) "X")
  = Ascii.eqb z "0" && (Ascii.eqb x "x" || Ascii.eqb x "X").
Proof.
  destruct z as [[] [] [] [] [] [] [] []]; try reflexivity;
    destruct x as [[] [] [] [] [] [] [] []]; reflexivity.
Qed.

Lemma prefix_upperChar z x :
  Ascii.eqb (upperChar z) "0"
  && (Ascii.eqb (upperChar x) "x" || Ascii.eqb (upperChar x) "X")
  = Ascii.eqb z "0" && (Ascii.eqb x "x" || Ascii.eqb x "X").
Proof.
  destruct z as [[] [] [] [] [] [] [] []]; try reflexivity;
    destruct x as [[] [] [] [] [] [] [] []]; reflexivity.
Qed.

(** X8. An address that passes the test of isETHAddressHex has 42 characters,
    and passes it in lower case and in upper case too (prefix 0X included):
    the test does not look at the case of the letters. *)
Theorem matchesETHAddress_case (address : string) :
  matchesETHAddress address = true ->
  matchesETHAddress (toLowerCase address) = true /\
  matchesETHAddress (toUpperCase address) = true /\
  String.length address = 42%nat.
Proof.
  destruct address as [|z [|x digits]]; try discriminate.
  intros H. rewrite <- H at 1 2.
  unfold toLowerCase, toUpperCase, matchesETHAddress in *. cbn [mapString].
  rewrite !length_mapString.
  rewrite (hexDigits_mapString lowerChar digits isHexDigit_lowerChar).
  rewrite (hexDigits_mapString upperChar digits isHexDigit_upperChar).
  rewrite prefix_lowerChar, prefix_upperChar.
  repeat split. rewrite !andb_true_iff in H.
  destruct H as [[_ H] _]. apply Nat.eqb_eq in H. cbn [String.length]. lia.
Qed.

Lemma matchesETHAddress_case_run :
  matchesETHAddress (toLowerCase "0xAbCdEf3333333333333333333333333333333333") = true /\
  matchesETHAddress (toUpperCase "0xAbCdEf3333333333333333333333333333333333") = true /\
  String.length "0xAbCdEf3333333333333333333333333333333333" = 42%nat.
Proof.
  apply (matchesETHAddress_case "0xAbCdEf3333333333333333333333333333333333").
  reflexivity.
Defined.

End AssertFacts.

(* ===================================================================== *)
(** * Intervals that exclude themselves *)
(* ===================================================================== *)

Module IntervalFacts.
Import IntervalUtils.

Lemma exclusive_onInterval i : exclusive i -> exclusive (onInterval i).
Proof.
  unfold exclusive, onInterval. destruct (locked i) eqn:E; cbn [locked running].
  - rewrite E. trivial.
  - intros [H L]. split; [|reflexivity].
    destruct (running i) as [|[|n]]; [lia | | lia].
    discriminate (L eq_refl).
Qed.

Lemma exclusive_onSettled settlement i :
  exclusive i -> exclusive (onSettled settlement i).
Proof.
  unfold exclusive, onSettled. cbn [locked running]. intros [H L].
  split; [lia | intros R; lia].
Qed.

Lemma excluding_exclusive i : excluding i -> exclusive i.
Proof.
  unfold excluding, exclusive. destruct (locked i); intros ->; split;
    solve [lia | reflexivity | discriminate].
Qed.

Lemma excluding_onInterval i : excluding i -> excluding (onInterval i).
Proof.
  unfold excluding, onInterval. destruct (locked i) eqn:E; cbn [locked running].
  - rewrite E. trivial.
  - intros ->. reflexivity.
Qed.

Lemma excluding_onSettled settlement i :
  excluding i -> running i <> 0%nat -> handled (Settled settlement) = true ->
  excluding (onSettled settlement i).
Proof.
  unfold excluding, onSettled. cbn [locked running].
  destruct (locked i); intros -> H Hs; [|contradiction].
  destruct settlement as [|err []]; [reflexivity | discriminate | reflexivity].
Qed.

Lemma after_exclusive history : forall i j,
  exclusive i -> after history i = Some j ->
  exclusive j /\
  (started j <= started i + List.length (filter isFired history))%nat /\
  reported j = (reported i ++ rejections history)%list.
Proof.
  induction history as [|[|settlement] history IH]; intros i j Hi H; simpl in H.
  - injection H as <-. repeat split; try apply Hi; [simpl; lia|].
    simpl. rewrite List.app_nil_r. reflexivity.
  - destruct (IH _ _ (exclusive_onInterval i Hi) H) as (Ej & Sj & Rj).
    split; [exact Ej|]. split.
    + cbn [filter isFired List.length]. unfold onInterval in Sj.
      destruct (locked i); cbn [started] in Sj; lia.
    + rewrite Rj. unfold onInterval. destruct (locked i); reflexivity.
  - destruct (Nat.eqb_spec (running i) 0) as [|Hr]; [discriminate|].
    destruct (IH _ _ (exclusive_onSettled settlement i Hi) H) as (Ej & Sj & Rj).
    split; [exact Ej|]. split.
    + cbn [filter isFired]. exact Sj.
    + rewrite Rj. cbn [onSettled reported].
      destruct settlement as [|err throws]; cbn [rejections];
        [|rewrite <- List.app_assoc]; reflexivity.
Qed.

Lemma after_excluding history : forall i j,
  excluding i -> forallb handled history = true -> after history i = Some j ->
  excluding j.
Proof.
  induction history as [|[|settlement] history IH]; intros i j Hi Hh H;
    simpl in H.
  - injection H as <-. exact Hi.
  - apply (IH _ _ (excluding_onInterval i Hi)); [exact Hh | exact H].
  - destruct (Nat.eqb_spec (running i) 0) as [|Hr]; [discriminate|].
    cbn [forallb] in Hh. apply andb_prop in Hh. destruct Hh as [Hs Hh].
    apply (IH _ _ (excluding_onSettled settlement i Hi Hr Hs)); [exact Hh | exact H].
Qed.

Lemma after_app before later i :
  after (before ++ later) i
  = match after before i with
    | Some j => after later j
    | None => None
    end.
Proof.
  revert i. induction before as [|[|settlement] before IH]; intros i; simpl.
  - reflexivity.
  - apply IH.
  - destruct (running i =? 0)%nat; [reflexivity | apply IH].
Qed.

(** A locked interval without a running call stays as it is. *)
Lemma after_stuck history : forall i j,
  locked i = true -> running i = 0%nat -> after history i = Some j -> j = i.
Proof.
  induction history as [|[|settlement] history IH]; intros i j L R H; simpl in H.
  - injection H as <-. reflexivity.
  - unfold onInterval in H. rewrite L in H. apply (IH _ _ L R H).
  - rewrite R in H. discriminate.
Qed.

(** X9. Whatever the timer and the promises do, an interval made by
    setAsyncExcludingInterval never has two calls of fn running: at most one
    runs, and only while the interval is locked. fn is called at most once
    per firing of the timer, and onError has received the errors of the
    rejected calls, each once, in their order. As long as onError has
    returned every time, the interval is locked exactly while a call
    runs. *)
Theorem setAsyncExcludingInterval_excludes (history : list Event) (i : Interval) :
  after history setAsyncExcludingInterval = Some i ->
  (running i <= 1)%nat /\
  (running i = 1%nat -> locked i = true) /\
  (started i <= List.length (filter isFired history))%nat /\
  reported i = rejections history /\
  (forallb handled history = true ->
   running i = (if locked i then 1 else 0)%nat).
Proof.
  intros H.
  destruct (after_exclusive history setAsyncExcludingInterval i) as ((E & L) & S & R);
    [apply excluding_exclusive; reflexivity | exact H |].
  repeat split; try assumption.
  intros Hh. apply (after_excluding history setAsyncExcludingInterval i);
    [reflexivity | exact Hh | exact H].
Qed.

(** X10. When onError throws, the lock is never released: the interval stays
    locked with no call running, and no firing of the timer calls fn
    again. *)
Theorem setAsyncExcludingInterval_stuck (before later : list Event) (err : string)
    (j i : Interval) :
  after before setAsyncExcludingInterval = Some j ->
  after (before ++ Settled (Rejected err true) :: later) setAsyncExcludingInterval
  = Some i ->
  locked i = true /\ running i = 0%nat /\ started i = started j /\
  reported i = (reported j ++ [err])%list.
Proof.
  intros Hj H. rewrite after_app, Hj in H. cbn [after] in H.
  destruct (Nat.eqb_spec (running j) 0) as [|Hr]; [discriminate|].
  destruct (after_exclusive before setAsyncExcludingInterval j) as ((E & L) & _);
    [apply excluding_exclusive; reflexivity | exact Hj |].
  assert (R : running j = 1%nat) by lia.
  apply after_stuck in H; cbn [onSettled locked running].
  - subst i. cbn [onSettled locked running started reported].
    rewrite R. repeat split. apply L, R.
  - apply L, R.
  - rewrite R. reflexivity.
Qed.

(** Two firings, a rejection, a firing: the second firing calls nothing. *)
Lemma setAsyncExcludingInterval_excludes_run :
  let i := {| locked := true; running := 1; started := 2;
              reported := ["timeout"%string] |} in
  (running i <= 1)%nat /\
  (running i = 1%nat -> locked i = true) /\
  (started i <= 3)%nat /\
  reported i = ["timeout"%string] /\
  (true = true -> running i = (if locked i then 1 else 0)%nat).
Proof.
  apply (setAsyncExcludingInterval_excludes
           [Fired; Fired; Settled (Rejected "timeout"%string false); Fired]).
  reflexivity.
Defined.

(** A firing, a rejection on which onError throws, two firings: fn has been
    called once. *)
Lemma setAsyncExcludingInterval_stuck_run :
  let i := {| locked := true; running := 0; started := 1;
              reported := ["timeout"%string] |} in
  locked i = true /\ running i = 0%nat /\ started i = 1%nat /\
  reported i = ["timeout"%string].
Proof.
  apply (setAsyncExcludingInterval_stuck [Fired] [Fired; Fired] "timeout"%string
           {| locked := true; running := 1; started := 1; reported := [] |});
    reflexivity.
Defined.

End IntervalFacts.
(* ===================================================================== *)
(** * Integers: salts and base units *)
(* ===================================================================== *)

Module IntegerFacts.
Import BN BNFacts Chain ChainFacts Utils.

Lemma iter_times_spec x k :
  isFinite x = true ->
  isFinite (Nat.iter k (fun y => times y x) (ofInt 1)) = true /\
  toQ (Nat.iter k (fun y => times y x) (ofInt 1)) == toQ x ^ Z.of_nat k.
Proof.
  intros Hx. induction k as [|k [F V]].
  - split; [reflexivity|]. apply ofInt_spec.
  - cbn [Nat.iter]. destruct (times_spec _ x F Hx) as [F' V'].
    split; [exact F'|]. rewrite V', V, Nat2Z.inj_succ.
    destruct (Qeq_dec (toQ x) 0) as [Z|NZ].
    + rewrite Z. rewrite Qmult_0_r. symmetry.
      unfold Z.succ. rewrite Qpower_0 by lia. reflexivity.
    + unfold Z.succ. rewrite Qpower_plus by exact NZ. reflexivity.
Qed.

(** A power of ten with a natural exponent is that power of ten. *)
Lemma pow_ten n :
  (0 <= n)%Z ->
  isFinite (pow (ofInt 10) n) = true /\ toQ (pow (ofInt 10) n) == inject_Z (10 ^ n).
Proof.
  intros Hn. unfold pow.
  replace (n <? 0)%Z with false by (symmetry; apply Z.ltb_ge; exact Hn).
  destruct (iter_times_spec (ofInt 10) (Z.abs_nat n) eq_refl) as [F V].
  split; [exact F|]. rewrite V, Zabs2Nat.id_abs, Z.abs_eq by exact Hn.
  rewrite (proj2 (ofInt_spec 10)), ten_inject by exact Hn. reflexivity.
Qed.

(** A number from 0 to the integer [B] rounds to an integer from 0 to [B]. *)
Lemma integerValue_range x (B : Z) :
  isFinite x = true -> 0 <= toQ x -> toQ x <= inject_Z B ->
  exists z, isFinite (integerValue x) = true /\
            toQ (integerValue x) == inject_Z z /\ (0 <= z <= B)%Z.
Proof.
  destruct x as [| |neg c e]; try discriminate. intros _ Hlo Hhi.
  assert (Hzero : neg = true -> c = 0%N).
  { intros ->. cbn [toQ] in Hlo. pose proof (ten_pos e) as P.
    destruct (N.eq_dec c 0) as [|Hc]; [assumption|]. exfalso.
    assert (0 < inject_Z (Z.of_N c)) by (change 0 with (inject_Z 0); rewrite <- Zlt_Qlt; lia).
    assert (0 < inject_Z (Z.of_N c) * (10 # 1) ^ e) by (apply Qmult_lt_0_compat; assumption).
    lra. }
  assert (Hvalue : toQ (Finite neg c e) == inject_Z (Z.of_N c) * (10 # 1) ^ e).
  { cbn [toQ]. destruct neg; [|ring]. rewrite (Hzero eq_refl). simpl. ring. }
  rewrite Hvalue in Hlo, Hhi. clear Hvalue.
  unfold integerValue. destruct (Z.leb_spec 0 e) as [He|He].
  - exists (Z.of_N c * 10 ^ e)%Z. split; [reflexivity|].
    assert (V : inject_Z (Z.of_N c * 10 ^ e) == inject_Z (Z.of_N c) * (10 # 1) ^ e).
    { rewrite inject_Z_mult, ten_inject by exact He. reflexivity. }
    split.
    + cbn [toQ]. rewrite V. destruct neg; [|ring]. rewrite (Hzero eq_refl). simpl. ring.
    + rewrite <- V in Hhi. rewrite <- Zle_Qle in Hhi. split; [|exact Hhi].
      apply Z.mul_nonneg_nonneg; [lia | apply Z.pow_nonneg; lia].
  - set (k := (- e)%Z). assert (Hk : (0 < k)%Z) by (unfold k; lia).
    assert (P : (0 < 10 ^ k)%Z) by (apply Z.pow_pos_nonneg; lia).
    set (m := ((2 * Z.of_N c + 10 ^ k) / (2 * 10 ^ k))%Z).
    assert (Hm0 : (0 <= m)%Z) by (apply Z.div_pos; lia).
    (* the value is c / 10^k *)
    assert (T : (10 # 1) ^ e == / inject_Z (10 ^ k)).
    { replace e with (- k)%Z by (unfold k; lia).
      rewrite Qpower_opp, ten_inject by lia. reflexivity. }
    assert (P' : 0 < inject_Z (10 ^ k))
      by (change 0 with (inject_Z 0); rewrite <- Zlt_Qlt; exact P).
    assert (Hc : (Z.of_N c <= B * 10 ^ k)%Z).
    { rewrite T in Hhi. rewrite Zle_Qle, inject_Z_mult.
      setoid_replace (inject_Z (Z.of_N c))
        with (inject_Z (Z.of_N c) * / inject_Z (10 ^ k) * inject_Z (10 ^ k))
        by (field; lra).
      apply Qmult_le_compat_r; [exact Hhi | lra]. }
    assert (HmB : (m <= B)%Z).
    { unfold m. apply Z.lt_succ_r. apply Z.div_lt_upper_bound; [lia|]. nia. }
    destruct (normalise_spec neg (Z.to_N m) 0) as (c' & e' & -> & _ & Hv).
    exists m. split; [reflexivity|]. split; [|lia].
    rewrite Hv. cbn [toQ]. rewrite Z2N.id by exact Hm0.
    destruct neg; [|simpl; ring].
    assert (m = 0%Z) as ->.
    { unfold m. rewrite (Hzero eq_refl). simpl Z.of_N.
      apply Z.div_small. lia. }
    simpl. ring.
Qed.

(** X11. A salt is a whole number from 0 to 10^(d-1), d being
    MAX_DIGITS_IN_UNSIGNED_256_INT, whatever number below 1 the random
    generator gives; with d at most 78 it fits an unsigned 256-bit
    integer. *)
Theorem generatePseudoRandomSalt_range (MAX_DIGITS_IN_UNSIGNED_256_INT : Z)
    (randomNumber : BigNumber) :
  (1 <= MAX_DIGITS_IN_UNSIGNED_256_INT)%Z ->
  isFinite randomNumber = true -> 0 <= toQ randomNumber -> toQ randomNumber < 1 ->
  let salt := generatePseudoRandomSalt MAX_DIGITS_IN_UNSIGNED_256_INT randomNumber in
  exists z : Z,
    isFinite salt = true /\ toQ salt == inject_Z z /\
    (0 <= z <= 10 ^ (MAX_DIGITS_IN_UNSIGNED_256_INT - 1))%Z /\
    ((MAX_DIGITS_IN_UNSIGNED_256_INT <= 78)%Z -> (z < 2 ^ 256)%Z).
Proof.
  intros Hd Hr H0 H1 salt. unfold salt, generatePseudoRandomSalt.
  set (n := (MAX_DIGITS_IN_UNSIGNED_256_INT - 1)%Z).
  destruct (pow_ten n ltac:(unfold n; lia)) as [Ff Vf].
  destruct (times_spec randomNumber _ Hr Ff) as [Ft Vt].
  assert (P : 0 < inject_Z (10 ^ n)).
  { change 0 with (inject_Z 0). rewrite <- Zlt_Qlt. apply Z.pow_pos_nonneg; unfold n; lia. }
  destruct (integerValue_range _ (10 ^ n) Ft) as (z & Fz & Vz & Rz).
  - rewrite Vt, Vf. apply Qmult_le_0_compat; lra.
  - rewrite Vt, Vf. rewrite <- (Qmult_1_l (inject_Z (10 ^ n))) at 2.
    apply Qmult_le_compat_r; lra.
  - exists z. repeat split; try assumption; try lia.
    intros H78. apply Z.le_lt_trans with (10 ^ 77)%Z; [|reflexivity].
    apply Z.le_trans with (10 ^ n)%Z; [lia|].
    apply Z.pow_le_mono_r; unfold n; lia.
Qed.

(** ** Base units *)

Lemma size_nat_gt c : (c < 2 ^ N.of_nat (N.size_nat c))%N.
Proof.
  destruct c as [|p]; [reflexivity|]. cbn [N.size_nat].
  induction p as [p IH|p IH|]; cbn [Pos.size_nat].
  - rewrite Nat2N.inj_succ, N.pow_succ_r'. lia.
  - rewrite Nat2N.inj_succ, N.pow_succ_r'. lia.
  - reflexivity.
Qed.

(** Stripping leaves no trailing zero. *)
Lemma strip_done fuel : forall c e c' e',
  (c < 2 ^ N.of_nat fuel)%N -> c <> 0%N ->
  strip fuel c e = (c', e') -> (c' mod 10 <> 0)%N.
Proof.
  induction fuel as [|fuel IH]; intros c e c' e' Hc Hnz H.
  - simpl in Hc. lia.
  - cbn [strip] in H. destruct (N.eqb_spec (c mod 10) 0) as [Hm|Hm].
    + pose proof (N.div_mod c 10 ltac:(lia)) as D.
      apply (IH _ _ _ _) in H; [exact H | |].
      * rewrite Nat2N.inj_succ, N.pow_succ_r' in Hc.
        apply N.Div0.div_lt_upper_bound. lia.
      * lia.
    + injection H as <- <-. exact Hm.
Qed.

(** A finite number has no decimal places exactly when it is an integer. *)
Lemma decimalPlaces_integer neg c e :
  decimalPlaces (Finite neg c e) = Some 0%Z
  <-> exists z : Z, toQ (Finite neg c e) == inject_Z z.
Proof.
  unfold decimalPlaces.
  destruct (normalise_spec neg c e) as (c' & e' & Hn & Hz & Hv).
  rewrite Hn.
  assert (X : (exists z : Z, toQ (Finite neg c e) == inject_Z z)
              <-> (exists z : Z, toQ (Finite neg c' e') == inject_Z z)).
  { split; intros [z H]; exists z; [rewrite Hv | rewrite <- Hv]; exact H. }
  rewrite X. clear X Hv.
  assert (Hdone : c' <> 0%N -> (e' < 0)%Z -> (c' mod 10 <> 0)%N).
  { intros Hc' _. unfold normalise in Hn.
    destruct (N.eqb_spec c 0) as [->|Hc].
    - injection Hn as <- <-. contradiction.
    - destruct (strip (N.size_nat c) c e) as [c1 e1] eqn:Hs.
      injection Hn as <- <-.
      apply (strip_done _ _ _ _ _ (size_nat_gt c) Hc Hs). }
  split.
  - intros [= H]. assert (He : (0 <= e')%Z) by lia.
    exists ((if neg then -1 else 1) * Z.of_N c' * 10 ^ e')%Z.
    cbn [toQ]. rewrite !inject_Z_mult, ten_inject by exact He.
    destruct neg; reflexivity.
  - intros [z Hzv]. f_equal.
    destruct (Z.le_gt_cases 0 e') as [He|He]; [lia|]. exfalso.
    destruct (N.eq_dec c' 0) as [->|Hc'].
    + (* a zero is normalised to exponent 0 *)
      unfold normalise in Hn. destruct (N.eqb_spec c 0) as [->|Hc].
      * injection Hn as <-. lia.
      * destruct (strip (N.size_nat c) c e) as [c1 e1] eqn:Hs.
        injection Hn as E1 E2. apply (strip_nonzero _ _ _ _ _ Hs Hc). exact E1.
    + apply (Hdone Hc' He).
      (* c' = |z| * 10^(-e') *)
      set (k := (- e')%Z). assert (Hk : (0 < k)%Z) by (unfold k; lia).
      assert (P : (0 < 10 ^ k)%Z) by (apply Z.pow_pos_nonneg; lia).
      assert (E : (Z.of_N c' = (if neg then - z else z) * 10 ^ k)%Z).
      { cbn [toQ] in Hzv.
        assert (T : (10 # 1) ^ e' == / inject_Z (10 ^ k)).
        { replace e' with (- k)%Z by (unfold k; lia).
          rewrite Qpower_opp, ten_inject by lia. reflexivity. }
        rewrite T in Hzv.
        assert (P' : 0 < inject_Z (10 ^ k))
          by (change 0 with (inject_Z 0); rewrite <- Zlt_Qlt; exact P).
        apply inject_Z_injective. rewrite inject_Z_mult.
        destruct neg.
        - rewrite inject_Z_opp, <- Hzv. field. lra.
        - rewrite <- Hzv. field. lra. }
      replace (10 ^ k)%Z with (10 * 10 ^ (k - 1))%Z in E
        by (rewrite <- Z.pow_succ_r by lia; f_equal; lia).
      apply N2Z.inj. rewrite N2Z.inj_mod. rewrite E.
      replace ((if neg then - z else z) * (10 * 10 ^ (k - 1)))%Z
        with ((if neg then - z else z) * 10 ^ (k - 1) * 10)%Z by ring.
      apply Z.mod_mul. lia.
Qed.

(** X12. isValidBaseUnitAmount lets pass exactly the whole numbers that are not
    negative: a finite value without a minus sign (so not -0) and without
    decimals. NaN and the infinities fail on the decimals. *)
Theorem isValidBaseUnitAmount_passes (variableName : string) (value : BigNumber)
    (found : string) (w : World) (st : WrapperState) :
  result (Assert.isValidBaseUnitAmount variableName value found w st) = inr tt
  <-> isFinite value = true /\ isNegative value = false /\
      exists z : Z, toQ value == inject_Z z.
Proof.
  unfold Assert.isValidBaseUnitAmount. cbv zeta.
  destruct value as [| |neg c e].
  - cbn. split; [discriminate | intros [[=] _]].
  - destruct neg; cbn; (split; [discriminate | intros [[=] _]]).
  - cbn [isNegative isFinite]. destruct neg; cbn [negb].
    + cbn. split; [discriminate | intros (_ & [=] & _)].
    + pose proof (decimalPlaces_integer false c e) as D.
      destruct (decimalPlaces (Finite false c e)) as [places|].
      * destruct (Z.eqb_spec places 0) as [->|Hp]; cbn.
        -- split; [intros _; repeat split; apply D; reflexivity | reflexivity].
        -- split; [discriminate|]. intros (_ & _ & Hz). apply D in Hz. congruence.
      * cbn. split; [discriminate|]. intros (_ & _ & Hz). apply D in Hz. discriminate.
Qed.

(** The upper end is reached, the product being rounded: 0.99 with two
    digits gives 10. *)
Lemma generatePseudoRandomSalt_range_run :
  generatePseudoRandomSalt 2 (Finite false 99 (-2)) = ofInt 10 /\
  exists z : Z,
    isFinite (generatePseudoRandomSalt 2 (Finite false 99 (-2))) = true /\
    toQ (generatePseudoRandomSalt 2 (Finite false 99 (-2))) == inject_Z z /\
    (0 <= z <= 10 ^ (2 - 1))%Z /\
    ((2 <= 78)%Z -> (z < 2 ^ 256)%Z).
Proof.
  split; [reflexivity|].
  apply (generatePseudoRandomSalt_range 2 (Finite false 99 (-2)));
    [lia | reflexivity | vm_compute; discriminate | reflexivity].
Defined.

End IntegerFacts.

(* ===================================================================== *)
(** * The dictionaries of the wrapper *)
(* ===================================================================== *)

Module CacheFacts.
Import BN BNFacts Chain Ledgers JSFacts ChainFacts RemainingFillableCalculator.

Lemma tokenContractIn_same_key st a a' :
  JS.toLowerCase a' = JS.toLowerCase a ->
  tokenContractIn (withTokenContract st a) a' = tokenContractIn st a /\
  withTokenContract (withTokenContract st a) a' = withTokenContract st a.
Proof.
  intros K. unfold tokenContractIn, withTokenContract. rewrite K.
  destruct (JS.lookup _ (_tokenContractsByAddress st)) eqn:E.
  - rewrite E. split; reflexivity.
  - cbn. rewrite String.eqb_refl. split; reflexivity.
Qed.

(** X13. The ERC20 object of a token is made once: whatever the world, asking
    again for the token's address, in any casing, gives the object of the
    first request, calls nothing and leaves the dictionaries as they are. *)
Theorem getERC20TokenContractAsync_once (w : World) (st : WrapperState)
    (tokenAddress again : address) :
  JS.toLowerCase again = JS.toLowerCase tokenAddress ->
  let first := ContractWrapper.getERC20TokenContractAsync tokenAddress w st in
  ContractWrapper.getERC20TokenContractAsync again w (state first)
  = {| calls := []; state := state first; result := result first |}.
Proof.
  intros K first. unfold first. rewrite !getERC20TokenContractAsync_run.
  cbn [state result].
  destruct (tokenContractIn_same_key st tokenAddress again K) as [-> ->].
  reflexivity.
Qed.

(** What a retrieval leaves, in any world: a set found is returned as it
    is; a set made is kept under the lower-cased address. *)
Lemma getContractSet_keeps w st a contractSet :
  result (ContractWrapper._getContractSetByMarketContractAddressAsync a w st)
  = inr contractSet ->
  JS.lookup (JS.toLowerCase a)
    (_contractSetByMarketContractAddress
       (state (ContractWrapper._getContractSetByMarketContractAddressAsync a w st)))
  = Some contractSet.
Proof.
  unfold ContractWrapper._getContractSetByMarketContractAddressAsync.
  set (create :=
         ContractWrapper.createNewMarketContractSetFromMarketContractAddressAsync a).
  unfold bind, getState, putState, ret. cbn [result state calls].
  destruct (JS.lookup (JS.toLowerCase a) (_contractSetByMarketContractAddress st)) eqn:E.
  - cbn. intros [= <-]. exact E.
  - destruct (create w st) as [c s [e|created]]; cbn.
    + discriminate.
    + intros [= <-]. rewrite String.eqb_refl. reflexivity.
Qed.

(** X14. The contract set of a market contract is made once: when a retrieval has
    resolved, retrieving the set for the same address again, in any casing,
    resolves with the same set without a call to the chain, and leaves the
    dictionaries as they are. *)
Theorem getContractSet_once (w : World) (st : WrapperState)
    (marketContractAddress again : address) (contractSet : ContractSet) :
  let first :=
    ContractWrapper._getContractSetByMarketContractAddressAsync marketContractAddress
      w st in
  result first = inr contractSet ->
  JS.toLowerCase again = JS.toLowerCase marketContractAddress ->
  ContractWrapper._getContractSetByMarketContractAddressAsync again w (state first)
  = {| calls := []; state := state first; result := inr contractSet |}.
Proof.
  intros first Hfirst K. apply getContractSet_cached. rewrite K.
  apply getContractSet_keeps, Hfirst.
Qed.

(** ** What the assertions keep from the chain *)

Lemma isETHAddressHex_throws name a w st :
  Assert.matchesETHAddress a = false ->
  exists message,
    Assert.isETHAddressHex name a w st
    = {| calls := []; state := st; result := inl (Thrown message) |}.
Proof.
  intros H. unfold Assert.isETHAddressHex. rewrite H. eexists. reflexivity.
Qed.

(** The assertion on a sender, in any world. *)
Lemma isSenderAddressAsync_any name a w st :
  Assert.matchesETHAddress a = true ->
  exists message,
    Assert.isSenderAddressAsync name a w st
    = {| calls := [Call_getAccounts]; state := st;
         result := match getAccounts w with
                   | inl failure => inl (Thrown failure)
                   | inr accounts =>
                       if JS.includes accounts a then inr tt else inl (Thrown message)
                   end |}.
Proof.
  intros H. unfold Assert.isSenderAddressAsync.
  erewrite bind_resolves by (apply isETHAddressHex_run; exact H).
  eexists. unfold bind, await, Assert.assert. cbn [calls state result app].
  destruct (getAccounts w) as [failure|accounts]; cbn [calls state result app].
  - reflexivity.
  - destruct (JS.includes accounts a); reflexivity.
Qed.

(** What getAllowanceAsync asserts before it calls the token. *)
Lemma getAllowanceAsync_guard (w : World) (st : WrapperState)
    (tokenAddress ownerAddress spenderAddress : address) :
  let outcome :=
    ContractWrapper.getAllowanceAsync tokenAddress ownerAddress spenderAddress w st in
  let allowed :=
    Assert.matchesETHAddress ownerAddress && Assert.matchesETHAddress tokenAddress
    && Assert.matchesETHAddress spenderAddress
    && match getAccounts w with
       | inr accounts => JS.includes accounts ownerAddress
       | inl _ => false
       end in
  (forall allowance, result outcome = inr allowance -> allowed = true) /\
  (allowed = false ->
   (exists message, result outcome = inl (Thrown message)) /\
   forall c, In c (calls outcome) -> c = Call_getAccounts).
Proof.
  intros outcome allowed. unfold outcome, allowed, ContractWrapper.getAllowanceAsync.
  clear outcome allowed.
  destruct (Assert.matchesETHAddress ownerAddress) eqn:Ho.
  2:{ destruct (isETHAddressHex_throws "ownerAddress" ownerAddress w st Ho) as [m Hm].
      erewrite bind_rejects by exact Hm. cbn [result calls andb].
      split; [discriminate|]. intros _. split; [eexists; reflexivity | intros c []]. }
  erewrite bind_resolves by (apply isETHAddressHex_run; exact Ho).
  destruct (Assert.matchesETHAddress tokenAddress) eqn:Ht.
  2:{ destruct (isETHAddressHex_throws "tokenAddress" tokenAddress w st Ht) as [m Hm].
      erewrite bind_rejects by exact Hm. cbn [result calls andb app].
      split; [discriminate|]. intros _. split; [eexists; reflexivity | intros c []]. }
  erewrite bind_resolves by (apply isETHAddressHex_run; exact Ht).
  destruct (Assert.matchesETHAddress spenderAddress) eqn:Hs.
  2:{ destruct (isETHAddressHex_throws "spenderAddress" spenderAddress w st Hs) as [m Hm].
      erewrite bind_rejects by exact Hm. cbn [result calls andb app].
      split; [discriminate|]. intros _. split; [eexists; reflexivity | intros c []]. }
  erewrite bind_resolves by (apply isETHAddressHex_run; exact Hs).
  destruct (isSenderAddressAsync_any "ownerAddress" ownerAddress w st Ho) as [m Hm].
  cbn [andb app calls state result].
  destruct (getAccounts w) as [failure|accounts].
  - erewrite bind_rejects by exact Hm. cbn [result calls].
    split; [discriminate|]. intros _. split; [eexists; reflexivity|].
    intros c [<-|[]]. reflexivity.
  - destruct (JS.includes accounts ownerAddress).
    + erewrite bind_resolves by exact Hm. split; [reflexivity | discriminate].
    + erewrite bind_rejects by exact Hm. cbn [result calls].
      split; [discriminate|]. intros _. split; [eexists; reflexivity|].
      intros c [<-|[]]. reflexivity.
Qed.

(** X15. getAllowanceAsync resolves only for three well-formed addresses and an
    owner that is one of the accounts of the node; otherwise it throws, and
    the token contract is not called. *)
Theorem getAllowanceAsync_asserts (w : World) (st : WrapperState)
    (tokenAddress ownerAddress spenderAddress : address) :
  let outcome :=
    ContractWrapper.getAllowanceAsync tokenAddress ownerAddress spenderAddress w st in
  let allowed :=
    Assert.matchesETHAddress ownerAddress && Assert.matchesETHAddress tokenAddress
    && Assert.matchesETHAddress spenderAddress
    && match getAccounts w with
       | inr accounts => JS.includes accounts ownerAddress
       | inl _ => false
       end in
  (forall allowance, result outcome = inr allowance -> allowed = true) /\
  (allowed = false ->
   (exists message, result outcome = inl (Thrown message)) /\
   forall c, In c (calls outcome) -> c = Call_getAccounts).
Proof. exact (getAllowanceAsync_guard w st tokenAddress ownerAddress spenderAddress). Qed.

(** What getBalanceAsync asserts before it calls the token. *)
Lemma getBalanceAsync_guard (w : World) (st : WrapperState)
    (tokenAddress ownerAddress : address) :
  let outcome := ContractWrapper.getBalanceAsync tokenAddress ownerAddress w st in
  if Assert.matchesETHAddress ownerAddress && Assert.matchesETHAddress tokenAddress
  then
    let tokenContract := tokenContractIn st (JS.toLowerCase tokenAddress) in
    calls outcome = [Call_balanceOf tokenContract ownerAddress] /\
    result outcome = match balanceOf w tokenContract ownerAddress with
                     | inl message => inl (Thrown message)
                     | inr balance => inr balance
                     end
  else
    calls outcome = [] /\ state outcome = st /\
    exists message, result outcome = inl (Thrown message).
Proof.
  intros outcome. unfold outcome, ContractWrapper.getBalanceAsync. clear outcome.
  destruct (Assert.matchesETHAddress ownerAddress) eqn:Ho.
  2:{ destruct (isETHAddressHex_throws "ownerAddress" ownerAddress w st Ho) as [m Hm].
      erewrite bind_rejects by exact Hm. cbn [result calls state andb].
      repeat split. eexists; reflexivity. }
  erewrite bind_resolves by (apply isETHAddressHex_run; exact Ho).
  destruct (Assert.matchesETHAddress tokenAddress) eqn:Ht.
  2:{ destruct (isETHAddressHex_throws "tokenAddress" tokenAddress w st Ht) as [m Hm].
      erewrite bind_rejects by exact Hm. cbn [result calls state andb app].
      repeat split. eexists; reflexivity. }
  erewrite bind_resolves by (apply isETHAddressHex_run; exact Ht).
  erewrite bind_resolves by apply getERC20TokenContractAsync_run.
  cbn [andb app calls state result]. unfold await. cbn [calls result].
  split; reflexivity.
Qed.

(** X16. getBalanceAsync throws before any call for an owner or a token address
    that is not well formed; for well-formed ones it makes one call, balanceOf
    for the owner, on the ERC20 object kept under the lower-cased token
    address, and resolves with what the call answers. *)
Theorem getBalanceAsync_asserts (w : World) (st : WrapperState)
    (tokenAddress ownerAddress : address) :
  let outcome := ContractWrapper.getBalanceAsync tokenAddress ownerAddress w st in
  if Assert.matchesETHAddress ownerAddress && Assert.matchesETHAddress tokenAddress
  then
    let tokenContract := tokenContractIn st (JS.toLowerCase tokenAddress) in
    calls outcome = [Call_balanceOf tokenContract ownerAddress] /\
    result outcome = match balanceOf w tokenContract ownerAddress with
                     | inl message => inl (Thrown message)
                     | inr balance => inr balance
                     end
  else
    calls outcome = [] /\ state outcome = st /\
    exists message, result outcome = inl (Thrown message).
Proof. exact (getBalanceAsync_guard w st tokenAddress ownerAddress). Qed.

(** ** The taker's fillable quantity against the maker's *)

Lemma compare_swap x y : compare x y = Some Gt -> compare y x = Some Lt.
Proof.
  destruct x as [| [] |n1 c1 e1], y as [| [] |n2 c2 e2]; cbn; try discriminate;
    try reflexivity.
  intros [= H]. f_equal. rewrite (Z.min_comm e2 e1).
  rewrite Z.compare_antisym, H. reflexivity.
Qed.

Lemma compare_same x : compare x x <> Some Gt.
Proof.
  destruct x as [| [] |n c e]; cbn; try discriminate.
  rewrite Z.compare_refl. discriminate.
Qed.

Lemma isGreaterThan_same x : isGreaterThan x x = false.
Proof.
  unfold isGreaterThan. pose proof (compare_same x).
  destruct (compare x x) as [[]|]; congruence.
Qed.

Lemma min_not_greater x y : isGreaterThan (BN.min x y) x = false.
Proof.
  unfold BN.min. destruct (isNaN y) eqn:N.
  - destruct y; try discriminate. reflexivity.
  - destruct (isGreaterThan x y) eqn:G; [|apply isGreaterThan_same].
    unfold isGreaterThan in G |- *.
    destruct (compare x y) as [[]|] eqn:C; try discriminate.
    rewrite (compare_swap _ _ C). reflexivity.
Qed.

(** X17. Whatever the world answers, when computeRemainingTakerFillable resolves,
    computeRemainingMakerFillable has resolved before it, and the taker's
    fillable quantity is not greater than the maker's (as signed numbers):
    it is the maker's for an open order, and BigNumber.min of the maker's
    and the taker's own otherwise. *)
Theorem computeRemainingTakerFillable_at_most (this : Calculator) (w : World)
    (st : WrapperState) (takerFillable : BigNumber) :
  result (computeRemainingTakerFillable this w st) = inr takerFillable ->
  exists makerFillable,
    result (computeRemainingMakerFillable this w st) = inr makerFillable /\
    isGreaterThan takerFillable makerFillable = false /\
    (String.eqb (taker (_signedOrder this)) NULL_ADDRESS = true ->
     takerFillable = makerFillable).
Proof.
  unfold computeRemainingTakerFillable. rewrite result_bind.
  destruct (result (computeRemainingMakerFillable this w st)) as [e|makerFillable];
    [discriminate|].
  intros H. exists makerFillable. split; [reflexivity|].
  destruct (String.eqb (taker (_signedOrder this)) NULL_ADDRESS).
  - cbn in H. injection H as <-. split; [apply isGreaterThan_same | reflexivity].
  - split; [|discriminate].
    rewrite result_bind in H.
    destruct (result (_getAvailableCollateral this _ w _)) as [e|available];
      [discriminate|].
    rewrite result_bind in H.
    destruct (result (_hasTakerSufficientFundsForFee this w _)) as [e|funds];
      [discriminate|].
    destruct funds; cbn [negb] in H; [|discriminate].
    rewrite result_bind in H.
    destruct (result (Market.calculateNeededCollateralAsync _ _ _ w _)) as [e|needed];
      [discriminate|].
    cbn in H. injection H as <-. apply min_not_greater.
Qed.

(** ** The dictionaries on the test contract *)

Lemma getERC20TokenContractAsync_once_run :
  let w := answering (Scenario.ledger Scenario.funded Scenario.funded (ofInt 0)) in
  let first :=
    ContractWrapper.getERC20TokenContractAsync
      "0xABCDEF3333333333333333333333333333333333"%string w newWrapper in
  ContractWrapper.getERC20TokenContractAsync
    "0xabcdef3333333333333333333333333333333333"%string w (state first)
  = {| calls := []; state := state first; result := result first |}.
Proof.
  apply (getERC20TokenContractAsync_once
           (answering (Scenario.ledger Scenario.funded Scenario.funded (ofInt 0)))
           newWrapper "0xABCDEF3333333333333333333333333333333333"%string
           "0xabcdef3333333333333333333333333333333333"%string).
  reflexivity.
Defined.

Lemma getContractSet_once_run :
  let w := answering (Scenario.ledger Scenario.funded Scenario.funded (ofInt 0)) in
  let first :=
    ContractWrapper._getContractSetByMarketContractAddressAsync
      Scenario.marketAddress w newWrapper in
  ContractWrapper._getContractSetByMarketContractAddressAsync
    Scenario.marketAddress w (state first)
  = {| calls := []; state := state first;
       result := inr {| marketContract := Scenario.marketAddress;
                        marketCollateralPool := Scenario.poolAddress;
                        collateralToken := Scenario.collateralTokenAddress |} |}.
Proof.
  apply (getContractSet_once
           (answering (Scenario.ledger Scenario.funded Scenario.funded (ofInt 0)))
           newWrapper Scenario.marketAddress Scenario.marketAddress);
    reflexivity.
Defined.

Lemma computeRemainingTakerFillable_at_most_run :
  exists makerFillable,
    result (computeRemainingMakerFillable
              (Scenario.calculator (Scenario.order (ofInt 100) (ofInt 10)))
              (answering (Scenario.ledger (Scenario.supporting 50) Scenario.funded
                            (ofInt 2)))
              newWrapper)
    = inr makerFillable /\
    isGreaterThan (ofInt 50) makerFillable = false /\
    (String.eqb (taker (Scenario.order (ofInt 100) (ofInt 10))) NULL_ADDRESS = true ->
     ofInt 50 = makerFillable).
Proof.
  apply (computeRemainingTakerFillable_at_most
           (Scenario.calculator (Scenario.order (ofInt 100) (ofInt 10)))
           (answering (Scenario.ledger (Scenario.supporting 50) Scenario.funded (ofInt 2)))
           newWrapper (ofInt 50)).
  vm_compute. reflexivity.
Defined.

End CacheFacts.

(* ===================================================================== *)
(** * Deposits, withdrawals, positions and histories *)
(* ===================================================================== *)

Module CollateralFacts.
Import BN BNFacts Chain Ledgers JSFacts ChainFacts.
Import Transactions CollateralWrapper CacheFacts.

(** ** Running binds *)

Lemma resolves {A B} (m : Transactions.M A) (f : A -> Transactions.M B) w st c st' a :
  m w st = {| calls := c; state := st'; result := inr a |} ->
  Transactions.bind m f w st =
  {| calls := c ++ calls (f a w st'); state := state (f a w st');
     result := result (f a w st') |}.
Proof. intros H. unfold Transactions.bind. rewrite H. reflexivity. Qed.

Lemma rejects {A B} (m : Transactions.M A) (f : A -> Transactions.M B) w st c st' e :
  m w st = {| calls := c; state := st'; result := inl e |} ->
  Transactions.bind m f w st = {| calls := c; state := st'; result := inl e |}.
Proof. intros H. unfold Transactions.bind. rewrite H. reflexivity. Qed.

Lemma earlier_run {A} (m : Chain.M A) w st c st' r :
  m (chain w) st = {| Chain.calls := c; Chain.state := st'; Chain.result := r |} ->
  earlier m w st = {| calls := map Earlier c; state := st'; result := r |}.
Proof. intros H. unfold earlier. rewrite H. reflexivity. Qed.

Lemma no_send_contractSetCalls st a :
  existsb sends (map Earlier (contractSetCalls st a)) = false.
Proof.
  unfold contractSetCalls. destruct (JS.lookup _ _); reflexivity.
Qed.

(** A computation of [Chain] that rejects ends the computation around it. *)
Lemma earlier_rejects {A B} (m : Chain.M A) (f : A -> Transactions.M B) w st e :
  Chain.result (m (chain w) st) = inl e ->
  Transactions.bind (earlier m) f w st
  = {| calls := map Earlier (Chain.calls (m (chain w) st));
       state := Chain.state (m (chain w) st);
       result := inl e |}.
Proof. intros H. unfold Transactions.bind, earlier. cbn [result]. rewrite H. reflexivity. Qed.

Lemma no_send_getAccounts cs :
  (forall c, In c cs -> c = Call_getAccounts) ->
  existsb sends (map Earlier cs) = false.
Proof.
  induction cs as [|c cs IH]; intros H; [reflexivity|].
  cbn [map existsb]. rewrite IH by (intros c' Hc'; apply H; right; exact Hc').
  rewrite (H c (or_introl eq_refl)). reflexivity.
Qed.

(** ** Deposits *)

Section Deposit.
Variables (w : Transactions.World) (l : Ledger) (st : WrapperState).
Variables (marketContractAddress : address) (depositAmount : BigNumber)
          (txParams : ITxParams).
Hypothesis answers : chain w = answering l.

Let contractSet := contractSetIn l st marketContractAddress.
Let pool := marketCollateralPool contractSet.
Let caller := callerOf txParams.
Let token :=
  tokenContractIn (withContractSet l st marketContractAddress)
    (JS.toLowerCase (collateralToken contractSet)).

(** X18. On a chain that answers every read, depositCollateralAsync goes
    through these steps in order and stops at the first that fails: the
    caller is enabled for the contract, else UserNotEnabledForContract; the
    caller and the collateral token are well-formed addresses, else the
    assertion of the balance read throws; the caller holds at least the
    amount in the collateral token, else InsufficientBalanceForTransfer; the
    pool is a well-formed address and the caller is an account of the node,
    else the assertion of the allowance read throws; the caller has allowed
    the pool at least the amount, else InsufficientAllowanceForTransfer.
    The deposit is sent to the pool exactly when every step passes, and the
    outcome is then the one of the transaction. *)
Theorem depositCollateralAsync_checks :
  let enabled := userEnabled l marketContractAddress caller in
  let wellFormed :=
    Assert.matchesETHAddress caller
    && Assert.matchesETHAddress (collateralToken contractSet) in
  let lowBalance := isLessThan (tokenBalance l token caller) depositAmount in
  let available :=
    Assert.matchesETHAddress pool && JS.includes (accounts l) caller in
  let lowAllowance := isLessThan (tokenAllowance l token caller pool) depositAmount in
  let outcome :=
    depositCollateralAsync marketContractAddress depositAmount txParams w st in
  (if negb enabled
   then result outcome = inl (Market UserNotEnabledForContract)
   else if negb wellFormed
   then exists message, result outcome = inl (Thrown message)
   else if lowBalance
   then result outcome = inl (Market InsufficientBalanceForTransfer)
   else if negb available
   then exists message, result outcome = inl (Thrown message)
   else if lowAllowance
   then result outcome = inl (Market InsufficientAllowanceForTransfer)
   else result outcome
        = match depositTokensForTradingTx w pool depositAmount txParams with
          | inl message => inl (Thrown message)
          | inr txHash => inr txHash
          end) /\
  existsb sends (calls outcome)
  = enabled && wellFormed && negb lowBalance && available && negb lowAllowance.
Proof.
  intros enabled wellFormed lowBalance available lowAllowance outcome.
  unfold outcome, enabled, wellFormed, lowBalance, available, lowAllowance,
    depositCollateralAsync.
  clear outcome enabled wellFormed lowBalance available lowAllowance.
  fold caller.
  erewrite resolves
    by (apply earlier_run; rewrite answers; apply getContractSet_run).
  fold contractSet.
  erewrite resolves by (apply earlier_run; rewrite answers; reflexivity).
  cbn [calls state result map].
  destruct (userEnabled l marketContractAddress caller); cbn [negb andb].
  2:{ cbn. rewrite List.existsb_app, no_send_contractSetCalls. split; reflexivity. }
  destruct (Assert.matchesETHAddress caller
            && Assert.matchesETHAddress (collateralToken contractSet)) eqn:W;
    cbn [negb andb].
  2:{ pose proof (getBalanceAsync_guard (chain w)
                    (withContractSet l st marketContractAddress)
                    (collateralToken contractSet) caller) as G.
      cbv zeta in G. rewrite W in G. destruct G as (Gc & _ & m & Gr).
      erewrite earlier_rejects by exact Gr. rewrite Gc.
      cbn [calls result map app]. split; [exists m; reflexivity|].
      rewrite !List.existsb_app, no_send_contractSetCalls. reflexivity. }
  apply andb_prop in W. destruct W as [Hcaller Htoken].
  erewrite resolves
    by (apply earlier_run; rewrite answers; apply getBalanceAsync_run; assumption).
  fold token. cbn [calls state result map].
  destruct (isLessThan (tokenBalance l token caller) depositAmount); cbn [negb andb].
  { cbn. rewrite List.existsb_app, no_send_contractSetCalls. split; reflexivity. }
  destruct (Assert.matchesETHAddress pool && JS.includes (accounts l) caller) eqn:V;
    cbn [negb andb].
  2:{ pose proof (getAllowanceAsync_guard (chain w)
                    (withTokenContract (withContractSet l st marketContractAddress)
                       (JS.toLowerCase (collateralToken contractSet)))
                    (collateralToken contractSet) caller pool) as G.
      cbv zeta in G. rewrite answers in G. cbn [answering getAccounts] in G.
      rewrite Hcaller, Htoken in G. cbn [andb] in G. rewrite V in G.
      destruct G as [_ G]. destruct (G eq_refl) as [[m Gr] Gc].
      rewrite <- answers in Gr, Gc.
      erewrite earlier_rejects by exact Gr.
      cbn [calls result app]. split; [exists m; reflexivity|].
      rewrite !List.existsb_app, no_send_contractSetCalls.
      cbn [existsb sends orb]. fold pool.
      rewrite (no_send_getAccounts _ Gc). reflexivity. }
  apply andb_prop in V. destruct V as [Hpool Hincluded].
  erewrite resolves
    by (apply earlier_run; rewrite answers; apply getAllowanceAsync_run; assumption).
  rewrite tokenContractIn_normalized. fold token pool.
  cbn [calls state result map].
  destruct (isLessThan (tokenAllowance l token caller pool) depositAmount).
  { cbn. rewrite List.existsb_app, no_send_contractSetCalls. split; reflexivity. }
  cbn. rewrite List.existsb_app, no_send_contractSetCalls. split; reflexivity.
Qed.

(** X19. withdrawCollateralAsync sends the withdrawal only when the balance of
    the caller in the pool covers the amount; otherwise it rejects with
    InsufficientBalanceForTransfer and sends nothing. *)
Theorem withdrawCollateralAsync_checks (withdrawAmount : BigNumber) :
  let outcome :=
    withdrawCollateralAsync marketContractAddress withdrawAmount txParams w st in
  if isLessThan (userAccountBalance l pool caller) withdrawAmount
  then result outcome = inl (Market InsufficientBalanceForTransfer) /\
       existsb sends (calls outcome) = false
  else result outcome
       = match withdrawTokensTx w pool withdrawAmount txParams with
         | inl message => inl (Thrown message)
         | inr txHash => inr txHash
         end /\
       calls outcome
       = (map Earlier (contractSetCalls st marketContractAddress)
          ++ [Earlier (Call_getUserAccountBalance pool caller);
              Send_withdrawTokensTx pool withdrawAmount txParams])%list.
Proof.
  intros outcome. unfold outcome, withdrawCollateralAsync. fold caller.
  erewrite resolves
    by (apply earlier_run; rewrite answers; apply getContractSet_run).
  fold contractSet. fold pool.
  erewrite resolves by (apply earlier_run; rewrite answers; reflexivity).
  cbn [calls state result map].
  destruct (isLessThan (userAccountBalance l pool caller) withdrawAmount).
  - cbn. rewrite List.existsb_app, no_send_contractSetCalls. split; reflexivity.
  - cbn. split; reflexivity.
Qed.

End Deposit.


(** ** Positions *)

(** X20. getUserPositionAsync rejects with UserHasNoAssociatedPositions for a
    user whose position count is below 1 and does not ask for the position
    then; otherwise it asks the pool for the position at the index, whatever
    the index. *)
Theorem getUserPositionAsync_count (w : Transactions.World) (l : Ledger)
    (st : WrapperState) (marketContractAddress userAddress : address)
    (index currentPositionCount : BigNumber) :
  chain w = answering l ->
  let pool := marketCollateralPool (contractSetIn l st marketContractAddress) in
  getUserPositionCount w pool userAddress = inr currentPositionCount ->
  let outcome := getUserPositionAsync marketContractAddress userAddress index w st in
  let reads :=
    (map Earlier (contractSetCalls st marketContractAddress)
     ++ [Call_getUserPositionCount pool userAddress])%list in
  if isLessThan currentPositionCount (ofInt 1)
  then result outcome = inl (Market UserHasNoAssociatedPositions) /\
       calls outcome = reads
  else result outcome
       = match getUserPosition w pool userAddress index with
         | inl message => inl (Thrown message)
         | inr position => inr position
         end /\
       calls outcome = (reads ++ [Call_getUserPosition pool userAddress index])%list.
Proof.
  intros answers pool Hcount outcome reads.
  unfold outcome, reads, getUserPositionAsync.
  erewrite resolves
    by (apply earlier_run; rewrite answers; apply getContractSet_run).
  fold pool. unfold Transactions.bind, Transactions.await. cbn [calls state result].
  rewrite Hcount.
  destruct (isLessThan currentPositionCount (ofInt 1)); cbn;
    rewrite ?List.app_nil_r, <- ?List.app_assoc; split; reflexivity.
Qed.

(** ** Allowances *)

Lemma isValidBaseUnitAmount_any name value found (w : Chain.World) st :
  exists message,
    Assert.isValidBaseUnitAmount name value found w st
    = {| Chain.calls := []; Chain.state := st;
         Chain.result :=
           if negb (isNegative value)
              && match decimalPlaces value with
                 | Some places => (places =? 0)%Z
                 | None => false
                 end
           then inr tt else inl (Thrown message) |}.
Proof.
  unfold Assert.isValidBaseUnitAmount, Chain.bind, Assert.assert. cbv zeta.
  destruct (negb (isNegative value)); cbn [andb];
    [destruct (match decimalPlaces value with
               | Some places => (places =? 0)%Z
               | None => false
               end); [exists EmptyString|eexists] | eexists];
    unfold Chain.ret, Chain.reject;
    cbn [Chain.calls Chain.state Chain.result app]; reflexivity.
Qed.

(** X21. setAllowanceAsync sends the approval only for a well-formed spender and
    token address, a sender that is one of the accounts of the node and an
    amount that is a whole number and not negative; otherwise it throws and
    sends nothing. *)
Theorem setAllowanceAsync_asserts (w : Transactions.World) (st : WrapperState)
    (tokenAddress spenderAddress : address) (amountInBaseUnits : BigNumber)
    (txParams : ITxParams) :
  let outcome :=
    setAllowanceAsync tokenAddress spenderAddress amountInBaseUnits txParams w st in
  let sender : string :=
    match Chain.from txParams with Some sender => sender | None => EmptyString end in
  let asserted :=
    Assert.matchesETHAddress spenderAddress && Assert.matchesETHAddress tokenAddress
    && Assert.matchesETHAddress sender
    && match getAccounts (chain w) with
       | inr accounts => JS.includes accounts sender
       | inl _ => false
       end
    && negb (isNegative amountInBaseUnits)
    && match decimalPlaces amountInBaseUnits with
       | Some places => (places =? 0)%Z
       | None => false
       end in
  (asserted = true ->
   exists tokenContract,
     calls outcome
     = [Earlier Call_getAccounts;
        Send_approveTx tokenContract spenderAddress amountInBaseUnits txParams]) /\
  (asserted = false ->
   existsb sends (calls outcome) = false /\
   exists message, result outcome = inl (Thrown message)).
Proof.
  intros outcome sender asserted.
  unfold outcome, asserted, sender, setAllowanceAsync.
  clear outcome asserted sender.
  match goal with
  | |- context [Assert.isSenderAddressAsync _ ?s] => set (sender := s) in *
  end.
  clearbody sender.
  assert (Throws : forall (calls0 : list Call) message,
            existsb sends calls0 = false ->
            (false = true ->
             exists tokenContract,
               calls0 = [Earlier Call_getAccounts;
                         Send_approveTx tokenContract spenderAddress amountInBaseUnits
                           txParams]) /\
            (false = false ->
             existsb sends calls0 = false /\
             exists message0, @inl Rejection string (Thrown message) = inl (Thrown message0))).
  { intros calls0 message H. split; [discriminate|]. intros _.
    split; [exact H | eexists; reflexivity]. }
  destruct (Assert.matchesETHAddress spenderAddress) eqn:Hs.
  2:{ destruct (isETHAddressHex_throws "spenderAddress" spenderAddress (chain w) st Hs)
        as [m Hm].
      erewrite rejects by (apply earlier_run; exact Hm).
      cbn [calls result andb map]. apply Throws. reflexivity. }
  erewrite resolves by (apply earlier_run; apply isETHAddressHex_run; exact Hs).
  destruct (Assert.matchesETHAddress tokenAddress) eqn:Ht.
  2:{ destruct (isETHAddressHex_throws "tokenAddress" tokenAddress (chain w) st Ht)
        as [m Hm].
      erewrite rejects by (apply earlier_run; exact Hm).
      cbn [calls result andb map app]. apply Throws. reflexivity. }
  erewrite resolves by (apply earlier_run; apply isETHAddressHex_run; exact Ht).
  destruct (Assert.matchesETHAddress sender) eqn:Hx.
  2:{ unfold Assert.isSenderAddressAsync.
      destruct (isETHAddressHex_throws "txParams.from" sender (chain w) st Hx) as [m Hm].
      erewrite rejects
        by (apply earlier_run; erewrite bind_rejects by exact Hm; reflexivity).
      cbn [calls result andb map app]. apply Throws. reflexivity. }
  destruct (isSenderAddressAsync_any "txParams.from" sender (chain w) st Hx) as [m Hm].
  cbn [andb map app calls state result].
  destruct (getAccounts (chain w)) as [failure|accounts].
  { erewrite rejects by (apply earlier_run; exact Hm).
    cbn [calls result andb]. apply Throws. reflexivity. }
  destruct (JS.includes accounts sender).
  2:{ erewrite rejects by (apply earlier_run; exact Hm).
      cbn [calls result andb]. apply Throws. reflexivity. }
  erewrite resolves by (apply earlier_run; exact Hm).
  erewrite resolves by reflexivity.
  cbn [andb map app calls state result].
  destruct (isValidBaseUnitAmount_any "amountInBaseUnits" amountInBaseUnits
              (toNumberText w amountInBaseUnits) (chain w) st) as [m' Hm'].
  destruct (negb (isNegative amountInBaseUnits)
            && match decimalPlaces amountInBaseUnits with
               | Some places => (places =? 0)%Z
               | None => false
               end) eqn:Hvalid.
  2:{ erewrite rejects by (apply earlier_run; exact Hm').
      cbn [calls result andb map app]. apply Throws. reflexivity. }
  erewrite resolves by (apply earlier_run; exact Hm').
  erewrite resolves by (apply earlier_run; apply getERC20TokenContractAsync_run).
  cbn [andb map app calls state result]. unfold Transactions.await. cbn [calls].
  split; [intros _; eexists; reflexivity | discriminate].
Qed.

(** ** Histories *)

Section Histories.
Variables (w : Transactions.World) (l : Ledger) (st : WrapperState).
Variables (marketContractAddress : address) (fromBlock toBlock : string)
          (userAddress : option address).
Variable transactions : string -> Transaction.
Hypothesis answers : chain w = answering l.

Let contractSet := contractSetIn l st marketContractAddress.

Lemma getContractFillsAsync_loop_run side events : forall st' orderFilledEvents,
  (forall e, In e events -> getTransaction w (transactionHash e)
                            = inr (transactions (transactionHash e))) ->
  result (getContractFillsAsync_loop events userAddress side orderFilledEvents w st')
  = inr (orderFilledEvents
         ++ map (fun e => orderFilledEvent e (transactions (transactionHash e)))
              (filter (wanted userAddress side) events))%list.
Proof.
  induction events as [|e events IH]; intros st' acc Htx.
  - cbn. rewrite List.app_nil_r. reflexivity.
  - cbn [getContractFillsAsync_loop].
    unfold Transactions.bind at 1. unfold Transactions.await at 1.
    cbn [calls state result]. rewrite (Htx e (or_introl eq_refl)). cbn [result].
    rewrite IH by (intros e' He'; apply Htx; right; exact He').
    cbn [filter]. destruct (wanted userAddress side e).
    + cbn [map]. rewrite <- List.app_assoc. reflexivity.
    + reflexivity.
Qed.

(** X22. getContractFillsAsync returns, in the order of the log, the fills of
    the entries it wants: every entry when no user is given, else those
    with the user as maker (side maker), as taker (side taker) or as either
    (side any); each with the block number and hash of its transaction. *)
Theorem getContractFillsAsync_filters (side : string)
    (events : list (Log OrderFilledArgs)) :
  Transactions.OrderFilledEvent w (marketContract contractSet) fromBlock toBlock
  = inr events ->
  (forall e, In e events -> getTransaction w (transactionHash e)
                            = inr (transactions (transactionHash e))) ->
  result (getContractFillsAsync marketContractAddress fromBlock toBlock userAddress
            side w st)
  = inr (map (fun e => orderFilledEvent e (transactions (transactionHash e)))
           (filter (wanted userAddress side) events)).
Proof.
  intros Hevents Htx. unfold getContractFillsAsync.
  erewrite resolves
    by (apply earlier_run; rewrite answers; apply getContractSet_run).
  fold contractSet. cbn [result].
  unfold Transactions.bind at 1. unfold Transactions.await at 1.
  cbn [calls state result]. rewrite Hevents. cbn [result].
  apply getContractFillsAsync_loop_run, Htx.
Qed.

Variable decoded : string -> DecodedInput.

Lemma getCollateralEventsAsync_loop_run pool logs : forall st' collateralEvents,
  (forall e, In e logs -> getTransaction w (transactionHash e)
                          = inr (transactions (transactionHash e))) ->
  (forall e, In e logs ->
     decodeData w pool (Transactions.input (transactions (transactionHash e)))
     = inr (decoded (transactionHash e))) ->
  result (getCollateralEventsAsync_loop pool logs userAddress collateralEvents w st')
  = inr (collateralEvents
         ++ flat_map
              (fun e =>
                 let transaction := transactions (transactionHash e) in
                 let event := collateralEvent transaction (decoded (transactionHash e)) in
                 (if noUser userAddress then [event] else [])
                 ++ (if involves userAddress transaction then [event] else []))
              logs)%list.
Proof.
  induction logs as [|e logs IH]; intros st' acc Htx Hin.
  - cbn. rewrite List.app_nil_r. reflexivity.
  - cbn [getCollateralEventsAsync_loop].
    unfold Transactions.bind at 1. unfold Transactions.await at 1.
    cbn [calls state result]. rewrite (Htx e (or_introl eq_refl)). cbn [result].
    unfold Transactions.bind at 1. unfold Transactions.attempt at 1.
    cbn [calls state result]. rewrite (Hin e (or_introl eq_refl)). cbn [result].
    rewrite IH
      by (intros e' He'; first [apply Htx | apply Hin]; right; exact He').
    cbn [flat_map]. cbv zeta.
    destruct (noUser userAddress), (involves userAddress (transactions (transactionHash e)));
      cbn [app]; rewrite <- ?List.app_assoc; reflexivity.
Qed.

(** X23. getCollateralEventsAsync returns the events of the log in its order;
    for a user, those of the transactions from or to the user, each once.
    Without a user it returns every event, and the event of a transaction
    without a recipient twice: null equals the null recipient in the second
    test. The log and the transactions are retrieved, and the inputs of
    the transactions decode. *)
Theorem getCollateralEventsAsync_filters (logs : list (Log unit)) :
  let pool := marketCollateralPool contractSet in
  let eventOf (e : Log unit) :=
    collateralEvent (transactions (transactionHash e)) (decoded (transactionHash e)) in
  UpdatedUserBalanceEvent w pool fromBlock toBlock = inr logs ->
  (forall e, In e logs -> getTransaction w (transactionHash e)
                          = inr (transactions (transactionHash e))) ->
  (forall e, In e logs ->
     decodeData w pool (Transactions.input (transactions (transactionHash e)))
     = inr (decoded (transactionHash e))) ->
  let events :=
    result (getCollateralEventsAsync marketContractAddress fromBlock toBlock
              userAddress w st) in
  (noUser userAddress = false ->
   events = inr (map eventOf
                   (filter (fun e => involves userAddress (transactions (transactionHash e)))
                      logs))) /\
  (userAddress = None ->
   events = inr (flat_map
                   (fun e => match to (transactions (transactionHash e)) with
                             | Some _ => [eventOf e]
                             | None => [eventOf e; eventOf e]
                             end) logs)).
Proof.
  intros pool eventOf Hlogs Htx Hin events.
  assert (E : events
              = inr (flat_map
                       (fun e =>
                          (if noUser userAddress then [eventOf e] else [])
                          ++ (if involves userAddress (transactions (transactionHash e))
                              then [eventOf e] else []))
                       logs)%list).
  { unfold events, getCollateralEventsAsync.
    erewrite resolves
      by (apply earlier_run; rewrite answers; apply getContractSet_run).
    fold contractSet. fold pool. cbn [result].
    unfold Transactions.bind at 1. unfold Transactions.await at 1.
    cbn [calls state result]. rewrite Hlogs. cbn [result].
    rewrite (getCollateralEventsAsync_loop_run pool logs _ [] Htx Hin). reflexivity. }
  rewrite E. clear E Hlogs Htx Hin. split.
  - intros Huser. rewrite Huser. f_equal.
    induction logs as [|e logs' IH]; [reflexivity|].
    cbn [flat_map filter].
    destruct (involves userAddress (transactions (transactionHash e)));
      cbn [app map]; rewrite <- IH; reflexivity.
  - intros Huser. f_equal.
    induction logs as [|e logs' IH]; [reflexivity|].
    cbn [flat_map]. rewrite IH. rewrite Huser. unfold involves, noUser, isUser.
    destruct (to (transactions (transactionHash e))); reflexivity.
Qed.

End Histories.

(** ** The pool of the test contract *)

(** The taker holds 1000 collateral tokens and has allowed the pool 1000:
    a deposit of 2000 is rejected for the balance. Behind a node that holds
    the maker's account only, a deposit of 500 by the taker, who is enabled
    and funded, throws at the assertion of the allowance read. Nothing is
    sent in either case. *)
Lemma depositCollateralAsync_checks_run :
  (let outcome :=
     depositCollateralAsync Scenario.marketAddress (ofInt 2000) Scenario.fromTaker
       History.world newWrapper in
   result outcome = inl (Market InsufficientBalanceForTransfer) /\
   existsb sends (calls outcome) = false) /\
  (let outcome :=
     depositCollateralAsync Scenario.marketAddress (ofInt 500) Scenario.fromTaker
       (History.worldOn
          (Scenario.behind [Scenario.makerAddress]
             (Scenario.ledger Scenario.funded Scenario.funded (ofInt 0))))
       newWrapper in
   (exists message, result outcome = inl (Thrown message)) /\
   existsb sends (calls outcome) = false).
Proof.
  split.
  - exact (depositCollateralAsync_checks History.world
             (Scenario.ledger Scenario.funded Scenario.funded (ofInt 0)) newWrapper
             Scenario.marketAddress (ofInt 2000) Scenario.fromTaker eq_refl).
  - exact (depositCollateralAsync_checks
             (History.worldOn
                (Scenario.behind [Scenario.makerAddress]
                   (Scenario.ledger Scenario.funded Scenario.funded (ofInt 0))))
             (Scenario.behind [Scenario.makerAddress]
                (Scenario.ledger Scenario.funded Scenario.funded (ofInt 0)))
             newWrapper Scenario.marketAddress (ofInt 500) Scenario.fromTaker eq_refl).
Defined.

Lemma withdrawCollateralAsync_checks_run :
  let outcome :=
    withdrawCollateralAsync Scenario.marketAddress (ofInt 200000000000)
      Scenario.fromTaker History.world newWrapper in
  result outcome = inl (Market InsufficientBalanceForTransfer) /\
  existsb sends (calls outcome) = false.
Proof.
  exact (withdrawCollateralAsync_checks History.world
           (Scenario.ledger Scenario.funded Scenario.funded (ofInt 0)) newWrapper
           Scenario.marketAddress Scenario.fromTaker eq_refl (ofInt 200000000000)).
Defined.

Lemma getUserPositionAsync_count_run :
  let outcome :=
    getUserPositionAsync Scenario.marketAddress Scenario.makerAddress (ofInt 0)
      History.world newWrapper in
  result outcome = inl (Market UserHasNoAssociatedPositions) /\
  calls outcome
  = [Earlier (Get_MARKET_COLLATERAL_POOL_ADDRESS Scenario.marketAddress);
     Earlier (Get_COLLATERAL_TOKEN_ADDRESS Scenario.marketAddress);
     Call_getUserPositionCount Scenario.poolAddress Scenario.makerAddress].
Proof.
  exact (getUserPositionAsync_count History.world
           (Scenario.ledger Scenario.funded Scenario.funded (ofInt 0)) newWrapper
           Scenario.marketAddress Scenario.makerAddress (ofInt 0) (ofInt 0)
           eq_refl eq_refl).
Defined.

(** The fills of the taker as taker: the second and the third of the log. *)
Lemma getContractFillsAsync_filters_run :
  result (getContractFillsAsync Scenario.marketAddress "0x0"%string "latest"%string
            (Some Scenario.takerAddress) "taker"%string History.world newWrapper)
  = inr (map (fun e => orderFilledEvent e (History.transactionOf (transactionHash e)))
           (filter (wanted (Some Scenario.takerAddress) "taker"%string) History.fills)).
Proof.
  apply (getContractFillsAsync_filters History.world
           (Scenario.ledger Scenario.funded Scenario.funded (ofInt 0)) newWrapper
           Scenario.marketAddress "0x0"%string "latest"%string (Some Scenario.takerAddress)
           History.transactionOf eq_refl "taker"%string History.fills).
  - reflexivity.
  - intros e _. reflexivity.
Defined.

(** For the maker, the deposit the maker sent; for nobody, the three events
    of the log and the one of the transaction without a recipient again. *)
Lemma getCollateralEventsAsync_filters_run :
  List.length
    match result (getCollateralEventsAsync Scenario.marketAddress "0x0"%string "latest"%string
                    (Some Scenario.makerAddress) History.world newWrapper) with
    | inr events => events
    | inl _ => []
    end = 1%nat /\
  List.length
    match result (getCollateralEventsAsync Scenario.marketAddress "0x0"%string "latest"%string
                    None History.world newWrapper) with
    | inr events => events
    | inl _ => []
    end = 4%nat.
Proof.
  split.
  - destruct (getCollateralEventsAsync_filters History.world
                (Scenario.ledger Scenario.funded Scenario.funded (ofInt 0)) newWrapper
                Scenario.marketAddress "0x0"%string "latest"%string (Some Scenario.makerAddress)
                History.transactionOf eq_refl History.decoded History.balanceLogs)
      as [User _]; [reflexivity | intros e _; reflexivity ..|].
    rewrite (User eq_refl). reflexivity.
  - destruct (getCollateralEventsAsync_filters History.world
                (Scenario.ledger Scenario.funded Scenario.funded (ofInt 0)) newWrapper
                Scenario.marketAddress "0x0"%string "latest"%string None
                History.transactionOf eq_refl History.decoded History.balanceLogs)
      as [_ Nobody]; [reflexivity | intros e _; reflexivity ..|].
    rewrite (Nobody eq_refl). reflexivity.
Defined.

End CollateralFacts.

